(** * natman-go: rule compilation, canonical keys, reconciliation and execution

    A shallow embedding of the parts of natman-go that compile IPv6 mapping
    sets into ip6tables rules, normalise rules into comparison keys, compute
    the add/remove difference, execute it, and infer common address prefixes
    when a configuration is synthesised from live state.

    Go strings are byte strings; they are embedded as [string] (a list of
    8-bit characters).  The functions of Go's [strings] and [strconv]
    packages that the program calls are embedded in [GoStrings].  [Split],
    [Contains], [Count], [HasPrefix], [TrimPrefix], [Join], [Replace],
    [TrimRight] with a one-byte cutset and [Atoi] work on bytes in Go as they
    do here.  [Fields], [TrimSpace] and [ToLower] are the ASCII paths of the
    Go functions: they agree with Go on every string whose bytes are all
    below 128 ([isASCII]), which is what iptables rule text consists of.  A
    theorem that depends on where [Fields] or [TrimSpace] cut a text built
    from an interface name or an address assumes that these are ASCII; a
    theorem that only passes [Fields rule] on holds for Go's function as
    well.

    The first part holds the embedding, one module per Go package, each
    followed by the notions the specification uses for it; the second part
    holds the lemmas and, for each claim of the specification, its theorem;
    the third part holds further properties of the embedded functions and
    of those around them: the construction of mapping sets from the
    configuration, the scanners of the rule listings, the generation of NAT
    rules and of announced routes, and whole passes of the appliers.
    External commands are not run: the applier functions are embedded over
    an arbitrary host (see [osexec]) and are described by the trace of
    commands and output lines they produce. *)

From Stdlib Require Import String Ascii List ZArith Lia Bool DecimalString DecimalPos.
From stdpp Require Import base option list gmap strings.

Import ListNotations.
Local Open Scope string_scope.
Local Open Scope list_scope.

(** ** Go's [strings] and [strconv] functions used by the program *)

Module GoStrings.

Fixpoint HasPrefix (s prefix : string) {struct prefix} : bool :=
  match prefix with
  | EmptyString => true
  | String c prefix' =>
      match s with
      | EmptyString => false
      | String d s' => if Ascii.eqb c d then HasPrefix s' prefix' else false
      end
  end.

(** [s[n:]], clipped at the end of [s]. *)
Fixpoint drop_bytes (n : nat) (s : string) : string :=
  match n, s with
  | O, _ => s
  | S _, EmptyString => EmptyString
  | S n', String _ s' => drop_bytes n' s'
  end.

Definition TrimPrefix (s prefix : string) : string :=
  if HasPrefix s prefix then drop_bytes (String.length prefix) s else s.

(** [strings.Cut]: the text before and after the first occurrence of [sep]. *)
Fixpoint Cut (s sep : string) : option (string * string) :=
  if HasPrefix s sep then Some (EmptyString, drop_bytes (String.length sep) s)
  else match s with
       | EmptyString => None
       | String c s' =>
           match Cut s' sep with
           | Some (before, after) => Some (String c before, after)
           | None => None
           end
       end.

Definition Contains (s substr : string) : bool :=
  match Cut s substr with Some _ => true | None => false end.

(** The bytes of a string, one string per byte: what [Split] yields for an
    empty separator on ASCII text.  The program never passes an empty
    separator or an empty substring. *)
Fixpoint explode (s : string) : list string :=
  match s with
  | EmptyString => []
  | String c s' => String c EmptyString :: explode s'
  end.

(** Every cut at a non-empty separator removes at least one byte, so
    [String.length s] rounds are enough (see [genSplit_fuel]). *)
Fixpoint genSplit (fuel : nat) (s sep : string) : list string :=
  match fuel with
  | O => [s]
  | S fuel' =>
      match Cut s sep with
      | None => [s]
      | Some (before, after) => before :: genSplit fuel' after sep
      end
  end.

Definition Split (s sep : string) : list string :=
  match sep with
  | EmptyString => explode s
  | _ => genSplit (String.length s) s sep
  end.

Fixpoint countFrom (fuel : nat) (s substr : string) : nat :=
  match fuel with
  | O => O
  | S fuel' =>
      match Cut s substr with
      | None => O
      | Some (_, after) => S (countFrom fuel' after substr)
      end
  end.

(** Non-overlapping occurrences of [substr] in [s]. *)
Definition Count (s substr : string) : nat :=
  match substr with
  | EmptyString => S (String.length s)
  | _ => countFrom (String.length s) s substr
  end.

Fixpoint Join (elems : list string) (sep : string) : string :=
  match elems with
  | [] => EmptyString
  | [e] => e
  | e :: rest => e +:+ sep +:+ Join rest sep
  end.

Fixpoint inCutset (c : ascii) (cutset : string) : bool :=
  match cutset with
  | EmptyString => false
  | String d cutset' => Ascii.eqb c d || inCutset c cutset'
  end.

Fixpoint TrimRight (s cutset : string) : string :=
  match s with
  | EmptyString => EmptyString
  | String c s' =>
      match TrimRight s' cutset with
      | EmptyString => if inCutset c cutset then EmptyString else String c EmptyString
      | t => String c t
      end
  end.

(** Go's [asciiSpace]: tab, newline, vertical tab, form feed, carriage
    return, space. *)
Definition isSpace (c : ascii) : bool :=
  let n := nat_of_ascii c in
  ((9 <=? n)%nat && (n <=? 13)%nat) || (n =? 32)%nat.

Fixpoint fieldsFrom (cur : string) (s : string) : list string :=
  match s with
  | EmptyString => match cur with EmptyString => [] | _ => [cur] end
  | String c s' =>
      if isSpace c
      then match cur with
           | EmptyString => fieldsFrom EmptyString s'
           | _ => cur :: fieldsFrom EmptyString s'
           end
      else fieldsFrom (cur +:+ String c EmptyString) s'
  end.

(** [strings.Fields] on ASCII text: the path Go takes when no byte of [s]
    is 128 or above ([isASCII]).  On other text Go also cuts at Unicode
    white space such as U+0085 and U+00A0. *)
Definition Fields (s : string) : list string := fieldsFrom EmptyString s.

Definition lowerByte (c : ascii) : ascii :=
  let n := nat_of_ascii c in
  if (65 <=? n)%nat && (n <=? 90)%nat then ascii_of_nat (n + 32) else c.

(** [strings.ToLower] on ASCII text ([isASCII]); on other text Go also
    lowers letters outside ASCII. *)
Fixpoint ToLower (s : string) : string :=
  match s with
  | EmptyString => EmptyString
  | String c s' => String (lowerByte c) (ToLower s')
  end.

(** [strings.Replace s old new n] for [n >= 0]: the first [n] occurrences.
    The program only calls it with [n = 1] and a non-empty [old]. *)
Fixpoint Replace (s old new : string) (n : nat) : string :=
  match n with
  | O => s
  | S n' =>
      match Cut s old with
      | None => s
      | Some (before, after) => before +:+ new +:+ Replace after old new n'
      end
  end.

Definition digitValue (c : ascii) : option Z :=
  let n := nat_of_ascii c in
  if (48 <=? n)%nat && (n <=? 57)%nat then Some (Z.of_nat (n - 48)) else None.

Fixpoint parseDigits (acc : Z) (s : string) : option Z :=
  match s with
  | EmptyString => Some acc
  | String c s' =>
      match digitValue c with
      | Some d => parseDigits (10 * acc + d) s'
      | None => None
      end
  end.

(** [strconv.Atoi] on a 64-bit platform: an optional sign, at least one
    decimal digit, nothing else, and a value that fits in an [int]; [None]
    is a non-nil error. *)
Definition Atoi (s : string) : option Z :=
  let '(neg, body) :=
    match s with
    | String c r =>
        if Ascii.eqb c "+" then (false, r)
        else if Ascii.eqb c "-" then (true, r)
        else (false, s)
    | EmptyString => (false, s)
    end in
  match body with
  | EmptyString => None
  | _ =>
      match parseDigits 0 body with
      | None => None
      | Some v =>
          let v' := if neg then (- v)%Z else v in
          if ((- 2 ^ 63 <=? v') && (v' <=? 2 ^ 63 - 1))%Z then Some v' else None
      end
  end.

(** The test [s == ""]. *)
Definition isEmpty (s : string) : bool :=
  match s with EmptyString => true | _ => false end.

(** [%d] of a non-negative [int]. *)
Definition itoa (n : nat) : string := NilEmpty.string_of_uint (Nat.to_uint n).

Fixpoint trimLeftSpace (s : string) : string :=
  match s with
  | EmptyString => EmptyString
  | String c s' => if isSpace c then trimLeftSpace s' else s
  end.

Fixpoint trimRightSpace (s : string) : string :=
  match s with
  | EmptyString => EmptyString
  | String c s' =>
      match trimRightSpace s' with
      | EmptyString => if isSpace c then EmptyString else String c EmptyString
      | t => String c t
      end
  end.

(** [strings.TrimSpace] on ASCII text ([isASCII]); on other text Go also
    trims Unicode white space. *)
Definition TrimSpace (s : string) : string := trimRightSpace (trimLeftSpace s).

(** [%d] of an [int]. *)
Definition Itoa (z : Z) : string := NilEmpty.string_of_int (Z.to_int z).

(** A string without white space, and a field: a non-empty one.  [Fields]
    yields fields, and a field is what it yields for it. *)
Fixpoint noSpace (s : string) : bool :=
  match s with
  | EmptyString => true
  | String c s' => negb (isSpace c) && noSpace s'
  end.

Definition isField (s : string) : bool := negb (isEmpty s) && noSpace s.

(** A string whose bytes are all below 128: on such a string Go's
    [strings.Fields], [strings.TrimSpace] and [strings.ToLower] take their
    ASCII paths, which are the functions above. *)
Fixpoint isASCII (s : string) : bool :=
  match s with
  | EmptyString => true
  | String c s' => (nat_of_ascii c <? 128)%nat && isASCII s'
  end.

End GoStrings.

Import GoStrings.

(** ** Package config (src/config/config.go)

    An element of a [pair] is an [interface{}] holding a decoded YAML
    value: a string, an [int], a [float64] or a value of another type. *)

Module config.

Inductive value (Float64 : Type) :=
| VString (s : string)
| VInt (n : Z)
| VFloat64 (f : Float64)
| VOther.
Arguments VString {Float64} _.
Arguments VInt {Float64} _.
Arguments VFloat64 {Float64} _.
Arguments VOther {Float64}.

Record MapPair (Float64 : Type) := {
  Pair : list (value Float64)
}.
Arguments Pair {Float64} _.

Record Netmap6Config (Float64 : Type) := {
  Enabled : bool;
  PfxPub : string;
  PfxPriv : string;
  Maps : list (MapPair Float64)
}.
Arguments Enabled {Float64} _.
Arguments PfxPub {Float64} _.
Arguments PfxPriv {Float64} _.
Arguments Maps {Float64} _.

End config.

(** ** Package netmap6 (src/link/netmap6/main.go)

    [DebugPrint] writes to standard output only when the package's debug
    flag is set and never changes a result; it is left out. *)

Module netmap6.

Record RadvRoute := {
  Preference : string;
  Metric : Z;
  Lifetime : Z;
  Prefix : string
}.

Record MapPair := {
  Public : string;
  Private : string;
  Radv : option RadvRoute
}.

Record Netmap6 := {
  Name : string;
  Enabled : bool;
  PfxPub : string;
  PfxPriv : string;
  Maps : list MapPair
}.

(** The method's receiver is not used by its body and is not a parameter
    here.  [parts[1]] exists whenever the address contains a slash
    (lemma [Split_slash_two]). *)
Definition SimpleConcatAddress (addressPart prefix : string) : string :=
  if isEmpty prefix then addressPart
  else
    let '(addrPart, cidrSuffix) :=
      if Contains addressPart "/"
      then let parts := Split addressPart "/" in
           (nth 0 parts "", "/" +:+ nth 1 parts "")
      else (addressPart, "") in
    let prefix := TrimRight prefix ":" in
    prefix +:+ ":" +:+ addrPart +:+ cidrSuffix.

Definition postroutingRule (interfaceName privateAddr publicAddr : string) : string :=
  "ip6tables -t nat -A POSTROUTING -o " +:+ interfaceName +:+ " -s " +:+ privateAddr
    +:+ " -j NETMAP --to " +:+ publicAddr.

Definition preroutingRule (interfaceName publicAddr privateAddr : string) : string :=
  "ip6tables -t nat -A PREROUTING -i " +:+ interfaceName +:+ " -d " +:+ publicAddr
    +:+ " -j NETMAP --to " +:+ privateAddr.

(** The body of the loop over [n.Maps]: [rules] is the slice built so far. *)
Definition generateStep (n : Netmap6) (interfaceName : string)
    (rules : list string) (mapping : MapPair) : list string :=
  if isEmpty (Public mapping) || isEmpty (Private mapping) then rules
  else
    let publicAddr := SimpleConcatAddress (Public mapping) (PfxPub n) in
    let privateAddr := SimpleConcatAddress (Private mapping) (PfxPriv n) in
    let postrouting := postroutingRule interfaceName privateAddr publicAddr in
    let prerouting := preroutingRule interfaceName publicAddr privateAddr in
    rules ++ [postrouting; prerouting].

Definition GenerateIp6tablesRules (n : Netmap6) (interfaceName : string) : list string :=
  if negb (Enabled n) || isEmpty interfaceName then []
  else foldl (generateStep n interfaceName) [] (Maps n).

Definition isHexDigit (c : ascii) : bool :=
  let k := nat_of_ascii c in
  ((48 <=? k)%nat && (k <=? 57)%nat)
  || ((97 <=? k)%nat && (k <=? 102)%nat)
  || ((65 <=? k)%nat && (k <=? 70)%nat).

Fixpoint allHex (segment : string) : bool :=
  match segment with
  | EmptyString => true
  | String c rest => if isHexDigit c then allHex rest else false
  end.

Fixpoint nonEmptyCount (segments : list string) : nat :=
  match segments with
  | [] => O
  | seg :: rest => if isEmpty seg then nonEmptyCount rest else S (nonEmptyCount rest)
  end.

(** The final loop of [isValidIPv6AddressFormat]: it returns false at the
    first segment that is too long or is not hexadecimal. *)
Fixpoint checkSegments (segments : list string) : bool :=
  match segments with
  | [] => true
  | segment :: rest =>
      if isEmpty segment then checkSegments rest
      else if (4 <? String.length segment)%nat then false
      else if negb (allHex segment) then false
      else checkSegments rest
  end.

Definition isValidIPv6AddressFormat (ipPart : string) : bool :=
  if negb (Contains ipPart ":") then false
  else if Contains ipPart ":::" then false
  else
    let doubleColonCount := Count ipPart "::" in
    if (1 <? doubleColonCount)%nat then false
    else
      let segments := Split ipPart ":" in
      let hasCompression := Contains ipPart "::" in
      if (if hasCompression
          then (7 <? nonEmptyCount segments)%nat
          else negb (length segments =? 8)%nat)
      then false
      else checkSegments segments.

Definition isValidIPv6Address (addr : string) : bool :=
  if isEmpty addr then false
  else if Contains addr "/"
  then
    let parts := Split addr "/" in
    if negb (length parts =? 2)%nat then false
    else
      let ipPart := nth 0 parts "" in
      let prefixLen := nth 1 parts "" in
      match Atoi prefixLen with
      | None => false
      | Some pl =>
          if ((pl <? 0) || (128 <? pl))%Z then false
          else isValidIPv6AddressFormat ipPart
      end
  else isValidIPv6AddressFormat addr.

Definition radvStep (n : Netmap6) (routes : list RadvRoute) (mapping : MapPair)
    : list RadvRoute :=
  match Radv mapping with
  | None => routes
  | Some radv =>
      let publicAddr := SimpleConcatAddress (Public mapping) (PfxPub n) in
      if isValidIPv6Address publicAddr
      then routes ++ [ {| Prefix := publicAddr;
                          Preference := Preference radv;
                          Metric := Metric radv;
                          Lifetime := Lifetime radv |} ]
      else routes
  end.

Definition GetRadvRoutes (n : Netmap6) : list RadvRoute :=
  if negb (Enabled n) then []
  else foldl (radvStep n) [] (Maps n).

(** *** The words of the specification, for comparison with the code *)

(** The text of [s] before its first [c] (all of [s] when there is none). *)
Fixpoint upTo (c : ascii) (s : string) : string :=
  match s with
  | EmptyString => EmptyString
  | String d s' => if Ascii.eqb d c then EmptyString else String d (upTo c s')
  end.

(** The text of [s] after its first [c], and whether there is a [c]. *)
Fixpoint afterFirst (c : ascii) (s : string) : option string :=
  match s with
  | EmptyString => None
  | String d s' => if Ascii.eqb d c then Some s' else afterFirst c s'
  end.

Fixpoint countByte (c : ascii) (s : string) : nat :=
  match s with
  | EmptyString => O
  | String d s' => if Ascii.eqb d c then S (countByte c s') else countByte c s'
  end.

(** Address body and CIDR suffix as expansion sees them: the suffix is the
    slash and what follows it up to the next slash. *)
Definition addressBody (address : string) : string := upTo "/" address.

Definition cidrSuffix (address : string) : string :=
  match afterFirst "/" address with
  | None => ""
  | Some rest => "/" +:+ upTo "/" rest
  end.

Fixpoint endsWith (c : ascii) (s : string) : bool :=
  match s with
  | EmptyString => false
  | String d EmptyString => Ascii.eqb d c
  | String _ s' => endsWith c s'
  end.

Fixpoint colons (k : nat) : string :=
  match k with O => "" | S k' => String ":" (colons k') end.

(** Positions at which ["::"] occurs, overlapping ones included. *)
Fixpoint doubleColons (s : string) : nat :=
  match s with
  | EmptyString => O
  | String _ s' => (if HasPrefix s "::" then 1 else 0) + doubleColons s'
  end.

(** Number of 16-bit groups an address text stands for: a compressed-zero
    marker stands for at least one group. *)
Definition resolvedSegments (ipPart : string) : nat :=
  let segments := Split ipPart ":" in
  if Contains ipPart "::" then S (nonEmptyCount segments) else length segments.

Definition segmentOk (segment : string) : bool :=
  (String.length segment <=? 4)%nat && allHex segment.

Definition cidrOk (suffix : string) : bool :=
  match Atoi suffix with
  | Some pl => ((0 <=? pl) && (pl <=? 128))%Z
  | None => false
  end.

(** Structural validity as the specification words it: a separator, at most
    one compressed-zero marker, at most 8 groups of at most 4 hexadecimal
    characters, and a CIDR suffix in 0..128 when there is one. *)
Definition specValid (addr : string) : bool :=
  let ipPart := addressBody addr in
  match afterFirst "/" addr with
  | None => true
  | Some suffix => cidrOk suffix
  end
  && Contains ipPart ":"
  && (doubleColons ipPart <=? 1)%nat
  && (resolvedSegments ipPart <=? 8)%nat
  && forallb segmentOk (Split ipPart ":").

(** Structural validity as the code decides it: with a compressed-zero
    marker at most 7 non-empty segments, without one exactly 8 segments. *)
Definition validFormat (ipPart : string) : Prop :=
  Contains ipPart ":" = true
  /\ Contains ipPart ":::" = false
  /\ (Count ipPart "::" <= 1)%nat
  /\ (if Contains ipPart "::"
      then (nonEmptyCount (Split ipPart ":") <= 7)%nat
      else length (Split ipPart ":") = 8%nat)
  /\ Forall (fun segment => (String.length segment <= 4)%nat /\ allHex segment = true)
            (Split ipPart ":").

Definition validAmended (addr : string) : Prop :=
  match afterFirst "/" addr with
  | None => True
  | Some suffix =>
      countByte "/" suffix = 0%nat
      /\ exists pl, Atoi suffix = Some pl /\ (0 <= pl <= 128)%Z
  end
  /\ validFormat (addressBody addr).

(** The rules one mapping pair stands for. *)
Definition pairRules (n : Netmap6) (interfaceName : string) (mapping : MapPair)
    : list string :=
  if isEmpty (Public mapping) || isEmpty (Private mapping) then []
  else
    [ postroutingRule interfaceName
        (SimpleConcatAddress (Private mapping) (PfxPriv n))
        (SimpleConcatAddress (Public mapping) (PfxPub n));
      preroutingRule interfaceName
        (SimpleConcatAddress (Public mapping) (PfxPub n))
        (SimpleConcatAddress (Private mapping) (PfxPriv n)) ].

Definition complete (mapping : MapPair) : bool :=
  negb (isEmpty (Public mapping)) && negb (isEmpty (Private mapping)).

Definition withMaps (n : Netmap6) (maps : list MapPair) : Netmap6 :=
  {| Name := Name n; Enabled := Enabled n; PfxPub := PfxPub n;
     PfxPriv := PfxPriv n; Maps := maps |}.

(** *** Building a mapping set from its configuration (lines 48-104) *)

Section New.
(** [toInt] stands for the conversion [int(l)] of a [float64]. *)
Context {Float64 : Type} (toInt : Float64 -> Z).

(** The type assertions [v.(string)], and [v.(int)] followed by
    [v.(float64)], with the value that is kept when they fail. *)
Definition stringOr (fallback : string) (v : config.value Float64) : string :=
  match v with
  | config.VString s => s
  | _ => fallback
  end.

Definition intOr (fallback : Z) (v : config.value Float64) : Z :=
  match v with
  | config.VInt l => l
  | config.VFloat64 l => toInt l
  | _ => fallback
  end.

Definition noPair : MapPair := {| Public := ""; Private := ""; Radv := None |}.

(** The body of the loop for an entry of at least two elements. *)
Definition newPair (elements : list (config.value Float64)) : MapPair :=
  let public := stringOr "" (nth 0 elements config.VOther) in
  let private := stringOr "" (nth 1 elements config.VOther) in
  if (4 <=? length elements)%nat
  then
    let preference := stringOr "medium" (nth 2 elements config.VOther) in
    let lifetime := intOr 3600 (nth 3 elements config.VOther) in
    {| Public := public; Private := private;
       Radv := Some {| Preference := preference; Metric := 0;
                       Lifetime := lifetime; Prefix := "" |} |}
  else {| Public := public; Private := private; Radv := None |}.

(** The loop [for i, mapPair := range cfg.Maps], entered at index [i] with
    the slice [maps]: a short entry leaves [maps[i]] as it is. *)
Fixpoint fillMaps (i : nat) (cfgMaps : list (config.MapPair Float64))
    (maps : list MapPair) : list MapPair :=
  match cfgMaps with
  | [] => maps
  | mapPair :: rest =>
      if (length (config.Pair mapPair) <? 2)%nat
      then fillMaps (S i) rest maps
      else fillMaps (S i) rest (<[i := newPair (config.Pair mapPair)]> maps)
  end.

Definition NewNetmap6 (name : string) (cfg : config.Netmap6Config Float64) : Netmap6 :=
  {| Name := name;
     Enabled := config.Enabled cfg;
     PfxPub := config.PfxPub cfg;
     PfxPriv := config.PfxPriv cfg;
     Maps := fillMaps 0 (config.Maps cfg)
               (replicate (length (config.Maps cfg)) noPair) |}.

(** The rules that an entry of the configuration stands for: two, when its
    first two elements are non-empty strings. *)
Definition entryRules (cfg : config.Netmap6Config Float64) (interfaceName : string)
    (mapPair : config.MapPair Float64) : list string :=
  match config.Pair mapPair with
  | config.VString public :: config.VString private :: _ =>
      if isEmpty public || isEmpty private then []
      else
        [ postroutingRule interfaceName
            (SimpleConcatAddress private (config.PfxPriv cfg))
            (SimpleConcatAddress public (config.PfxPub cfg));
          preroutingRule interfaceName
            (SimpleConcatAddress public (config.PfxPub cfg))
            (SimpleConcatAddress private (config.PfxPriv cfg)) ]
  | _ => []
  end.

(** The route settings of an entry: present from four elements on. *)
Definition entryAnnounced (mapPair : config.MapPair Float64) : bool :=
  (4 <=? length (config.Pair mapPair))%nat.

End New.

End netmap6.

(** ** Package configmaker (src/worker/config-maker/main.go) *)

Module configmaker.

Record NetmapMapping := {
  Public : string;
  Private : string
}.

(** The address with its CIDR notation removed, as both loops of
    [findCommonIPv6Prefix] compute it. *)
Definition cleanAddr (addr : string) : string :=
  if Contains addr "/" then nth 0 (Split addr "/") "" else addr.

(** The loop over [addresses] for one candidate: it stops at the first
    address that does not start with the candidate.  The result is the pair
    of flags [(allMatch, hasReduction)]. *)
Fixpoint checkAddresses (candidatePrefix : string) (addresses : list string)
    (hasReduction : bool) : bool * bool :=
  match addresses with
  | [] => (true, hasReduction)
  | addr :: rest =>
      let clean := cleanAddr addr in
      if negb (HasPrefix clean candidatePrefix) then (false, hasReduction)
      else
        let remaining := TrimPrefix clean candidatePrefix in
        let remaining := TrimPrefix remaining ":" in
        let hasReduction :=
          if (0 <? String.length remaining)%nat && negb (String.eqb remaining clean)
          then true else hasReduction in
        checkAddresses candidatePrefix rest hasReduction
  end.

Definition candidate (segments : list string) (prefixLen : nat) : string :=
  Join (take prefixLen segments) ":" +:+ ":".

(** The loop [for prefixLen := 3; prefixLen >= 1; prefixLen--], entered with
    [prefixLen]; the result is the final value of [commonPrefix]. *)
Fixpoint tryPrefixLen (prefixLen : nat) (segments addresses : list string) : string :=
  match prefixLen with
  | O => ""
  | S prefixLen' =>
      if (prefixLen <=? length segments)%nat
      then
        let candidatePrefix := candidate segments prefixLen in
        let '(allMatch, hasReduction) := checkAddresses candidatePrefix addresses false in
        if allMatch && hasReduction then candidatePrefix
        else tryPrefixLen prefixLen' segments addresses
      else tryPrefixLen prefixLen' segments addresses
  end.

Definition findCommonIPv6Prefix (mappings : list NetmapMapping) (isPublic : bool) : string :=
  match mappings with
  | [] => ""
  | _ =>
      let addresses :=
        foldl (fun addresses mapping =>
                 addresses ++ [if isPublic then Public mapping else Private mapping])
              [] mappings in
      match addresses with
      | [] => ""
      | firstAddr :: _ =>
          let firstAddr := cleanAddr firstAddr in
          let segments := Split firstAddr ":" in
          tryPrefixLen 3 segments addresses
      end
  end.

Definition removePrefix (address prefix : string) : string :=
  if isEmpty prefix || negb (HasPrefix address prefix) then address
  else TrimPrefix (TrimPrefix address prefix) ":".

(** *** Matching mappings with announced routes (lines 558-582) *)

Module radvd.
Record RadvdRoute := {
  Prefix : string;
  Preference : string;
  Lifetime : Z
}.
End radvd.

Module withRadv.
Record NetmapMappingWithRadv := {
  Public : string;
  Private : string;
  HasRadv : bool;
  RadvPreference : string;
  RadvLifetime : Z
}.
End withRadv.

(** The inner loop over [routes], which stops at the first route whose
    prefix is the public address of the mapping. *)
Fixpoint matchRoute (mappingWithRadv : withRadv.NetmapMappingWithRadv)
    (public : string) (routes : list radvd.RadvdRoute)
    : withRadv.NetmapMappingWithRadv :=
  match routes with
  | [] => mappingWithRadv
  | route :: rest =>
      if String.eqb (radvd.Prefix route) public
      then {| withRadv.Public := withRadv.Public mappingWithRadv;
              withRadv.Private := withRadv.Private mappingWithRadv;
              withRadv.HasRadv := true;
              withRadv.RadvPreference := radvd.Preference route;
              withRadv.RadvLifetime := radvd.Lifetime route |}
      else matchRoute mappingWithRadv public rest
  end.

Definition correlateNetmapWithRadvRoutes (mappings : list NetmapMapping)
    (routes : list radvd.RadvdRoute) : list withRadv.NetmapMappingWithRadv :=
  foldl (fun result mapping =>
           let mappingWithRadv :=
             {| withRadv.Public := Public mapping;
                withRadv.Private := Private mapping;
                withRadv.HasRadv := false;
                withRadv.RadvPreference := "";
                withRadv.RadvLifetime := 0 |} in
           result ++ [matchRoute mappingWithRadv (Public mapping) routes])
        [] mappings.

(** *** The words of the specification *)

Definition addressesOf (mappings : list NetmapMapping) (isPublic : bool) : list string :=
  map (fun mapping => if isPublic then Public mapping else Private mapping) mappings.

(** Stripping the candidate shortens the address and leaves something. *)
Definition reduces (candidatePrefix addr : string) : Prop :=
  let remaining := removePrefix (cleanAddr addr) candidatePrefix in
  (0 < String.length remaining < String.length (cleanAddr addr))%nat.

(** A candidate is accepted when every address starts with it and stripping
    it shortens at least one address to a non-empty remainder. *)
Definition accepted (candidatePrefix : string) (addresses : list string) : Prop :=
  (forall addr, In addr addresses -> HasPrefix (cleanAddr addr) candidatePrefix = true)
  /\ (exists addr, In addr addresses /\ reduces candidatePrefix addr).

(** The candidate of [k] segments, taken from the first address. *)
Definition candidateOf (addresses : list string) (k : nat) : option string :=
  match addresses with
  | [] => None
  | first :: _ =>
      let segments := Split (cleanAddr first) ":" in
      if (k <=? length segments)%nat then Some (candidate segments k) else None
  end.

(** The test the loop makes on one address, once it starts with the
    candidate. *)
Definition reducesb (candidatePrefix addr : string) : bool :=
  let clean := cleanAddr addr in
  let remaining := TrimPrefix (TrimPrefix clean candidatePrefix) ":" in
  (0 <? String.length remaining)%nat && negb (String.eqb remaining clean).

End configmaker.

(** ** Running external commands

    [exec.Command(name, args...).CombinedOutput()] acts on the host: the
    host is a state of an arbitrary type [World], and running a command
    with an argument vector yields the next state, the combined output and
    the error, if any.  A run is observed through its trace: the commands
    invoked, each with its outcome, and the lines printed on standard
    output, in order. *)

Module osexec.

Inductive event :=
| Run (argv : list string) (output : string) (err : option string)
| Stdout (text : string).

Record state (World : Type) := {
  world : World;
  trace : list event
}.
Arguments world {World} _.
Arguments trace {World} _.

Definition CombinedOutputFn (World : Type) : Type :=
  list string -> World -> World * string * option string.

Definition Printf {World : Type} (text : string) (st : state World) : state World :=
  {| world := world st; trace := trace st ++ [Stdout text] |}.

(** Running a command whose output the caller reads: the invocation is
    recorded in the trace. *)
Definition invoke {World : Type} (runner : CombinedOutputFn World) (argv : list string)
    (st : state World) : state World * string * option string :=
  let '(w, output, err) := runner argv (world st) in
  ({| world := w; trace := trace st ++ [Run argv output err] |}, output, err).

(** What a function that returns [error] did: returned, or panicked. *)
Inductive outcome :=
| Returned (err : option string)
| Panicked.

Definition newline : string := String (ascii_of_nat 10) EmptyString.

Definition isRun (e : event) : bool :=
  match e with Run _ _ _ => true | Stdout _ => false end.

(** A command that was run and returned an error. *)
Definition failedRun (e : event) : bool :=
  match e with Run _ _ (Some _) => true | _ => false end.

Definition argvOf (e : event) : list string :=
  match e with Run argv _ _ => argv | Stdout _ => [] end.

(** The argument vectors of the commands invoked, in order. *)
Definition invocations (tr : list event) : list (list string) :=
  map argvOf (List.filter isRun tr).

Definition printed (tr : list event) : list string :=
  flat_map (fun e => match e with Stdout text => [text] | Run _ _ _ => [] end) tr.

(** One call of [executeIp6tablesRule] or [executeIptablesRule] on [rule]:
    the events it adds to the trace and the error it returns.  A rule with
    no field is refused before any command is run. *)
Inductive executed (rule : string) : list event -> option string -> Prop :=
| executed_empty :
    Fields rule = [] -> executed rule [] (Some "empty rule")
| executed_ok output :
    Fields rule <> [] -> executed rule [Run (Fields rule) output None] None
| executed_failed output e :
    Fields rule <> [] ->
    executed rule [Run (Fields rule) output (Some e)]
      (Some ("command failed: " +:+ e +:+ ", output: " +:+ output)).

(** Membership of a key in a list of keys. *)
Definition keyIn (k : string) (keys : list string) : bool :=
  existsb (String.eqb k) keys.

(** The argument vectors a list of rules is executed with: a rule without
    fields is refused before any command is run. *)
Definition argvs (rules : list string) : list (list string) :=
  flat_map (fun rule => match Fields rule with [] => [] | argv => [argv] end) rules.

(** A string without its last byte. *)
Fixpoint removeLast (s : string) : string :=
  match s with
  | EmptyString => EmptyString
  | String _ EmptyString => EmptyString
  | String c s' => String c (removeLast s')
  end.

(** [rule] with its first ["-A "] replaced by ["-D "]: either [rule] has no
    ["-A "] and is unchanged, or the text before the replaced occurrence
    leaves no room for an earlier one. *)
Definition firstAppendRewritten (rule rewritten : string) : Prop :=
  (Contains rule "-A " = false /\ rewritten = rule)
  \/ (exists before after,
        rule = before +:+ "-A " +:+ after
        /\ rewritten = before +:+ "-D " +:+ after
        /\ Contains (before +:+ "-A") "-A " = false).

End osexec.

Import osexec.

(** ** Packages radv and link (src/link/radv/main.go)

    Of [radv.RadvConfig] and [link.Link] the fields that the embedded
    functions read or write are kept.  A Go map that is ranged over is the
    list of its entries in the order of that iteration. *)

Module radv.

Record RouteConfig := {
  Prefix : string;
  Preference : string;
  Metric : Z;
  Lifetime : Z
}.

Record RadvConfig := {
  Routes : list RouteConfig;
  AutoRoutes : list RouteConfig
}.

End radv.

Module link.

Module nat66.
Record Nat66 := {
  Enabled : bool;
  MssClamping : bool;
  Mss : Z;
  Origins : list string
}.
End nat66.

Module nat44.
Record Nat44 := {
  Enabled : bool;
  MssClamping : bool;
  Mss : Z;
  Origins : list string
}.
End nat44.

Record Link := {
  Name : string;
  Netmap6 : list (string * netmap6.Netmap6);
  Nat66 : option nat66.Nat66;
  Nat44 : option nat44.Nat44;
  Radv : option radv.RadvConfig
}.

Definition toRouteConfig (route : netmap6.RadvRoute) : radv.RouteConfig :=
  {| radv.Prefix := netmap6.Prefix route;
     radv.Preference := netmap6.Preference route;
     radv.Metric := netmap6.Metric route;
     radv.Lifetime := netmap6.Lifetime route |}.

(** The loop over [l.Netmap6] of [generateAutoRoutes]. *)
Definition collectStep (autoRoutes : list radv.RouteConfig)
    (entry : string * netmap6.Netmap6) : list radv.RouteConfig :=
  let netmap := snd entry in
  if negb (netmap6.Enabled netmap) then autoRoutes
  else foldl (fun autoRoutes route => autoRoutes ++ [toRouteConfig route])
             autoRoutes (netmap6.GetRadvRoutes netmap).

(** The inner loop over the manual routes, which stops at the first one
    with the prefix. *)
Fixpoint isDuplicate (prefix : string) (manualRoutes : list radv.RouteConfig) : bool :=
  match manualRoutes with
  | [] => false
  | manualRoute :: rest =>
      if String.eqb prefix (radv.Prefix manualRoute) then true
      else isDuplicate prefix rest
  end.

Definition filterStep (manualRoutes filtered : list radv.RouteConfig)
    (autoRoute : radv.RouteConfig) : list radv.RouteConfig :=
  if negb (isDuplicate (radv.Prefix autoRoute) manualRoutes)
  then filtered ++ [autoRoute] else filtered.

(** The method updates [l.Radv.AutoRoutes] in place; the result is the link
    after the call. *)
Definition generateAutoRoutes (l : Link) : Link :=
  match Radv l with
  | None => l
  | Some r =>
      let autoRoutes := foldl collectStep [] (Netmap6 l) in
      let filteredAutoRoutes := foldl (filterStep (radv.Routes r)) [] autoRoutes in
      {| Name := Name l; Netmap6 := Netmap6 l; Nat66 := Nat66 l; Nat44 := Nat44 l;
         Radv := Some {| radv.Routes := radv.Routes r;
                         radv.AutoRoutes := filteredAutoRoutes |} |}
  end.

End link.

(** ** Package netmapmanager (src/unnamed/part_002)

    [DebugPrint] is left out, except that evaluating its arguments can
    panic (see [smartLoop]).  With the debug flag set the program writes
    further lines, prefixed "[NETMAP-DEBUG]", which no trace here holds: a
    trace holds the commands that are run and the lines written outside
    [DebugPrint], and the statements on traces are about commands, warnings
    and errors. *)

Module netmapmanager.

Record ruleFields := {
  chain : string;
  iface : string;
  direction : string;
  source : string;
  dest : string;
  target : string;
  toAddr : string
}.

Definition noFields : ruleFields :=
  {| chain := ""; iface := ""; direction := ""; source := ""; dest := "";
     target := ""; toAddr := "" |}.

(** The body of the loop over [parts]: [part] is [parts[i]] and [rest] is
    [parts[i+1:]], so [i+1 < len(parts)] holds when [rest] has a head. *)
Definition parseStep (part : string) (rest : list string) (f : ruleFields) : ruleFields :=
  match rest with
  | [] => f
  | next :: _ =>
      if String.eqb part "-A" then
        {| chain := next; iface := iface f; direction := direction f;
           source := source f; dest := dest f; target := target f; toAddr := toAddr f |}
      else if String.eqb part "-i" then
        {| chain := chain f; iface := next; direction := "input";
           source := source f; dest := dest f; target := target f; toAddr := toAddr f |}
      else if String.eqb part "-o" then
        {| chain := chain f; iface := next; direction := "output";
           source := source f; dest := dest f; target := target f; toAddr := toAddr f |}
      else if String.eqb part "-s" then
        {| chain := chain f; iface := iface f; direction := direction f;
           source := next; dest := dest f; target := target f; toAddr := toAddr f |}
      else if String.eqb part "-d" then
        {| chain := chain f; iface := iface f; direction := direction f;
           source := source f; dest := next; target := target f; toAddr := toAddr f |}
      else if String.eqb part "-j" then
        {| chain := chain f; iface := iface f; direction := direction f;
           source := source f; dest := dest f; target := next; toAddr := toAddr f |}
      else if String.eqb part "--to" then
        {| chain := chain f; iface := iface f; direction := direction f;
           source := source f; dest := dest f; target := target f; toAddr := next |}
      else f
  end.

Fixpoint parseParts (parts : list string) (f : ruleFields) : ruleFields :=
  match parts with
  | [] => f
  | part :: rest => parseParts rest (parseStep part rest f)
  end.

(** The fields [normalizeRule] extracts from a rule. *)
Definition parseRule (rule : string) : ruleFields :=
  parseParts (Fields rule) noFields.

Definition formatKey (f : ruleFields) : string :=
  ToLower (chain f) +:+ "|" +:+ direction f +:+ "|" +:+ iface f +:+ "|" +:+ source f
    +:+ "|" +:+ dest f +:+ "|" +:+ ToLower (target f) +:+ "|" +:+ toAddr f.

Definition normalizeRule (rule : string) : string :=
  let parts := Fields rule in
  if (length parts <? 6)%nat then rule
  else formatKey (parseParts parts noFields).

Definition normalizeRules (rules : list string) : list string :=
  foldl (fun normalized rule => normalized ++ [normalizeRule rule]) [] rules.

Definition makeSet (items : list string) : gmap string bool :=
  foldl (fun normalizedSet item => insert item true normalizedSet) empty items.

Definition member (normalizedSet : gmap string bool) (item : string) : bool :=
  default false (lookup item normalizedSet).

(** The second loop of [smartDifference], at index [i].  In the branch of a
    key that is found, the argument [originalSlice1[i]] of [DebugPrint] is
    evaluated: out of range it panics ([None]). *)
Fixpoint smartLoop (normalizedSet : gmap string bool) (originalSlice1 : list string)
    (i : nat) (normalizedSlice1 : list string) (result : list string)
    : option (list string) :=
  match normalizedSlice1 with
  | [] => Some result
  | item :: rest =>
      if negb (member normalizedSet item)
      then
        let result :=
          match lookup i originalSlice1 with
          | Some original => result ++ [original]
          | None => result
          end in
        smartLoop normalizedSet originalSlice1 (S i) rest result
      else
        match lookup i originalSlice1 with
        | Some _ => smartLoop normalizedSet originalSlice1 (S i) rest result
        | None => None
        end
  end.

(** The second parameter of the Go function is unnamed and unused. *)
Definition smartDifference (originalSlice1 _unused normalizedSlice1 normalizedSlice2 : list string)
    : option (list string) :=
  smartLoop (makeSet normalizedSlice2) originalSlice1 0 normalizedSlice1 [].

Definition toDelete (rule : string) : string := Replace rule "-A " "-D " 1.

Section Apply.
Context {World : Type} (CombinedOutput : CombinedOutputFn World).

Definition executeIp6tablesRule (rule : string) (st : state World)
    : state World * option string :=
  match Fields rule with
  | [] => (st, Some "empty rule")
  | parts =>
      let '(w, output, err) := CombinedOutput parts (world st) in
      let st' := {| world := w; trace := trace st ++ [Run parts output err] |} in
      match err with
      | Some e => (st', Some ("command failed: " +:+ e +:+ ", output: " +:+ output))
      | None => (st', None)
      end
  end.

Definition removeWarning (removeRule e : string) : string :=
  "Warning: failed to remove rule " +:+ removeRule +:+ ": " +:+ e +:+ newline.

(** The loop "Remove old rules". *)
Fixpoint removeRules (rulesToRemove : list string) (st : state World) : state World :=
  match rulesToRemove with
  | [] => st
  | rule :: rest =>
      let removeRule := toDelete rule in
      let '(st, err) := executeIp6tablesRule removeRule st in
      let st :=
        match err with
        | Some e => Printf (removeWarning removeRule e) st
        | None => st
        end in
      removeRules rest st
  end.

(** The loop "Add new rules"; [failedRules] is the slice built so far. *)
Fixpoint addRules (rulesToAdd : list string) (failedRules : list string)
    (st : state World) : state World * list string :=
  match rulesToAdd with
  | [] => (st, failedRules)
  | rule :: rest =>
      let '(st, err) := executeIp6tablesRule rule st in
      match err with
      | Some e =>
          let st := Printf ("Error: Failed to add netmap rule: " +:+ rule +:+ newline) st in
          let st := Printf ("  Error details: " +:+ e +:+ newline) st in
          addRules rest (failedRules ++ [rule]) st
      | None => addRules rest failedRules st
      end
  end.

Definition aggregateError (failed total : nat) : string :=
  "failed to add " +:+ itoa failed +:+ " netmap rules out of " +:+ itoa total
    +:+ " total rules".

(** [ApplyNetmapRules] from line 102 on: [currentRules] is what
    [getCurrentNetmapRules] returned and [newRules] what the loop over the
    links generated.  What the function does before that point (the scan,
    the generation, and the fallback commands it runs for an enabled set
    that yields no rule) has happened in [st]. *)
Definition ApplyNetmapRules (currentRules newRules : list string) (st : state World)
    : state World * outcome :=
  if (length newRules =? 0)%nat
  then (Printf ("No valid netmap rules to apply - check your configuration and debug logs"
                  +:+ newline) st,
        Returned None)
  else
    let normalizedCurrent := normalizeRules currentRules in
    let normalizedNew := normalizeRules newRules in
    match smartDifference newRules currentRules normalizedNew normalizedCurrent with
    | None => (st, Panicked)
    | Some rulesToAdd =>
        match smartDifference currentRules newRules normalizedCurrent normalizedNew with
        | None => (st, Panicked)
        | Some rulesToRemove =>
            let st := removeRules rulesToRemove st in
            let '(st, failedRules) := addRules rulesToAdd [] st in
            if (0 <? length failedRules)%nat
            then (st, Returned (Some (aggregateError (length failedRules)
                                                     (length rulesToAdd))))
            else (st, Returned None)
        end
    end.

End Apply.

(** *** The words of the specification *)

(** The rules of [rules] whose key is not a key of [others]. *)
Definition missingFrom (rules others : list string) : list string :=
  List.filter (fun r => negb (keyIn (normalizeRule r) (map normalizeRule others))) rules.

(** The address the specification calls relevant: the destination of an
    inbound rule, the source of an outbound rule. *)
Definition relevantAddress (f : ruleFields) : string :=
  if String.eqb (direction f) "input" then dest f
  else if String.eqb (direction f) "output" then source f
  else "".

(** The tuple the specification builds the key from. *)
Definition specTuple (rule : string)
    : string * string * string * string * string * string :=
  let f := parseRule rule in
  (ToLower (chain f), direction f, iface f, relevantAddress f,
   ToLower (target f), toAddr f).

(** The field that follows the last occurrence of the option [opt] that
    has a successor among [parts], read off the fields from the right. *)
Fixpoint lastValue (opt : string) (parts : list string) : option string :=
  match parts with
  | [] => None
  | part :: rest =>
      match lastValue opt rest with
      | Some value => Some value
      | None => if String.eqb part opt then head rest else None
      end
  end.

Definition valueOf (opt : string) (parts : list string) : string :=
  default "" (lastValue opt parts).

(** The direction and the interface of a rule: those of the last ["-i"]
    (input) or ["-o"] (output) that has a successor. *)
Fixpoint lastInterface (parts : list string) : option (string * string) :=
  match parts with
  | [] => None
  | part :: rest =>
      match lastInterface rest with
      | Some found => Some found
      | None =>
          match head rest with
          | Some next =>
              if String.eqb part "-i" then Some ("input", next)
              else if String.eqb part "-o" then Some ("output", next)
              else None
          | None => None
          end
      end
  end.

Definition directionOf (parts : list string) : string :=
  match lastInterface parts with Some (direction, _) => direction | None => "" end.

Definition interfaceOf (parts : list string) : string :=
  match lastInterface parts with Some (_, name) => name | None => "" end.

(** The tuple of a rule's fields that the code builds the key from: chain
    and target are lower-cased. *)
Definition tokenTuple (parts : list string)
    : string * string * string * string * string * string * string :=
  (ToLower (valueOf "-A" parts), directionOf parts, interfaceOf parts,
   valueOf "-s" parts, valueOf "-d" parts, ToLower (valueOf "-j" parts),
   valueOf "--to" parts).

(** The seven components joined by bars. *)
Definition barred
    (t : string * string * string * string * string * string * string) : string :=
  let '(c, d, i, s, a, j, t) := t in
  c +:+ "|" +:+ d +:+ "|" +:+ i +:+ "|" +:+ s +:+ "|" +:+ a +:+ "|" +:+ j +:+ "|" +:+ t.

(** The trace of the removal loop over [rules]: every rule is executed with
    its append verb rewritten, and a failure adds a warning line. *)
Inductive removalTrace : list string -> list event -> Prop :=
| removal_nil : removalTrace [] []
| removal_ok rule rest ev tr :
    executed (toDelete rule) ev None ->
    removalTrace rest tr ->
    removalTrace (rule :: rest) (ev ++ tr)
| removal_warned rule rest ev e tr :
    executed (toDelete rule) ev (Some e) ->
    removalTrace rest tr ->
    removalTrace (rule :: rest)
      (ev ++ Stdout ("Warning: failed to remove rule " +:+ toDelete rule +:+ ": "
                       +:+ e +:+ newline) :: tr).

(** The trace of the addition loop over [rules] and the rules that failed:
    every rule is executed as it is, whatever happened to the earlier ones. *)
Inductive additionTrace : list string -> list event -> list string -> Prop :=
| addition_nil : additionTrace [] [] []
| addition_ok rule rest ev tr failed :
    executed rule ev None ->
    additionTrace rest tr failed ->
    additionTrace (rule :: rest) (ev ++ tr) failed
| addition_failed rule rest ev e tr failed :
    executed rule ev (Some e) ->
    additionTrace rest tr failed ->
    additionTrace (rule :: rest)
      (ev ++ Stdout ("Error: Failed to add netmap rule: " +:+ rule +:+ newline)
          :: Stdout ("  Error details: " +:+ e +:+ newline) :: tr)
      (rule :: failed).

(** *** Reading the rule table back (lines 278-483) *)

Record formatFields := {
  fmtIface : string;
  fmtDirection : string;
  fmtSource : string;
  fmtDest : string;
  fmtToAddr : string;
  fmtIsInput : bool
}.

Definition noFormatFields : formatFields :=
  {| fmtIface := ""; fmtDirection := ""; fmtSource := ""; fmtDest := "";
     fmtToAddr := ""; fmtIsInput := false |}.

(** The loop [for i := 2; i < len(parts); i++] of [normalizeRuleFormat] on
    [parts[i:]]: a flag that has a value consumes it ([i++] in the case). *)
Fixpoint formatLoop (parts : list string) (f : formatFields) : formatFields :=
  match parts with
  | [] => f
  | part :: rest =>
      match rest with
      | [] => f
      | next :: rest' =>
          if String.eqb part "-i" then
            formatLoop rest'
              {| fmtIface := next; fmtDirection := "-i"; fmtSource := fmtSource f;
                 fmtDest := fmtDest f; fmtToAddr := fmtToAddr f; fmtIsInput := true |}
          else if String.eqb part "-o" then
            formatLoop rest'
              {| fmtIface := next; fmtDirection := "-o"; fmtSource := fmtSource f;
                 fmtDest := fmtDest f; fmtToAddr := fmtToAddr f; fmtIsInput := false |}
          else if String.eqb part "-s" then
            formatLoop rest'
              {| fmtIface := fmtIface f; fmtDirection := fmtDirection f; fmtSource := next;
                 fmtDest := fmtDest f; fmtToAddr := fmtToAddr f;
                 fmtIsInput := fmtIsInput f |}
          else if String.eqb part "-d" then
            formatLoop rest'
              {| fmtIface := fmtIface f; fmtDirection := fmtDirection f;
                 fmtSource := fmtSource f; fmtDest := next; fmtToAddr := fmtToAddr f;
                 fmtIsInput := fmtIsInput f |}
          else if String.eqb part "--to" then
            formatLoop rest'
              {| fmtIface := fmtIface f; fmtDirection := fmtDirection f;
                 fmtSource := fmtSource f; fmtDest := fmtDest f; fmtToAddr := next;
                 fmtIsInput := fmtIsInput f |}
          else formatLoop rest f
      end
  end.

(** The text the [strings.Builder] of [normalizeRuleFormat] holds at the
    end. *)
Definition buildRule (chain : string) (f : formatFields) : string :=
  "ip6tables -t nat -A " +:+ chain
  +:+ (if negb (isEmpty (fmtDirection f)) && negb (isEmpty (fmtIface f))
       then " " +:+ fmtDirection f +:+ " " +:+ fmtIface f else "")
  +:+ (if fmtIsInput f && negb (isEmpty (fmtDest f)) then " -d " +:+ fmtDest f
       else if negb (fmtIsInput f) && negb (isEmpty (fmtSource f))
            then " -s " +:+ fmtSource f else "")
  +:+ " -j NETMAP"
  +:+ (if negb (isEmpty (fmtToAddr f)) then " --to " +:+ fmtToAddr f else "").

Definition normalizeRuleFormat (line : string) : string :=
  let parts := Fields line in
  if (length parts <? 2)%nat then ""
  else
    let chain := nth 1 parts "" in
    buildRule chain (formatLoop (drop 2 parts) noFormatFields).

(** The body of the loop over the lines of the [-S] listing. *)
Definition savesStep (rules : list string) (line : string) : list string :=
  let line := TrimSpace line in
  if Contains line "NETMAP" && HasPrefix line "-A "
  then
    let rule := normalizeRuleFormat line in
    if negb (isEmpty rule) then rules ++ [rule] else rules
  else rules.

Definition parseNetmapRulesFromSaves (output : string) : list string :=
  foldl savesStep [] (Split output newline).

(** The loop that looks for the first field with the prefix ["to:"]. *)
Fixpoint findToAddress (fields : list string) : string :=
  match fields with
  | [] => ""
  | field :: rest =>
      if HasPrefix field "to:" then TrimPrefix field "to:" else findToAddress rest
  end.

Definition unsetInterface (name : string) : bool :=
  isEmpty name || String.eqb name "any" || String.eqb name "*" || String.eqb name "--".

Definition unsetAddress (address : string) : bool :=
  isEmpty address || String.eqb address "anywhere" || String.eqb address "0.0.0.0/0"
  || String.eqb address "::/0".

Definition parseNetmapRuleFromListLine (line chain : string) : string :=
  let fields := Fields line in
  if (length fields <? 9)%nat then ""
  else if negb (String.eqb (nth 2 fields "") "NETMAP") then ""
  else
    let protocol := nth 3 fields "" in
    let inInterface := nth 5 fields "" in
    let outInterface := nth 6 fields "" in
    let source := nth 7 fields "" in
    let destination := nth 8 fields "" in
    let toAddress := findToAddress (drop 9 fields) in
    "ip6tables -t nat -A " +:+ chain
    +:+ (if negb (isEmpty protocol) && negb (String.eqb protocol "all")
            && negb (String.eqb protocol "--")
         then " -p " +:+ protocol else "")
    +:+ (if String.eqb chain "PREROUTING" && negb (unsetInterface inInterface)
         then " -i " +:+ inInterface else "")
    +:+ (if String.eqb chain "POSTROUTING" && negb (unsetInterface outInterface)
         then " -o " +:+ outInterface else "")
    +:+ (if negb (unsetAddress source) then " -s " +:+ source else "")
    +:+ (if negb (unsetAddress destination) then " -d " +:+ destination else "")
    +:+ " -j NETMAP"
    +:+ (if negb (isEmpty toAddress) then " --to " +:+ toAddress else "").

(** The body of the loop over the lines of the [-L -n] listing: the state
    is the chain of the last header and the rules so far. *)
Definition listStep (acc : string * list string) (line : string) : string * list string :=
  let '(currentChain, rules) := acc in
  let line := TrimSpace line in
  if HasPrefix line "Chain "
  then
    let parts := Fields line in
    if (2 <=? length parts)%nat then (nth 1 parts "", rules) else (currentChain, rules)
  else if isEmpty line || Contains line "pkts bytes target" then (currentChain, rules)
  else if Contains line "NETMAP"
  then
    let rule := parseNetmapRuleFromListLine line currentChain in
    if negb (isEmpty rule) then (currentChain, rules ++ [rule]) else (currentChain, rules)
  else (currentChain, rules).

Definition parseNetmapRulesFromList (output : string) : list string :=
  snd (foldl listStep ("", []) (Split output newline)).

(** *** Notions for the statements about the scanner *)

(** The fields of a built rule after its chain. *)
Definition builtOptions (f : formatFields) : list string :=
  (if negb (isEmpty (fmtDirection f)) && negb (isEmpty (fmtIface f))
   then [fmtDirection f; fmtIface f] else [])
  ++ (if fmtIsInput f && negb (isEmpty (fmtDest f)) then ["-d"; fmtDest f]
      else if negb (fmtIsInput f) && negb (isEmpty (fmtSource f))
           then ["-s"; fmtSource f] else [])
  ++ ["-j"; "NETMAP"]
  ++ (if negb (isEmpty (fmtToAddr f)) then ["--to"; fmtToAddr f] else []).

(** The rules the [-S] scanner has collected come from lines of the
    listing. *)
Definition scannedFrom (lines : list string) (rule : string) : Prop :=
  rule <> ""
  /\ exists line, In line lines
       /\ Contains (TrimSpace line) "NETMAP" = true
       /\ HasPrefix (TrimSpace line) "-A " = true
       /\ rule = normalizeRuleFormat (TrimSpace line).

(** [" " ++ tok] for every field, concatenated. *)
Fixpoint spaced (toks : list string) : string :=
  match toks with
  | [] => ""
  | tok :: rest => " " +:+ tok +:+ spaced rest
  end.

(** Every string the loop has stored is free of white space. *)
Definition cleanFormat (f : formatFields) : Prop :=
  noSpace (fmtIface f) = true /\ noSpace (fmtDirection f) = true
  /\ noSpace (fmtSource f) = true /\ noSpace (fmtDest f) = true
  /\ noSpace (fmtToAddr f) = true.

(** *** The scan and the generation that precede the reconciliation
    (lines 35-101, 257-276) *)

Section Links.
(** [Output] stands for [cmd.Output()] and [CombinedOutput] for
    [cmd.CombinedOutput()]. *)
Context {World : Type} (Output CombinedOutput : CombinedOutputFn World).

Definition getCurrentNetmapRules (st : state World)
    : state World * list string * option string :=
  let '(st, output, err) := invoke Output ["ip6tables"; "-t"; "nat"; "-S"] st in
  let rules :=
    match err with
    | None => parseNetmapRulesFromSaves output
    | Some _ => []
    end in
  if (0 <? length rules)%nat then (st, rules, None)
  else
    let '(st, output, err) := invoke Output ["ip6tables"; "-t"; "nat"; "-L"; "-n"] st in
    match err with
    | Some e => (st, [], Some e)
    | None => (st, parseNetmapRulesFromList output, None)
    end.

(** One attempt of the fallback: the announcement, the command, and the
    line on its result. *)
Definition tryDirectRule (rule : string) (st : state World) : state World :=
  let st := Printf ("Trying fallback direct rule: " +:+ rule +:+ newline) st in
  let '(st, err) := executeIp6tablesRule CombinedOutput rule st in
  match err with
  | Some e => Printf ("Error: Failed to add direct rule: " +:+ e +:+ newline) st
  | None => Printf ("Successfully added direct rule" +:+ newline) st
  end.

(** The body of the loop "Try a direct rule creation as a fallback". *)
Definition fallbackStep (netmap : netmap6.Netmap6) (linkName : string)
    (st : state World) (mapping : netmap6.MapPair) : state World :=
  let publicAddr :=
    netmap6.SimpleConcatAddress (netmap6.Public mapping) (netmap6.PfxPub netmap) in
  let privateAddr :=
    netmap6.SimpleConcatAddress (netmap6.Private mapping) (netmap6.PfxPriv netmap) in
  let postrouting :=
    "ip6tables -t nat -A POSTROUTING -o " +:+ linkName +:+ " -s " +:+ privateAddr
      +:+ " -j NETMAP --to " +:+ publicAddr in
  let prerouting :=
    "ip6tables -t nat -A PREROUTING -i " +:+ linkName +:+ " -d " +:+ publicAddr
      +:+ " -j NETMAP --to " +:+ privateAddr in
  let st := tryDirectRule postrouting st in
  tryDirectRule prerouting st.

(** The body of the loop over the mapping sets of a link. *)
Definition generateStep (linkName : string) (acc : state World * list string)
    (entry : string * netmap6.Netmap6) : state World * list string :=
  let '(st, newRules) := acc in
  let netmapName := fst entry in
  let netmap := snd entry in
  let rules := netmap6.GenerateIp6tablesRules netmap linkName in
  let st :=
    if (length rules =? 0)%nat && netmap6.Enabled netmap
       && (0 <? length (netmap6.Maps netmap))%nat
    then
      let st :=
        Printf ("Warning: No valid netmap rules generated for enabled netmap "
                  +:+ netmapName +:+ " on interface " +:+ linkName +:+ newline) st in
      foldl (fallbackStep netmap linkName) st (netmap6.Maps netmap)
    else st in
  (st, newRules ++ rules).

Definition generateRules (links : list (string * link.Link)) (st : state World)
    : state World * list string :=
  foldl (fun acc entry =>
           foldl (generateStep (fst entry)) acc (link.Netmap6 (snd entry)))
        (st, []) links.

(** The whole of [ApplyNetmapRules(links)]: the scan, the generation, and
    the reconciliation [ApplyNetmapRules] of the two lists. *)
Definition ApplyNetmapRulesOfLinks (links : list (string * link.Link)) (st : state World)
    : state World * outcome :=
  let '(st, currentRules, err) := getCurrentNetmapRules st in
  match err with
  | Some e => (st, Returned (Some ("failed to get current rules: " +:+ e)))
  | None =>
      let '(st, newRules) := generateRules links st in
      ApplyNetmapRules CombinedOutput currentRules newRules st
  end.

End Links.

(** *** Notions for the statement about a settled host *)

(** For a mapping set on a link: the interface and the expanded private and
    public address of every pair that [GenerateIp6tablesRules] compiles. *)
Definition compiledPairs (linkName : string) (netmap : netmap6.Netmap6)
    : list (string * string * string) :=
  if netmap6.Enabled netmap && negb (isEmpty linkName)
  then
    flat_map
      (fun mapping =>
         if netmap6.complete mapping
         then [ (linkName,
                 netmap6.SimpleConcatAddress (netmap6.Private mapping)
                   (netmap6.PfxPriv netmap),
                 netmap6.SimpleConcatAddress (netmap6.Public mapping)
                   (netmap6.PfxPub netmap)) ]
         else [])
      (netmap6.Maps netmap)
  else [].

Definition compiledOf (links : list (string * link.Link)) : list (string * string * string) :=
  flat_map (fun entry =>
              flat_map (fun set => compiledPairs (fst entry) (snd set))
                       (link.Netmap6 (snd entry)))
           links.

(** The two rules of a compiled pair, and the two lines in which a [-S]
    listing shows them: there the address precedes the interface. *)
Definition compiledRules (pair : string * string * string) : list string :=
  let '(iface, privateAddr, publicAddr) := pair in
  [ netmap6.postroutingRule iface privateAddr publicAddr;
    netmap6.preroutingRule iface publicAddr privateAddr ].

Definition savedLines (pair : string * string * string) : list string :=
  let '(iface, privateAddr, publicAddr) := pair in
  [ "-A POSTROUTING -s " +:+ privateAddr +:+ " -o " +:+ iface
      +:+ " -j NETMAP --to " +:+ publicAddr;
    "-A PREROUTING -d " +:+ publicAddr +:+ " -i " +:+ iface
      +:+ " -j NETMAP --to " +:+ privateAddr ].

(** Interface and addresses are ASCII, non-empty and free of white space. *)
Definition fieldsOnly (pair : string * string * string) : Prop :=
  let '(iface, privateAddr, publicAddr) := pair in
  (isASCII iface = true /\ isASCII privateAddr = true /\ isASCII publicAddr = true)
  /\ isField iface = true /\ isField privateAddr = true /\ isField publicAddr = true.

(** A text of lines, each ended by a newline. *)
Fixpoint listing (lines : list string) : string :=
  match lines with
  | [] => ""
  | line :: rest => line +:+ newline +:+ listing rest
  end.

(** The condition under which the generation runs the fallback for a set. *)
Definition fallsBack (linkName : string) (netmap : netmap6.Netmap6) : bool :=
  (length (netmap6.GenerateIp6tablesRules netmap linkName) =? 0)%nat
  && netmap6.Enabled netmap && (0 <? length (netmap6.Maps netmap))%nat.

End netmapmanager.

(** ** Package natmanager (src/unnamed/part_003) *)

Module natmanager.

(** The loop body of [normalizeRule]: both branches store what the part
    already is, except that ["anywhere"] becomes ["0.0.0.0/0"]. *)
Definition normalizePart (part : string) : string :=
  if String.eqb part "0.0.0.0/0" || String.eqb part "anywhere" then "0.0.0.0/0"
  else if String.eqb part "::/0" then "::/0"
  else part.

Definition normalizeRule (rule : string) : string :=
  let parts := Fields rule in
  Join (map normalizePart parts) " ".

Definition makeSet (items : list string) : gmap string bool :=
  foldl (fun set item => insert item true set) empty items.

Definition difference (slice1 slice2 : list string) : list string :=
  let set := makeSet slice2 in
  foldl (fun result item =>
           if negb (default false (lookup item set)) then result ++ [item] else result)
        [] slice1.

(** The loops that fill [addMap] and [removeMap]: [normalized] and [rules]
    have the same length, [normalized[i]] being the key of [rules[i]]. *)
Definition makeMap (normalized rules : list string) : gmap string string :=
  foldl (fun m entry => insert (fst entry) (snd entry) m) empty (zip normalized rules).

Definition toDelete (origRule : string) : string := Replace origRule "-A " "-D " 1.

Section Apply.
Context {World : Type} (CombinedOutput : CombinedOutputFn World).
(** The package variable [QuietMode]. *)
Variable QuietMode : bool.

Definition executeIptablesRule (rule : string) (st : state World)
    : state World * option string :=
  match Fields rule with
  | [] => (st, Some "empty rule")
  | parts =>
      let '(w, output, err) := CombinedOutput parts (world st) in
      let st' := {| world := w; trace := trace st ++ [Run parts output err] |} in
      match err with
      | Some e => (st', Some ("command failed: " +:+ e +:+ ", output: " +:+ output))
      | None => (st', None)
      end
  end.

(** The loop "Remove old rules" over the keys to remove. *)
Fixpoint removeRules (removeMap : gmap string string) (rulesToRemove : list string)
    (st : state World) : state World :=
  match rulesToRemove with
  | [] => st
  | normRule :: rest =>
      match lookup normRule removeMap with
      | Some origRule =>
          let removeRule := toDelete origRule in
          let '(st, err) := executeIptablesRule removeRule st in
          let st :=
            match err with
            | Some e =>
                if negb QuietMode
                then Printf ("Warning: failed to remove rule " +:+ removeRule +:+ ": "
                               +:+ e +:+ newline) st
                else st
            | None => st
            end in
          removeRules removeMap rest st
      | None => removeRules removeMap rest st
      end
  end.

(** The loop "Add new rules" over the keys to add: it returns at the first
    failure. *)
Fixpoint addRules (addMap : gmap string string) (rulesToAdd : list string)
    (st : state World) : state World * option string :=
  match rulesToAdd with
  | [] => (st, None)
  | normRule :: rest =>
      match lookup normRule addMap with
      | Some origRule =>
          let '(st, err) := executeIptablesRule origRule st in
          match err with
          | Some e => (st, Some ("failed to add rule " +:+ origRule +:+ ": " +:+ e))
          | None => addRules addMap rest st
          end
      | None => addRules addMap rest st
      end
  end.

Definition applyRuleChanges (currentRules newRules : list string) (st : state World)
    : state World * option string :=
  let normalizedCurrent := map normalizeRule currentRules in
  let normalizedNew := map normalizeRule newRules in
  let rulesToAdd := difference normalizedNew normalizedCurrent in
  let rulesToRemove := difference normalizedCurrent normalizedNew in
  let addMap := makeMap normalizedNew newRules in
  let removeMap := makeMap normalizedCurrent currentRules in
  let st := removeRules removeMap rulesToRemove st in
  addRules addMap rulesToAdd st.

End Apply.

(** *** The words of the specification *)

(** The keys of [keys] that are not among [others]. *)
Definition keysMissingFrom (keys others : list string) : list string :=
  List.filter (fun k => negb (keyIn k others)) keys.

(** The last rule of [rules], in input order, whose key is [k]. *)
Fixpoint lastWithKey (rules : list string) (k : string) : option string :=
  match rules with
  | [] => None
  | r :: rest =>
      match lastWithKey rest k with
      | Some r' => Some r'
      | None => if String.eqb (normalizeRule r) k then Some r else None
      end
  end.

(** The raw texts the executor is handed for a list of keys: for every
    occurrence of a key, the last rule with that key. *)
Definition textsFor (rules keys : list string) : list string :=
  omap (lastWithKey rules) keys.

Fixpoint occurrences (k : string) (keys : list string) : nat :=
  match keys with
  | [] => O
  | k' :: rest => (if String.eqb k' k then 1 else 0) + occurrences k rest
  end.

(** The trace of the removal loop when it is handed the raw texts [rules]:
    a failure adds a warning line unless quiet mode is set. *)
Inductive removalTrace (quiet : bool) : list string -> list event -> Prop :=
| removal_nil : removalTrace quiet [] []
| removal_ok rule rest ev tr :
    executed (toDelete rule) ev None ->
    removalTrace quiet rest tr ->
    removalTrace quiet (rule :: rest) (ev ++ tr)
| removal_failed rule rest ev e tr :
    executed (toDelete rule) ev (Some e) ->
    removalTrace quiet rest tr ->
    removalTrace quiet (rule :: rest)
      (ev ++ (if quiet then []
              else [Stdout ("Warning: failed to remove rule " +:+ toDelete rule +:+ ": "
                              +:+ e +:+ newline)]) ++ tr).

(** The trace of the addition loop and the error it returns: the loop ends
    at the first rule that fails, and the later ones are not executed. *)
Inductive additionTrace : list string -> list event -> option string -> Prop :=
| addition_nil : additionTrace [] [] None
| addition_ok rule rest ev tr err :
    executed rule ev None ->
    additionTrace rest tr err ->
    additionTrace (rule :: rest) (ev ++ tr) err
| addition_aborted rule rest ev e :
    executed rule ev (Some e) ->
    additionTrace (rule :: rest) ev
      (Some ("failed to add rule " +:+ rule +:+ ": " +:+ e)).

(** *** Generating and scanning NAT rules, and the passes (lines 26-227) *)

Definition generateNat44Rules (interfaceName : string) (nat44 : option link.nat44.Nat44)
    : list string :=
  match nat44 with
  | None => []
  | Some n =>
      if negb (link.nat44.Enabled n) then []
      else if isEmpty interfaceName then []
      else
        let masqRule :=
          "iptables -t nat -A POSTROUTING -o " +:+ interfaceName +:+ " -j MASQUERADE" in
        let rules := [masqRule] in
        let rules :=
          if link.nat44.MssClamping n && (0 <? link.nat44.Mss n)%Z
          then rules ++ [ "iptables -t mangle -A FORWARD -o " +:+ interfaceName
                            +:+ " -p tcp --tcp-flags SYN,RST SYN -j TCPMSS --set-mss "
                            +:+ Itoa (link.nat44.Mss n) ]
          else rules in
        foldl (fun rules origin =>
                 if negb (isEmpty origin)
                 then rules ++ [ "iptables -t nat -A POSTROUTING -s " +:+ origin +:+ " -o "
                                   +:+ interfaceName +:+ " -j MASQUERADE" ]
                 else rules)
              rules (link.nat44.Origins n)
  end.

Definition generateNat66Rules (interfaceName : string) (nat66 : option link.nat66.Nat66)
    : list string :=
  match nat66 with
  | None => []
  | Some n =>
      if negb (link.nat66.Enabled n) then []
      else if isEmpty interfaceName then []
      else
        let masqRule :=
          "ip6tables -t nat -A POSTROUTING -o " +:+ interfaceName +:+ " -j MASQUERADE" in
        let rules := [masqRule] in
        let rules :=
          if link.nat66.MssClamping n && (0 <? link.nat66.Mss n)%Z
          then rules ++ [ "ip6tables -t mangle -A FORWARD -o " +:+ interfaceName
                            +:+ " -p tcp --tcp-flags SYN,RST SYN -j TCPMSS --set-mss "
                            +:+ Itoa (link.nat66.Mss n) ]
          else rules in
        foldl (fun rules origin =>
                 if negb (isEmpty origin)
                 then rules ++ [ "ip6tables -t nat -A POSTROUTING -s " +:+ origin +:+ " -o "
                                   +:+ interfaceName +:+ " -j MASQUERADE" ]
                 else rules)
              rules (link.nat66.Origins n)
  end.

(** The loop [for i := 2; i < len(parts); i++ { rule += " " + parts[i] }]. *)
Definition appendParts (rule : string) (parts : list string) : string :=
  foldl (fun rule part => rule +:+ " " +:+ part) rule (drop 2 parts).

(** The bodies of the loops over the lines of the nat and of the mangle
    listing. *)
Definition natStep (iptablesCmd : string) (rules : list string) (line : string)
    : list string :=
  let line := TrimSpace line in
  if (Contains line "MASQUERADE" || Contains line "SNAT" || Contains line "DNAT")
     && HasPrefix line "-A "
  then
    let parts := Fields line in
    if (2 <=? length parts)%nat
    then
      let chain := nth 1 parts "" in
      rules ++ [appendParts (iptablesCmd +:+ " -t nat -A " +:+ chain) parts]
    else rules
  else rules.

Definition mangleStep (iptablesCmd : string) (rules : list string) (line : string)
    : list string :=
  let line := TrimSpace line in
  if Contains line "TCPMSS" && HasPrefix line "-A "
  then
    let parts := Fields line in
    if (2 <=? length parts)%nat
    then
      let chain := nth 1 parts "" in
      rules ++ [appendParts (iptablesCmd +:+ " -t mangle -A " +:+ chain) parts]
    else rules
  else rules.

(** The first field after the first ["-o"] that has a successor. *)
Fixpoint findOut (parts : list string) : string :=
  match parts with
  | [] => ""
  | part :: rest =>
      match rest with
      | [] => ""
      | next :: _ => if String.eqb part "-o" then next else findOut rest
      end
  end.

Definition outInterface (rule : string) : string :=
  if Contains rule "-o " then findOut (Fields rule) else "".

Definition groupStep (rulesByInterface : gmap string (list string)) (rule : string)
    : gmap string (list string) :=
  let iface := outInterface rule in
  if negb (isEmpty iface)
  then insert iface (default [] (lookup iface rulesByInterface) ++ [rule]) rulesByInterface
  else rulesByInterface.

Definition groupNatRulesByInterface (rules : list string) : gmap string (list string) :=
  foldl groupStep empty rules.

Section Passes.
(** [Output] stands for [cmd.Output()], [CombinedOutput] for
    [cmd.CombinedOutput()] and [RunCmd] for [cmd.Run()], whose output is
    discarded. *)
Context {World : Type} (Output CombinedOutput RunCmd : CombinedOutputFn World).
Variable QuietMode : bool.

Definition getCurrentNatRules (iptablesCmd : string) (st : state World)
    : state World * list string * option string :=
  let '(st, output, err) := invoke Output [iptablesCmd; "-t"; "nat"; "-S"] st in
  match err with
  | Some e => (st, [], Some e)
  | None =>
      let rules := foldl (natStep iptablesCmd) [] (Split output newline) in
      let '(st, output, err) := invoke Output [iptablesCmd; "-t"; "mangle"; "-S"] st in
      match err with
      | Some _ => (st, rules, None)
      | None => (st, foldl (mangleStep iptablesCmd) rules (Split output newline), None)
      end
  end.

Definition getCurrentNat44Rules (st : state World) := getCurrentNatRules "iptables" st.

Definition getCurrentNat66Rules (st : state World) := getCurrentNatRules "ip6tables" st.

(** [fmt.Println(title)] and one line per rule, when not quiet and there is
    a rule. *)
Definition printRules (title : string) (rules : list string) (st : state World)
    : state World :=
  if negb QuietMode && (0 <? length rules)%nat
  then foldl (fun st rule => Printf ("  - " +:+ rule +:+ newline) st)
             (Printf (title +:+ newline) st) rules
  else st.

Definition applyNat44Rules (links : list (string * link.Link)) (st : state World)
    : state World * option string :=
  let '(st, currentRules, err) := getCurrentNat44Rules st in
  match err with
  | Some e => (st, Some e)
  | None =>
      let st := printRules "Current NAT44 rules:" currentRules st in
      let newRules :=
        foldl (fun newRules entry =>
                 match link.Nat44 (snd entry) with
                 | Some n =>
                     if link.nat44.Enabled n
                     then newRules ++ generateNat44Rules (fst entry) (Some n)
                     else newRules
                 | None => newRules
                 end) [] links in
      let st := printRules "New NAT44 rules to apply:" newRules st in
      applyRuleChanges CombinedOutput QuietMode currentRules newRules st
  end.

Definition applyNat66Rules (links : list (string * link.Link)) (st : state World)
    : state World * option string :=
  let '(st, currentRules, err) := getCurrentNat66Rules st in
  match err with
  | Some e => (st, Some e)
  | None =>
      let newRules :=
        foldl (fun newRules entry =>
                 match link.Nat66 (snd entry) with
                 | Some n =>
                     if link.nat66.Enabled n
                     then newRules ++ generateNat66Rules (fst entry) (Some n)
                     else newRules
                 | None => newRules
                 end) [] links in
      applyRuleChanges CombinedOutput QuietMode currentRules newRules st
  end.

Definition ApplyNatRules (links : list (string * link.Link)) (st : state World)
    : state World * option string :=
  let '(st, err) := applyNat44Rules links st in
  match err with
  | Some e => (st, Some ("failed to apply NAT44 rules: " +:+ e))
  | None =>
      let '(st, err) := applyNat66Rules links st in
      match err with
      | Some e => (st, Some ("failed to apply NAT66 rules: " +:+ e))
      | None => (st, None)
      end
  end.

(** [FlushNatRules] for one command: the NAT table, then the FORWARD chain
    of the mangle table. *)
Definition flushTables (iptablesCmd ipVersion : string) (st : state World)
    : state World * option string :=
  let '(st, _, err) := invoke RunCmd [iptablesCmd; "-t"; "nat"; "-F"] st in
  match err with
  | Some e => (st, Some ("failed to flush NAT table: " +:+ e))
  | None =>
      let '(st, _, err) := invoke RunCmd [iptablesCmd; "-t"; "mangle"; "-F"; "FORWARD"] st in
      let st :=
        match err with
        | Some e =>
            if negb QuietMode
            then Printf ("Warning: failed to flush mangle FORWARD chain: " +:+ e
                           +:+ newline) st
            else st
        | None => st
        end in
      let st :=
        if negb QuietMode
        then Printf ("Flushed " +:+ ipVersion +:+ " NAT rules" +:+ newline) st
        else st in
      (st, None)
  end.

(** The two recursive calls of the case ["both"] are the calls of
    [flushTables]. *)
Definition FlushNatRules (ipVersion : string) (st : state World)
    : state World * option string :=
  if String.eqb ipVersion "ipv4" then flushTables "iptables" "ipv4" st
  else if String.eqb ipVersion "ipv6" then flushTables "ip6tables" "ipv6" st
  else if String.eqb ipVersion "both" then
    let '(st, err) := flushTables "iptables" "ipv4" st in
    match err with
    | Some e => (st, Some e)
    | None => flushTables "ip6tables" "ipv6" st
    end
  else (st, Some ("invalid IP version: " +:+ ipVersion
                    +:+ " (use 'ipv4', 'ipv6', or 'both')")).

End Passes.

(** A rule that the scanner of the listings gives back: its text is the
    command and the table followed by a line that one of the two loops of
    [getCurrentNatRules] turns into the rule again. *)
Definition scansBack (iptablesCmd rule : string) : Prop :=
  (exists line, rule = iptablesCmd +:+ " -t nat " +:+ line
     /\ forall rules, natStep iptablesCmd rules line = rules ++ [rule])
  \/ (exists line, rule = iptablesCmd +:+ " -t mangle " +:+ line
        /\ forall rules, mangleStep iptablesCmd rules line = rules ++ [rule]).

(** The rules of [rules], in their order, whose outgoing interface is
    [iface]. *)
Definition rulesFor (iface : string) (rules : list string) : list string :=
  List.filter (fun rule => String.eqb (outInterface rule) iface) rules.

End natmanager.

(** ** Sample inputs *)

Module samples.

(** The first mapping set of the shipped config.yaml, on link pub1a. *)
Definition shippedPair : netmap6.MapPair :=
  {| netmap6.Public := "::25:0:0/96"; netmap6.Private := "20:0:0/96";
     netmap6.Radv := None |}.

Definition emptyPair : netmap6.MapPair :=
  {| netmap6.Public := ""; netmap6.Private := "21:0:0/96"; netmap6.Radv := None |}.

Definition shippedSet (maps : list netmap6.MapPair) : netmap6.Netmap6 :=
  {| netmap6.Name := "c1"; netmap6.Enabled := true;
     netmap6.PfxPub := "2001:db8:1::"; netmap6.PfxPriv := "b30::20:";
     netmap6.Maps := maps |}.

Definition announcedPair : netmap6.MapPair :=
  {| netmap6.Public := "::25:0:0/96"; netmap6.Private := "22:0:0/96";
     netmap6.Radv := Some {| netmap6.Preference := "high"; netmap6.Metric := 0;
                             netmap6.Lifetime := 3600; netmap6.Prefix := "" |} |}.

Definition publicOnly (address : string) : configmaker.NetmapMapping :=
  {| configmaker.Public := address; configmaker.Private := "" |}.

(** A host on which every command succeeds, and one on which every command
    fails. *)
Definition alwaysOk : CombinedOutputFn unit := fun _ w => (w, "", None).

Definition alwaysFails : CombinedOutputFn unit :=
  fun _ w => (w, "", Some "exit status 1").

Definition start : state unit := {| world := tt; trace := [] |}.

(** Two inbound NETMAP rules that differ in their source only. *)
Definition inboundFrom (src : string) : string :=
  "ip6tables -t nat -A PREROUTING -i pub1a -s " +:+ src
    +:+ " -d 2001:db8:1::25 -j NETMAP --to b30::20".

Definition staleNetmap : string :=
  "ip6tables -t nat -A PREROUTING -i pub1a -d 2001:db8:1::99 -j NETMAP --to b30::99".

Definition masquerade (iface : string) : string :=
  "iptables -t nat -A POSTROUTING -o " +:+ iface +:+ " -j MASQUERADE".

(** Two spellings of one origin rule: they have the same key. *)
Definition originAnywhere : string :=
  "iptables -t nat -A POSTROUTING -s anywhere -o eth0 -j MASQUERADE".

Definition originZero : string :=
  "iptables -t nat -A POSTROUTING -s 0.0.0.0/0 -o eth0 -j MASQUERADE".

Definition clamped44 : link.nat44.Nat44 :=
  {| link.nat44.Enabled := true; link.nat44.MssClamping := true;
     link.nat44.Mss := 1400; link.nat44.Origins := ["10.0.0.0/8"; ""] |}.

Definition clamped66 : link.nat66.Nat66 :=
  {| link.nat66.Enabled := true; link.nat66.MssClamping := true;
     link.nat66.Mss := 1380; link.nat66.Origins := ["fd00::/8"] |}.

(** A host whose nat table can be listed and flushed while every command on
    the mangle table fails. *)
Definition mangleDown : CombinedOutputFn unit :=
  fun argv w =>
    if String.eqb (nth 2 argv "") "mangle" then (w, "", Some "exit status 3")
    else (w, "-A POSTROUTING -o eth0 -j MASQUERADE" +:+ newline, None).

(** A link with a mapping set of two announced pairs, which expand to the
    valid prefixes 2001:db8:1::25:0:0/96 and 2001:db8:1::26:0:0/96, and a
    pair that is not announced; the manual routes of the link include the
    second prefix. *)
Definition announcedAs (public private : string) : netmap6.MapPair :=
  {| netmap6.Public := public; netmap6.Private := private;
     netmap6.Radv := Some {| netmap6.Preference := "high"; netmap6.Metric := 0;
                             netmap6.Lifetime := 3600; netmap6.Prefix := "" |} |}.

Definition manualRoutes : radv.RadvConfig :=
  {| radv.Routes := [ {| radv.Prefix := "2001:db8:9::/48"; radv.Preference := "medium";
                         radv.Metric := 0; radv.Lifetime := 1800 |};
                      {| radv.Prefix := "2001:db8:1::26:0:0/96"; radv.Preference := "low";
                         radv.Metric := 0; radv.Lifetime := 600 |} ];
     radv.AutoRoutes := [] |}.

Definition announcingLink : link.Link :=
  {| link.Name := "pub1a";
     link.Netmap6 :=
       [("c1", shippedSet [ announcedAs ":25:0:0/96" "22:0:0/96";
                            announcedAs ":26:0:0/96" "23:0:0/96";
                            shippedPair ])];
     link.Nat66 := None; link.Nat44 := None;
     link.Radv := Some manualRoutes |}.

(** A pair that expands, under the prefixes of the shipped set, to the
    valid addresses 2001:db8:1::25:0:0/96 and b30::20:20:0:0/96. *)
Definition validPair : netmap6.MapPair :=
  {| netmap6.Public := ":25:0:0/96"; netmap6.Private := "20:0:0/96";
     netmap6.Radv := None |}.

(** A link whose only mapping set has that pair, and a host whose listing
    shows the two rules of the pair. *)
Definition shippedLinks : list (string * link.Link) :=
  [ ("pub1a",
     {| link.Name := "pub1a"; link.Netmap6 := [("c1", shippedSet [validPair])];
        link.Nat66 := None; link.Nat44 := None; link.Radv := None |}) ].

Definition settledHost : CombinedOutputFn unit :=
  fun _ w =>
    (w, netmapmanager.listing
          (flat_map netmapmanager.savedLines (netmapmanager.compiledOf shippedLinks)),
     None).

End samples.

(** * Properties *)

(** ** Byte strings *)

Section StringFacts.

Lemma app_empty_l (s : string) : "" +:+ s = s.
Proof. reflexivity. Qed.

Lemma app_cons (c : ascii) (s t : string) : String c s +:+ t = String c (s +:+ t).
Proof. reflexivity. Qed.

Lemma app_empty_r (s : string) : s +:+ "" = s.
Proof. induction s as [|c s IH]; [reflexivity|]. now rewrite app_cons, IH. Qed.

Lemma app_assoc' (s t u : string) : (s +:+ t) +:+ u = s +:+ t +:+ u.
Proof. induction s as [|c s IH]; [reflexivity|]. now rewrite !app_cons, IH. Qed.

Lemma length_append (s t : string) :
  String.length (s +:+ t) = (String.length s + String.length t)%nat.
Proof. induction s as [|c s IH]; [reflexivity|]. rewrite app_cons. simpl. now rewrite IH. Qed.

Lemma isEmpty_true (s : string) : isEmpty s = true <-> s = "".
Proof. destruct s; simpl; split; congruence. Qed.

Lemma isEmpty_false (s : string) : isEmpty s = false <-> s <> "".
Proof. destruct s; simpl; split; congruence. Qed.

Lemma HasPrefix_app (s prefix : string) : HasPrefix (prefix +:+ s) prefix = true.
Proof.
  induction prefix as [|c p IH]; [reflexivity|].
  rewrite app_cons. simpl. now rewrite Ascii.eqb_refl.
Qed.

Lemma HasPrefix_split (s prefix : string) :
  HasPrefix s prefix = true -> s = prefix +:+ drop_bytes (String.length prefix) s.
Proof.
  revert s. induction prefix as [|c p IH]; intros s H; [reflexivity|].
  destruct s as [|d s]; simpl in H; [discriminate|].
  destruct (Ascii.eqb c d) eqn:E; [|discriminate].
  apply Ascii.eqb_eq in E. subst d.
  rewrite app_cons. simpl. f_equal. now apply IH.
Qed.

Lemma HasPrefix_length (s prefix : string) :
  HasPrefix s prefix = true -> (String.length prefix <= String.length s)%nat.
Proof.
  intros H. pose proof (f_equal String.length (HasPrefix_split _ _ H)) as E.
  rewrite length_append in E. lia.
Qed.

Lemma drop_bytes_length (n : nat) (s : string) :
  String.length (drop_bytes n s) = (String.length s - n)%nat.
Proof.
  revert s. induction n as [|n IH]; intros [|c s]; simpl; auto with arith.
Qed.

Lemma drop_bytes_app (prefix s : string) :
  drop_bytes (String.length prefix) (prefix +:+ s) = s.
Proof. induction prefix as [|c p IH]; [reflexivity|]. now rewrite app_cons. Qed.

(** [Cut] splits [s] around an occurrence of [sep]. *)
Lemma Cut_Some (s sep before after : string) :
  Cut s sep = Some (before, after) -> s = before +:+ sep +:+ after.
Proof.
  revert before after. induction s as [|c s IH]; intros b a; simpl.
  - destruct (HasPrefix "" sep) eqn:E; [|discriminate].
    intros [= <- <-]. rewrite app_empty_l. now apply HasPrefix_split.
  - destruct (HasPrefix (String c s) sep) eqn:E.
    + intros [= <- <-]. rewrite app_empty_l. now apply HasPrefix_split.
    + destruct (Cut s sep) as [[b' a']|] eqn:EC; [|discriminate].
      intros [= <- <-]. rewrite app_cons. f_equal. now apply IH.
Qed.

Lemma Cut_shorter (s sep before after : string) :
  sep <> "" -> Cut s sep = Some (before, after) ->
  (String.length after < String.length s)%nat.
Proof.
  intros Hsep H. apply Cut_Some in H. subst s. rewrite !length_append.
  destruct sep; [congruence|]. simpl. lia.
Qed.

Lemma Cut_empty (sep : string) : sep <> "" -> Cut "" sep = None.
Proof. destruct sep; [congruence|reflexivity]. Qed.

(** The fuel of [genSplit] and [countFrom] never runs out. *)
Lemma genSplit_fuel (sep : string) (f1 f2 : nat) (s : string) :
  sep <> "" -> (String.length s <= f1)%nat -> (String.length s <= f2)%nat ->
  genSplit f1 s sep = genSplit f2 s sep.
Proof.
  intros Hsep. revert f2 s. induction f1 as [|f1 IH]; intros f2 s H1 H2.
  - destruct s; [|simpl in H1; lia].
    destruct f2; cbn [genSplit]; [reflexivity|]. now rewrite Cut_empty.
  - destruct f2 as [|f2].
    + destruct s; [|simpl in H2; lia]. cbn [genSplit]. now rewrite Cut_empty.
    + cbn [genSplit]. destruct (Cut s sep) as [[b a]|] eqn:E; [|reflexivity].
      f_equal. pose proof (Cut_shorter _ _ _ _ Hsep E). apply IH; lia.
Qed.

Lemma Split_unfold (s sep : string) :
  sep <> "" ->
  Split s sep = match Cut s sep with
                | None => [s]
                | Some (before, after) => before :: Split after sep
                end.
Proof.
  intros Hsep. unfold Split. destruct sep as [|c sep]; [congruence|].
  destruct (Cut s (String c sep)) as [[b a]|] eqn:E.
  - pose proof (Cut_shorter _ _ _ _ Hsep E) as Hlt.
    destruct (String.length s) as [|n] eqn:El; [lia|].
    cbn [genSplit]. rewrite E. f_equal. apply genSplit_fuel; [assumption|lia|lia].
  - destruct (String.length s); cbn [genSplit]; [reflexivity|]. now rewrite E.
Qed.

Lemma countFrom_fuel (substr : string) (f1 f2 : nat) (s : string) :
  substr <> "" -> (String.length s <= f1)%nat -> (String.length s <= f2)%nat ->
  countFrom f1 s substr = countFrom f2 s substr.
Proof.
  intros Hsep. revert f2 s. induction f1 as [|f1 IH]; intros f2 s H1 H2.
  - destruct s; [|simpl in H1; lia].
    destruct f2; cbn [countFrom]; [reflexivity|]. now rewrite Cut_empty.
  - destruct f2 as [|f2].
    + destruct s; [|simpl in H2; lia]. cbn [countFrom]. now rewrite Cut_empty.
    + cbn [countFrom]. destruct (Cut s substr) as [[b a]|] eqn:E; [|reflexivity].
      f_equal. pose proof (Cut_shorter _ _ _ _ Hsep E). apply IH; lia.
Qed.

Lemma Count_unfold (s substr : string) :
  substr <> "" ->
  Count s substr = match Cut s substr with
                   | None => O
                   | Some (_, after) => S (Count after substr)
                   end.
Proof.
  intros Hsep. unfold Count. destruct substr as [|c substr]; [congruence|].
  destruct (Cut s (String c substr)) as [[b a]|] eqn:E.
  - pose proof (Cut_shorter _ _ _ _ Hsep E) as Hlt.
    destruct (String.length s) as [|n] eqn:El; [lia|].
    cbn [countFrom]. rewrite E. f_equal. apply countFrom_fuel; [assumption|lia|lia].
  - destruct (String.length s); cbn [countFrom]; [reflexivity|]. now rewrite E.
Qed.

(** Cutting at a one-byte separator. *)
Lemma Cut_byte (c : ascii) (s : string) :
  Cut s (String c "") =
  match netmap6.afterFirst c s with
  | Some after => Some (netmap6.upTo c s, after)
  | None => None
  end.
Proof.
  induction s as [|d s IH]; [reflexivity|].
  simpl. rewrite (Ascii.eqb_sym c d).
  destruct (Ascii.eqb d c); [reflexivity|].
  rewrite IH. now destruct (netmap6.afterFirst c s).
Qed.

Lemma Contains_byte (c : ascii) (s : string) :
  Contains s (String c "") =
  match netmap6.afterFirst c s with Some _ => true | None => false end.
Proof. unfold Contains. rewrite Cut_byte. now destruct (netmap6.afterFirst c s). Qed.

Lemma Split_byte (c : ascii) (s : string) :
  Split s (String c "") =
  match netmap6.afterFirst c s with
  | Some after => netmap6.upTo c s :: Split after (String c "")
  | None => [s]
  end.
Proof.
  rewrite Split_unfold by discriminate. rewrite Cut_byte.
  now destruct (netmap6.afterFirst c s).
Qed.

Lemma upTo_none (c : ascii) (s : string) :
  netmap6.afterFirst c s = None -> netmap6.upTo c s = s.
Proof.
  induction s as [|d s IH]; [reflexivity|]. simpl.
  destruct (Ascii.eqb d c); [discriminate|]. intros H. now rewrite IH.
Qed.

Lemma upTo_afterFirst (c : ascii) (s after : string) :
  netmap6.afterFirst c s = Some after ->
  s = netmap6.upTo c s +:+ String c after.
Proof.
  induction s as [|d s IH]; [discriminate|]. simpl.
  destruct (Ascii.eqb d c) eqn:E.
  - apply Ascii.eqb_eq in E. subst d. now intros [= ->].
  - intros H. rewrite app_cons. f_equal. now apply IH.
Qed.

Lemma afterFirst_countByte (c : ascii) (s : string) :
  netmap6.countByte c s =
  match netmap6.afterFirst c s with
  | Some after => S (netmap6.countByte c after)
  | None => O
  end.
Proof.
  induction s as [|d s IH]; [reflexivity|]. simpl.
  now destruct (Ascii.eqb d c).
Qed.

(** [Split] at a slash yields at least two parts when there is a slash. *)
Lemma Split_slash_two (s : string) :
  Contains s "/" = true ->
  exists rest, netmap6.afterFirst "/" s = Some rest
    /\ nth 0 (Split s "/") "" = netmap6.upTo "/" s
    /\ nth 1 (Split s "/") "" = netmap6.upTo "/" rest.
Proof.
  rewrite Contains_byte, (Split_byte "/" s).
  destruct (netmap6.afterFirst "/" s) as [rest|] eqn:E; [|discriminate].
  intros _. exists rest. split; [reflexivity|]. split; [reflexivity|].
  cbn [nth]. rewrite (Split_byte "/" rest).
  destruct (netmap6.afterFirst "/" rest) eqn:E2; [reflexivity|].
  cbn [nth]. symmetry. now apply upTo_none.
Qed.

(** [TrimRight] removes exactly the trailing run of colons. *)
Lemma TrimRight_colons (s : string) :
  exists k, s = TrimRight s ":" +:+ netmap6.colons k
    /\ netmap6.endsWith ":" (TrimRight s ":") = false.
Proof.
  induction s as [|c s (k & Hk & He)].
  - exists 0%nat. split; reflexivity.
  - simpl. destruct (TrimRight s ":") as [|d t] eqn:Et.
    + rewrite app_empty_l in Hk.
      destruct (Ascii.eqb c ":") eqn:Ec; simpl.
      * apply Ascii.eqb_eq in Ec. subst c. exists (S k). split; [|reflexivity].
        rewrite app_empty_l. simpl. now f_equal.
      * exists k. split; [now rewrite app_cons, app_empty_l; f_equal|].
        simpl. exact Ec.
    + exists k. split; [rewrite app_cons; now f_equal|]. exact He.
Qed.

Lemma Cut_cons (d : ascii) (s sep : string) :
  Cut (String d s) sep =
  if HasPrefix (String d s) sep
  then Some ("", drop_bytes (String.length sep) (String d s))
  else match Cut s sep with
       | Some (before, after) => Some (String d before, after)
       | None => None
       end.
Proof. reflexivity. Qed.

(** A separator byte that does not occur in [sub] keeps occurrences of
    [sub] on one side of it. *)
Lemma HasPrefix_app_byte (x y sub : string) (c : ascii) :
  netmap6.countByte c sub = 0%nat ->
  HasPrefix (x +:+ String c y) sub = HasPrefix x sub.
Proof.
  revert x. induction sub as [|e sub IH]; intros x H; [reflexivity|].
  simpl in H. destruct (Ascii.eqb e c) eqn:E; [discriminate|].
  destruct x as [|d x].
  - rewrite app_empty_l. simpl. now rewrite E.
  - rewrite app_cons. simpl. destruct (Ascii.eqb e d); [|reflexivity]. now apply IH.
Qed.

Lemma drop_bytes_app_le (n : nat) (x y : string) :
  (n <= String.length x)%nat -> drop_bytes n (x +:+ y) = drop_bytes n x +:+ y.
Proof.
  revert x. induction n as [|n IH]; intros x H; [reflexivity|].
  destruct x as [|d x]; [simpl in H; lia|].
  rewrite app_cons. simpl. apply IH. simpl in H. lia.
Qed.

Lemma Cut_app_byte (x y sub : string) (c : ascii) :
  netmap6.countByte c sub = 0%nat -> sub <> "" ->
  Cut (x +:+ String c y) sub =
  match Cut x sub with
  | Some (before, after) => Some (before, after +:+ String c y)
  | None =>
      match Cut y sub with
      | Some (before, after) => Some (x +:+ String c before, after)
      | None => None
      end
  end.
Proof.
  intros Hc Hsub. induction x as [|d x IH].
  - rewrite app_empty_l, Cut_cons, (Cut_empty _ Hsub).
    rewrite <- (app_empty_l (String c y)), HasPrefix_app_byte by assumption.
    destruct sub; [congruence|]. cbn [HasPrefix].
    destruct (Cut y (String a sub)) as [[b a']|]; reflexivity.
  - rewrite app_cons, !Cut_cons, <- app_cons, HasPrefix_app_byte by assumption.
    destruct (HasPrefix (String d x) sub) eqn:E.
    + f_equal. f_equal. apply drop_bytes_app_le. now apply HasPrefix_length.
    + rewrite IH.
      destruct (Cut x sub) as [[b a]|]; [reflexivity|].
      destruct (Cut y sub) as [[b a]|]; reflexivity.
Qed.

Lemma Contains_app_byte (x y sub : string) (c : ascii) :
  netmap6.countByte c sub = 0%nat -> sub <> "" ->
  Contains (x +:+ String c y) sub = Contains x sub || Contains y sub.
Proof.
  intros Hc Hsub. unfold Contains. rewrite Cut_app_byte by assumption.
  destruct (Cut x sub) as [[b a]|]; [reflexivity|].
  destruct (Cut y sub) as [[b a]|]; reflexivity.
Qed.

Lemma Count_app_byte (x y sub : string) (c : ascii) :
  netmap6.countByte c sub = 0%nat -> sub <> "" ->
  Count (x +:+ String c y) sub = (Count x sub + Count y sub)%nat.
Proof.
  intros Hc Hsub.
  remember (String.length x) as n eqn:Hn. revert x Hn.
  induction n as [n IH] using lt_wf_ind. intros x Hn.
  rewrite (Count_unfold (x +:+ String c y)), (Count_unfold x) by assumption.
  rewrite Cut_app_byte by assumption.
  destruct (Cut x sub) as [[b a]|] eqn:E.
  - pose proof (Cut_shorter _ _ _ _ Hsub E) as Hlt.
    rewrite (IH (String.length a)); [reflexivity|lia|reflexivity].
  - rewrite (Count_unfold y) by assumption.
    destruct (Cut y sub) as [[b a]|]; reflexivity.
Qed.

Lemma Cut_absent (c : ascii) (s sub : string) :
  netmap6.countByte c s = 0%nat -> Cut s (String c sub) = None.
Proof.
  induction s as [|d s IH]; intros H; [reflexivity|].
  simpl in H. destruct (Ascii.eqb d c) eqn:E; [discriminate|].
  rewrite Cut_cons. cbn [HasPrefix]. rewrite (Ascii.eqb_sym c d), E.
  now rewrite IH.
Qed.

Lemma parseDigits_no_colon (s : string) (acc v : Z) :
  parseDigits acc s = Some v -> netmap6.countByte ":" s = 0%nat.
Proof.
  revert acc. induction s as [|d s IH]; intros acc H; [reflexivity|].
  simpl in H. simpl. destruct (Ascii.eqb d ":") eqn:E.
  - apply Ascii.eqb_eq in E. subst d. discriminate.
  - destruct (digitValue d); [|discriminate]. now apply IH in H.
Qed.

Lemma Atoi_no_colon (s : string) (v : Z) :
  Atoi s = Some v -> netmap6.countByte ":" s = 0%nat.
Proof.
  unfold Atoi. destruct s as [|d s]; [discriminate|].
  assert (Hbody : forall (neg : bool) (body : string),
             match body with
             | "" => None
             | _ => match parseDigits 0 body with
                    | None => None
                    | Some v0 =>
                        let v' := if neg then (- v0)%Z else v0 in
                        if ((- 2 ^ 63 <=? v') && (v' <=? 2 ^ 63 - 1))%Z
                        then Some v' else None
                    end
             end = Some v -> netmap6.countByte ":" body = 0%nat).
  { intros neg body H. destruct body as [|e body]; [discriminate|].
    destruct (parseDigits 0 (String e body)) eqn:E; [|discriminate].
    now apply parseDigits_no_colon in E. }
  destruct (Ascii.eqb d "+") eqn:E1.
  { apply Ascii.eqb_eq in E1. subst d. intros H. exact (Hbody false s H). }
  destruct (Ascii.eqb d "-") eqn:E2.
  { apply Ascii.eqb_eq in E2. subst d. intros H. exact (Hbody true s H). }
  intros H. exact (Hbody false (String d s) H).
Qed.

Lemma Contains_short (s sep : string) :
  (String.length s < String.length sep)%nat -> Contains s sep = false.
Proof.
  unfold Contains. induction s as [|c s IH]; intros H.
  - destruct sep; [simpl in H; lia|reflexivity].
  - rewrite Cut_cons. destruct (HasPrefix (String c s) sep) eqn:E.
    + apply HasPrefix_length in E. lia.
    + simpl in H. destruct (Cut s sep) as [[b a]|]; [|reflexivity].
      discriminate IH. lia.
Qed.

Lemma HasPrefix_app_mono (x y sep : string) :
  HasPrefix x sep = true -> HasPrefix (x +:+ y) sep = true.
Proof.
  revert x. induction sep as [|e sep IH]; intros x H; [reflexivity|].
  destruct x as [|d x]; [discriminate|]. rewrite app_cons. simpl in *.
  destruct (Ascii.eqb e d); [now apply IH|discriminate].
Qed.

Lemma removeLast_split (sep : string) :
  sep <> "" -> exists c, sep = removeLast sep +:+ String c "".
Proof.
  induction sep as [|d sep IH]; [congruence|]. intros _.
  destruct sep as [|e sep].
  - exists d. reflexivity.
  - destruct IH as (c & Hc); [discriminate|]. exists c.
    change (removeLast (String d (String e sep)))
      with (String d (removeLast (String e sep))).
    rewrite app_cons. now f_equal.
Qed.

(** [Cut] cuts at the leftmost occurrence. *)
Lemma Cut_leftmost (s sep before after : string) :
  sep <> "" -> Cut s sep = Some (before, after) ->
  Contains (before +:+ removeLast sep) sep = false.
Proof.
  intros Hsep. destruct (removeLast_split sep Hsep) as (l & Hl).
  revert before. induction s as [|c s IH]; intros before.
  - rewrite (Cut_empty _ Hsep). discriminate.
  - rewrite Cut_cons. destruct (HasPrefix (String c s) sep) eqn:E.
    + intros [= <- <-]. rewrite app_empty_l. apply Contains_short.
      rewrite Hl at 2. rewrite length_append. simpl. lia.
    + destruct (Cut s sep) as [[b a]|] eqn:Ec; [|discriminate].
      intros [= <- <-]. specialize (IH b eq_refl).
      unfold Contains in *. rewrite app_cons, Cut_cons.
      destruct (HasPrefix (String c (b +:+ removeLast sep)) sep) eqn:E2.
      * exfalso. apply (HasPrefix_app_mono _ (String l "" +:+ a)) in E2.
        apply Cut_Some in Ec.
        rewrite app_cons, app_assoc', <- (app_assoc' (removeLast sep)), <- Hl, <- Ec in E2.
        congruence.
      * destruct (Cut (b +:+ removeLast sep) sep) as [[b' a']|]; [discriminate|reflexivity].
Qed.

Lemma Replace_first (rule : string) :
  firstAppendRewritten rule (Replace rule "-A " "-D " 1).
Proof.
  unfold firstAppendRewritten, Contains. cbn [Replace].
  destruct (Cut rule "-A ") as [[before after]|] eqn:E; [right|left; now split].
  exists before, after. split; [now apply Cut_Some|]. split; [reflexivity|].
  apply (Cut_leftmost rule "-A " before after); [discriminate|exact E].
Qed.

End StringFacts.

(** ** Address expansion and rule compilation (netmap6) *)

Section Netmap6Facts.
Import netmap6.

Lemma body_suffix_split (address : string) :
  exists dropped,
    address = addressBody address +:+ cidrSuffix address +:+ dropped
    /\ isEmpty dropped = (countByte "/" address <=? 1)%nat.
Proof.
  unfold addressBody, cidrSuffix.
  rewrite (afterFirst_countByte "/" address).
  destruct (afterFirst "/" address) as [rest|] eqn:E.
  - rewrite (afterFirst_countByte "/" rest).
    destruct (afterFirst "/" rest) as [rest2|] eqn:E2.
    + exists (String "/" rest2). split; [|reflexivity].
      rewrite (upTo_afterFirst _ _ _ E) at 1. f_equal.
      rewrite app_cons, app_empty_l, app_cons. f_equal.
      now apply upTo_afterFirst.
    + exists "". split; [|reflexivity].
      rewrite (upTo_none _ _ E2), app_empty_r, app_cons, app_empty_l.
      now apply upTo_afterFirst.
  - exists "". split; [|reflexivity].
    now rewrite (upTo_none _ _ E), !app_empty_r.
Qed.

Lemma SimpleConcatAddress_eq (addressPart prefix : string) :
  SimpleConcatAddress addressPart prefix =
  if isEmpty prefix then addressPart
  else TrimRight prefix ":" +:+ ":" +:+ addressBody addressPart +:+ cidrSuffix addressPart.
Proof.
  unfold SimpleConcatAddress, addressBody, cidrSuffix.
  destruct (isEmpty prefix); [reflexivity|].
  destruct (Contains addressPart "/") eqn:E.
  - destruct (Split_slash_two _ E) as (rest & Hr & H0 & H1).
    now rewrite Hr, H0, H1.
  - rewrite Contains_byte in E.
    destruct (afterFirst "/" addressPart) eqn:E2; [discriminate|].
    now rewrite (upTo_none _ _ E2).
Qed.

Lemma SimpleConcatAddress_empty (addressPart prefix : string) :
  SimpleConcatAddress addressPart prefix = "" -> addressPart = "" /\ prefix = "".
Proof.
  rewrite SimpleConcatAddress_eq. destruct prefix as [|c p]; cbn [isEmpty].
  - now intros ->.
  - intros H. apply (f_equal String.length) in H.
    rewrite !length_append in H. simpl in H. lia.
Qed.

Lemma foldl_generateStep (n : Netmap6) (interfaceName : string)
    (maps : list MapPair) (rules : list string) :
  foldl (generateStep n interfaceName) rules maps
  = rules ++ flat_map (pairRules n interfaceName) maps.
Proof.
  revert rules. induction maps as [|m maps IH]; intros rules; simpl.
  - now rewrite app_nil_r.
  - rewrite IH. unfold generateStep, pairRules.
    destruct (isEmpty (Public m) || isEmpty (Private m)); [reflexivity|].
    now rewrite <- app_assoc.
Qed.

Lemma GenerateIp6tablesRules_flat_map (n : Netmap6) (interfaceName : string) :
  GenerateIp6tablesRules n interfaceName =
  if Enabled n && negb (isEmpty interfaceName)
  then flat_map (pairRules n interfaceName) (Maps n)
  else [].
Proof.
  unfold GenerateIp6tablesRules.
  destruct (Enabled n), (isEmpty interfaceName); simpl; try reflexivity.
  now rewrite foldl_generateStep.
Qed.

Lemma pairRules_complete (n : Netmap6) (interfaceName : string) (m : MapPair) :
  pairRules n interfaceName m =
  if complete m
  then [ postroutingRule interfaceName
           (SimpleConcatAddress (Private m) (PfxPriv n))
           (SimpleConcatAddress (Public m) (PfxPub n));
         preroutingRule interfaceName
           (SimpleConcatAddress (Public m) (PfxPub n))
           (SimpleConcatAddress (Private m) (PfxPriv n)) ]
  else [].
Proof.
  unfold pairRules, complete.
  now destruct (isEmpty (Public m)), (isEmpty (Private m)).
Qed.

Lemma flat_map_pairRules_length (n : Netmap6) (interfaceName : string)
    (maps : list MapPair) :
  length (flat_map (pairRules n interfaceName) maps)
  = (2 * length (List.filter complete maps))%nat.
Proof.
  induction maps as [|m maps IH]; [reflexivity|].
  cbn [flat_map List.filter]. rewrite length_app, IH, pairRules_complete.
  destruct (complete m); simpl; lia.
Qed.

Lemma foldl_radvStep (n : Netmap6) (maps : list MapPair) (routes : list RadvRoute) :
  foldl (radvStep n) routes maps = routes ++ foldl (radvStep n) [] maps.
Proof.
  revert routes. induction maps as [|m maps IH]; intros routes; simpl.
  - now rewrite app_nil_r.
  - rewrite IH. rewrite (IH (radvStep n [] m)). rewrite app_assoc. f_equal.
    unfold radvStep. destruct (Radv m); [|now rewrite app_nil_r].
    destruct (isValidIPv6Address _); [reflexivity|now rewrite app_nil_r].
Qed.

Lemma GetRadvRoutes_app (n : Netmap6) (maps1 maps2 : list MapPair) :
  GetRadvRoutes (withMaps n (maps1 ++ maps2))
  = GetRadvRoutes (withMaps n maps1) ++ GetRadvRoutes (withMaps n maps2).
Proof.
  unfold GetRadvRoutes. cbn [withMaps Enabled Maps].
  destruct (Enabled n); [|reflexivity]. cbn [negb].
  rewrite foldl_app. apply (foldl_radvStep (withMaps n (maps1 ++ maps2))).
Qed.

Lemma checkSegments_Forall (segments : list string) :
  checkSegments segments = true
  <-> Forall (fun segment => (String.length segment <= 4)%nat /\ allHex segment = true)
             segments.
Proof.
  induction segments as [|seg segs IH]; cbn [checkSegments].
  - split; [constructor|reflexivity].
  - destruct seg as [|c seg']; cbn [isEmpty].
    + rewrite IH. split; intros H.
      * constructor; [split; [simpl; lia|reflexivity]|exact H].
      * now inversion H.
    + destruct (4 <? String.length (String c seg'))%nat eqn:E.
      * split; [discriminate|]. intros H. inversion H as [|? ? [Hl _] _]; subst.
        apply Nat.ltb_lt in E. lia.
      * apply Nat.ltb_ge in E.
        destruct (allHex (String c seg')) eqn:Eh; cbn [negb].
        -- rewrite IH. split; intros H.
           ++ constructor; [split; [exact E|exact Eh]|exact H].
           ++ now inversion H.
        -- split; [discriminate|]. intros H. inversion H as [|? ? [_ Hh] _]. congruence.
Qed.

Lemma isValidIPv6AddressFormat_iff (ipPart : string) :
  isValidIPv6AddressFormat ipPart = true <-> validFormat ipPart.
Proof.
  unfold isValidIPv6AddressFormat, validFormat.
  destruct (Contains ipPart ":"); cbn [negb];
    [|split; [discriminate|intros (H & _); discriminate]].
  destruct (Contains ipPart ":::");
    [split; [discriminate|intros (_ & H & _); discriminate]|].
  destruct (1 <? Count ipPart "::")%nat eqn:E1.
  { apply Nat.ltb_lt in E1. split; [discriminate|intros (_ & _ & H & _); lia]. }
  apply Nat.ltb_ge in E1.
  destruct (Contains ipPart "::").
  - destruct (7 <? nonEmptyCount (Split ipPart ":"))%nat eqn:E3.
    { apply Nat.ltb_lt in E3. split; [discriminate|intros (_ & _ & _ & H & _); lia]. }
    apply Nat.ltb_ge in E3. rewrite checkSegments_Forall.
    split; [intros H; repeat split; assumption|intros (_ & _ & _ & _ & H); exact H].
  - destruct (length (Split ipPart ":") =? 8)%nat eqn:E3; cbn [negb].
    + apply Nat.eqb_eq in E3. rewrite checkSegments_Forall.
      split; [intros H; repeat split; assumption|intros (_ & _ & _ & _ & H); exact H].
    + apply Nat.eqb_neq in E3.
      split; [discriminate|intros (_ & _ & _ & H & _); congruence].
Qed.

Lemma Split_byte_length (c : ascii) (s : string) :
  (1 <= length (Split s (String c "")))%nat.
Proof.
  rewrite Split_byte. destruct (afterFirst c s); simpl; lia.
Qed.

Lemma Split_slash_parts (addr rest : string) :
  afterFirst "/" addr = Some rest ->
  (length (Split addr "/") =? 2)%nat = (countByte "/" rest =? 0)%nat
  /\ nth 0 (Split addr "/") "" = upTo "/" addr
  /\ (countByte "/" rest = 0%nat -> nth 1 (Split addr "/") "" = rest).
Proof.
  intros H. rewrite (Split_byte "/" addr), H. cbn [length nth].
  rewrite (afterFirst_countByte "/" rest), (Split_byte "/" rest).
  destruct (afterFirst "/" rest) as [rest2|] eqn:E.
  - pose proof (Split_byte_length "/" rest2) as Hl.
    split; [|split; [reflexivity|discriminate]].
    cbn [length]. apply Nat.eqb_neq. lia.
  - split; [reflexivity|]. split; reflexivity.
Qed.

Lemma isValidIPv6Address_iff (addr : string) :
  isValidIPv6Address addr = true <-> validAmended addr.
Proof.
  unfold isValidIPv6Address, validAmended.
  destruct (isEmpty addr) eqn:Ee.
  { apply isEmpty_true in Ee. subst addr.
    split; [discriminate|intros (_ & H & _); discriminate]. }
  rewrite Contains_byte.
  destruct (afterFirst "/" addr) as [rest|] eqn:E.
  - destruct (Split_slash_parts _ _ E) as (Hlen & H0 & H1).
    rewrite Hlen, H0.
    destruct (countByte "/" rest =? 0)%nat eqn:Ec; cbn [negb].
    + apply Nat.eqb_eq in Ec. rewrite (H1 Ec).
      destruct (Atoi rest) as [pl|] eqn:Ea.
      * destruct ((pl <? 0) || (128 <? pl))%Z eqn:Er.
        -- split; [discriminate|]. intros ((_ & pl' & [= <-] & Hr) & _).
           apply orb_true_iff in Er as [Er|Er]; apply Z.ltb_lt in Er; lia.
        -- apply orb_false_iff in Er as [Er1 Er2].
           apply Z.ltb_ge in Er1, Er2.
           rewrite isValidIPv6AddressFormat_iff. unfold addressBody.
           split; [intros H; split; [split; [exact Ec|exists pl; split; [reflexivity|lia]]|exact H]
                  |intros (_ & H); exact H].
      * split; [discriminate|]. intros ((_ & pl' & Hp & _) & _). discriminate.
    + apply Nat.eqb_neq in Ec. split; [discriminate|]. intros ((Hc & _) & _). congruence.
  - rewrite isValidIPv6AddressFormat_iff. unfold addressBody.
    rewrite (upTo_none _ _ E). split; [intros H; split; [exact I|exact H]|intros (_ & H); exact H].
Qed.

Lemma valid_colon_runs (addr : string) :
  isValidIPv6Address addr = true ->
  Contains addr ":::" = false /\ (Count addr "::" <= 1)%nat.
Proof.
  intros H. apply isValidIPv6Address_iff in H. destruct H as (Hs & _ & H3 & Hc & _).
  unfold addressBody in *.
  destruct (afterFirst "/" addr) as [rest|] eqn:E.
  - destruct Hs as (_ & pl & Ha & _). apply Atoi_no_colon in Ha.
    rewrite (upTo_afterFirst _ _ _ E).
    rewrite Contains_app_byte, Count_app_byte by (reflexivity || discriminate).
    rewrite H3. unfold Contains at 1.
    rewrite (Count_unfold rest) by discriminate.
    rewrite !Cut_absent by exact Ha. split; [reflexivity|lia].
  - rewrite (upTo_none _ _ E) in *. now split.
Qed.

Lemma foldl_radvStep_valid (n : Netmap6) (maps : list MapPair) (routes : list RadvRoute) :
  Forall (fun route => isValidIPv6Address (Prefix route) = true) routes ->
  Forall (fun route => isValidIPv6Address (Prefix route) = true)
         (foldl (radvStep n) routes maps).
Proof.
  revert routes. induction maps as [|m maps IH]; intros routes H; [exact H|].
  cbn [foldl]. apply IH. unfold radvStep.
  destruct (Radv m) as [radv|]; [|exact H].
  destruct (isValidIPv6Address (SimpleConcatAddress (Public m) (PfxPub n))) eqn:E; [|exact H].
  apply Forall_app. split; [exact H|]. constructor; [exact E|constructor].
Qed.

End Netmap6Facts.

Section Netmap6Claims.
Import netmap6.

(** C5: address expansion.  With an empty prefix the address is returned
    unchanged; otherwise the result is the prefix without its trailing
    colons, a colon, the address body and the CIDR suffix.  The trailing run
    of colons is all that is removed from the prefix; body and suffix make
    up the address again whenever it has at most one slash.  Being a
    function of its two arguments, expansion gives the same string on every
    call; on "20:0:0/96" under "2001:db8:1::" the suffix /96 is kept. *)
Theorem SimpleConcatAddress_expansion :
  forall addressPart prefix : string,
    SimpleConcatAddress addressPart prefix =
      (if isEmpty prefix then addressPart
       else TrimRight prefix ":" +:+ ":" +:+ addressBody addressPart
              +:+ cidrSuffix addressPart)
    /\ (exists k, prefix = TrimRight prefix ":" +:+ colons k
                  /\ endsWith ":" (TrimRight prefix ":") = false)
    /\ (exists dropped,
          addressPart = addressBody addressPart +:+ cidrSuffix addressPart +:+ dropped
          /\ isEmpty dropped = (countByte "/" addressPart <=? 1)%nat)
    /\ SimpleConcatAddress "20:0:0/96" "2001:db8:1::" = "2001:db8:1:20:0:0/96".
Proof.
  intros addressPart prefix. split; [apply SimpleConcatAddress_eq|].
  split; [apply TrimRight_colons|].
  split; [apply body_suffix_split|reflexivity].
Qed.

(** C7: for an enabled mapping set and a non-empty interface name the rule
    compiler emits, pair by pair in order, the outbound (POSTROUTING) rule
    and then the inbound (PREROUTING) rule of every pair whose public and
    private addresses are both non-empty, and nothing for the other pairs;
    so it emits two rules per complete pair.  A disabled set or an empty
    interface name gives the empty list.  The function has a result on
    every input: no pair raises an error. *)
Theorem GenerateIp6tablesRules_two_per_pair :
  forall (n : Netmap6) (interfaceName : string),
    GenerateIp6tablesRules n interfaceName =
      (if Enabled n && negb (isEmpty interfaceName)
       then flat_map
              (fun mapping =>
                 if negb (isEmpty (Public mapping)) && negb (isEmpty (Private mapping))
                 then [ postroutingRule interfaceName
                          (SimpleConcatAddress (Private mapping) (PfxPriv n))
                          (SimpleConcatAddress (Public mapping) (PfxPub n));
                        preroutingRule interfaceName
                          (SimpleConcatAddress (Public mapping) (PfxPub n))
                          (SimpleConcatAddress (Private mapping) (PfxPriv n)) ]
                 else [])
              (Maps n)
       else [])
    /\ length (GenerateIp6tablesRules n interfaceName) =
       (if Enabled n && negb (isEmpty interfaceName)
        then 2 * length (List.filter complete (Maps n))
        else 0)%nat
    /\ GenerateIp6tablesRules
         (samples.shippedSet [samples.emptyPair; samples.shippedPair]) "pub1a"
       = [ "ip6tables -t nat -A POSTROUTING -o pub1a -s b30::20:20:0:0/96 -j NETMAP --to 2001:db8:1:::25:0:0/96";
           "ip6tables -t nat -A PREROUTING -i pub1a -d 2001:db8:1:::25:0:0/96 -j NETMAP --to b30::20:20:0:0/96" ].
Proof.
  intros n interfaceName. rewrite GenerateIp6tablesRules_flat_map.
  split; [|split; [|reflexivity]].
  - destruct (Enabled n && negb (isEmpty interfaceName)); [|reflexivity].
    apply flat_map_ext. intros m. apply pairRules_complete.
  - destruct (Enabled n && negb (isEmpty interfaceName)); [|reflexivity].
    apply flat_map_pairRules_length.
Qed.

(** C8, counterexample: the first pair of the shipped configuration expands
    to a public address that fails structural validation (it contains
    ":::"), and the rule compiler still emits both of its rules. *)
Lemma GenerateIp6tablesRules_keeps_invalid_pair :
  isValidIPv6Address
    (SimpleConcatAddress (Public samples.shippedPair)
                         (PfxPub (samples.shippedSet [samples.shippedPair]))) = false
  /\ GenerateIp6tablesRules (samples.shippedSet [samples.shippedPair]) "pub1a"
     = [ "ip6tables -t nat -A POSTROUTING -o pub1a -s b30::20:20:0:0/96 -j NETMAP --to 2001:db8:1:::25:0:0/96";
         "ip6tables -t nat -A PREROUTING -i pub1a -d 2001:db8:1:::25:0:0/96 -j NETMAP --to b30::20:20:0:0/96" ]
  /\ GenerateIp6tablesRules (samples.shippedSet []) "pub1a" = [].
Proof. repeat split; reflexivity. Qed.

(** C8, amended: the rule compiler drops every pair whose public or
    private address is empty, whatever the prefixes are; this covers every
    pair with an empty expanded address, since an expansion is empty only
    when the address is.  A pair with both addresses non-empty keeps its two
    rules whatever structural validation says of the expanded values.
    Structural validation is applied to advertisement routes only: a pair
    whose expanded public address fails it contributes no route.  Neither
    case is an error. *)
Theorem GenerateIp6tablesRules_drops_empty_only
    (n : Netmap6) (interfaceName : string)
    (before after : list MapPair) (mapping : MapPair) :
  Maps n = before ++ mapping :: after ->
  (Public mapping = "" \/ Private mapping = "" ->
   GenerateIp6tablesRules n interfaceName
   = GenerateIp6tablesRules (withMaps n (before ++ after)) interfaceName)
  /\ (SimpleConcatAddress (Public mapping) (PfxPub n) = ""
      \/ SimpleConcatAddress (Private mapping) (PfxPriv n) = "" ->
      Public mapping = "" \/ Private mapping = "")
  /\ (Public mapping <> "" -> Private mapping <> "" ->
      Enabled n = true -> interfaceName <> "" ->
      GenerateIp6tablesRules n interfaceName
      = GenerateIp6tablesRules (withMaps n before) interfaceName
        ++ [ postroutingRule interfaceName
               (SimpleConcatAddress (Private mapping) (PfxPriv n))
               (SimpleConcatAddress (Public mapping) (PfxPub n));
             preroutingRule interfaceName
               (SimpleConcatAddress (Public mapping) (PfxPub n))
               (SimpleConcatAddress (Private mapping) (PfxPriv n)) ]
        ++ GenerateIp6tablesRules (withMaps n after) interfaceName)
  /\ (isValidIPv6Address (SimpleConcatAddress (Public mapping) (PfxPub n)) = false ->
      GetRadvRoutes n = GetRadvRoutes (withMaps n (before ++ after))).
Proof.
  intros HM.
  assert (Hn : n = withMaps n (before ++ mapping :: after))
    by (destruct n; cbn in *; now subst).
  split; [|split; [|split]].
  - intros Hempty.
    rewrite !GenerateIp6tablesRules_flat_map, HM. cbn [withMaps Enabled Maps].
    destruct (Enabled n && negb (isEmpty interfaceName)); [|reflexivity].
    rewrite !flat_map_app. cbn [flat_map]. f_equal.
    assert (Hp : pairRules n interfaceName mapping = []).
    { unfold pairRules.
      destruct Hempty as [->| ->]; cbn [isEmpty]; [reflexivity|].
      now rewrite orb_true_r. }
    now rewrite Hp.
  - intros [H|H]; apply SimpleConcatAddress_empty in H as [H _]; [now left|now right].
  - intros Hpub Hpriv Hen Hif.
    rewrite !GenerateIp6tablesRules_flat_map, HM. cbn [withMaps Enabled Maps].
    rewrite Hen. apply isEmpty_false in Hif. rewrite Hif. cbn [andb negb].
    rewrite flat_map_app. cbn [flat_map]. f_equal.
    rewrite pairRules_complete. unfold complete.
    apply isEmpty_false in Hpub, Hpriv. now rewrite Hpub, Hpriv.
  - intros Hbad. rewrite Hn at 1.
    change (before ++ mapping :: after) with (before ++ [mapping] ++ after).
    rewrite !GetRadvRoutes_app.
    assert (Hm : GetRadvRoutes (withMaps n [mapping]) = []).
    { unfold GetRadvRoutes. cbn [withMaps Enabled Maps].
      destruct (Enabled n); [|reflexivity]. cbn [negb foldl].
      unfold radvStep. cbn [withMaps PfxPub]. destruct (Radv mapping); [|reflexivity].
      now rewrite Hbad. }
    now rewrite Hm.
Qed.

(** The amended C8 at the shipped mapping set extended by a pair without
    public address and an announced pair.  The pair without public address
    is dropped although it expands, under the public prefix, to the
    non-empty text "2001:db8:1:"; the announced pair keeps its two rules
    and, its expanded public address being invalid, gets no route. *)
Lemma GenerateIp6tablesRules_drops_empty_only_witness :
  SimpleConcatAddress (Public samples.emptyPair)
    (PfxPub (samples.shippedSet
               [samples.shippedPair; samples.emptyPair; samples.announcedPair]))
  = "2001:db8:1:"
  /\ GenerateIp6tablesRules
       (samples.shippedSet [samples.shippedPair; samples.emptyPair; samples.announcedPair])
       "pub1a"
     = GenerateIp6tablesRules
         (withMaps
            (samples.shippedSet
               [samples.shippedPair; samples.emptyPair; samples.announcedPair])
            ([samples.shippedPair] ++ [samples.announcedPair]))
         "pub1a"
  /\ GenerateIp6tablesRules
       (samples.shippedSet [samples.shippedPair; samples.emptyPair; samples.announcedPair])
       "pub1a"
     = GenerateIp6tablesRules
         (withMaps
            (samples.shippedSet
               [samples.shippedPair; samples.emptyPair; samples.announcedPair])
            [samples.shippedPair; samples.emptyPair])
         "pub1a"
       ++ [ postroutingRule "pub1a" "b30::20:22:0:0/96" "2001:db8:1:::25:0:0/96";
            preroutingRule "pub1a" "2001:db8:1:::25:0:0/96" "b30::20:22:0:0/96" ]
       ++ []
  /\ GetRadvRoutes
       (samples.shippedSet [samples.shippedPair; samples.emptyPair; samples.announcedPair])
     = [].
Proof.
  pose proof (GenerateIp6tablesRules_drops_empty_only
                (samples.shippedSet
                   [samples.shippedPair; samples.emptyPair; samples.announcedPair])
                "pub1a" [samples.shippedPair] [samples.announcedPair]
                samples.emptyPair eq_refl) as (Hdrop & _).
  pose proof (GenerateIp6tablesRules_drops_empty_only
                (samples.shippedSet
                   [samples.shippedPair; samples.emptyPair; samples.announcedPair])
                "pub1a" [samples.shippedPair; samples.emptyPair] []
                samples.announcedPair eq_refl) as (_ & _ & Hkeep & Hroute).
  split; [reflexivity|]. split; [|split].
  - apply Hdrop. now left.
  - apply Hkeep; [discriminate|discriminate|reflexivity|discriminate].
  - rewrite Hroute; reflexivity.
Defined.

(** C6, counterexample: the address the specification itself expands to,
    2001:db8:1:20:0:0/96, has a separator, no compressed-zero marker, six
    segments of at most four hexadecimal characters and a CIDR suffix in
    range, and the validator rejects it: without a compressed-zero marker
    it wants exactly eight segments, not at most eight. *)
Lemma isValidIPv6Address_rejects_six_segments :
  specValid "2001:db8:1:20:0:0/96" = true
  /\ isValidIPv6Address "2001:db8:1:20:0:0/96" = false.
Proof. split; reflexivity. Qed.

(** C6, amended: the validator accepts an address iff its body (the text
    before a CIDR suffix) contains a colon, does not contain ":::", contains
    at most one "::", has at most 7 non-empty segments when it contains "::"
    and exactly 8 segments when it does not, every segment having at most 4
    characters, all hexadecimal, and the CIDR suffix, when there is one, is
    a single slash followed by an integer in 0..128.  In particular an
    address that contains ":::", more than one "::", or a segment longer
    than 4 characters is rejected, and every advertisement route that is
    generated carries a prefix the validator accepts. *)
Theorem isValidIPv6Address_structural :
  (forall addr : string, isValidIPv6Address addr = true <-> validAmended addr)
  /\ (forall addr : string,
        Contains addr ":::" = true
        \/ (1 < Count addr "::")%nat
        \/ (exists segment, In segment (Split (addressBody addr) ":")
                            /\ (4 < String.length segment)%nat) ->
        isValidIPv6Address addr = false)
  /\ (forall (n : Netmap6) (route : RadvRoute),
        In route (GetRadvRoutes n) -> isValidIPv6Address (Prefix route) = true).
Proof.
  split; [exact isValidIPv6Address_iff|]. split.
  - intros addr H. destruct (isValidIPv6Address addr) eqn:E; [exfalso|reflexivity].
    destruct H as [H|[H|(segment & Hin & Hlen)]].
    + apply valid_colon_runs in E as [E _]. congruence.
    + apply valid_colon_runs in E as [_ E]. lia.
    + apply isValidIPv6Address_iff in E as (_ & _ & _ & _ & _ & Hall).
      rewrite List.Forall_forall in Hall. apply Hall in Hin as [Hin _]. lia.
  - intros n route Hin. unfold GetRadvRoutes in Hin.
    destruct (Enabled n); cbn [negb] in Hin; [|destruct Hin].
    pose proof (foldl_radvStep_valid n (Maps n) [] (List.Forall_nil _)) as Hall.
    rewrite List.Forall_forall in Hall. now apply Hall.
Qed.

End Netmap6Claims.

(** ** Common-prefix inference (configmaker) *)

Section ConfigmakerFacts.
Import configmaker.

Lemma TrimPrefix_length (s prefix : string) :
  String.length (TrimPrefix s prefix)
  = if HasPrefix s prefix then (String.length s - String.length prefix)%nat
    else String.length s.
Proof.
  unfold TrimPrefix. destruct (HasPrefix s prefix); [|reflexivity].
  apply drop_bytes_length.
Qed.

Lemma TrimPrefix_le (s prefix : string) :
  (String.length (TrimPrefix s prefix) <= String.length s)%nat.
Proof. rewrite TrimPrefix_length. destruct (HasPrefix s prefix); lia. Qed.

Lemma candidate_length (segments : list string) (k : nat) :
  (1 <= String.length (candidate segments k))%nat.
Proof. unfold candidate. rewrite length_append. simpl. lia. Qed.

Lemma checkAddresses_flags (candidatePrefix : string) (addresses : list string)
    (hasReduction : bool) :
  (let '(allMatch, reduction) := checkAddresses candidatePrefix addresses hasReduction in
   allMatch && reduction)
  = forallb (fun addr => HasPrefix (cleanAddr addr) candidatePrefix) addresses
    && (hasReduction || existsb (reducesb candidatePrefix) addresses).
Proof.
  revert hasReduction. induction addresses as [|addr rest IH]; intros h.
  - simpl. now rewrite orb_false_r.
  - cbn [checkAddresses forallb existsb].
    destruct (HasPrefix (cleanAddr addr) candidatePrefix) eqn:E; cbn [negb andb];
      [|reflexivity].
    rewrite IH. f_equal. fold (reducesb candidatePrefix addr).
    destruct (reducesb candidatePrefix addr), h; reflexivity.
Qed.

Lemma reducesb_reduces (candidatePrefix addr : string) :
  candidatePrefix <> "" ->
  HasPrefix (cleanAddr addr) candidatePrefix = true ->
  reducesb candidatePrefix addr = true <-> reduces candidatePrefix addr.
Proof.
  intros Hne Hp. unfold reducesb, reduces, removePrefix.
  apply isEmpty_false in Hne. rewrite Hne, Hp. cbn [negb orb].
  set (remaining := TrimPrefix (TrimPrefix (cleanAddr addr) candidatePrefix) ":").
  assert (Hlt : (String.length remaining < String.length (cleanAddr addr))%nat).
  { pose proof (TrimPrefix_le (TrimPrefix (cleanAddr addr) candidatePrefix) ":") as H1.
    pose proof (TrimPrefix_length (cleanAddr addr) candidatePrefix) as H2.
    rewrite Hp in H2. pose proof (HasPrefix_length _ _ Hp) as H3.
    destruct candidatePrefix; [discriminate|]. simpl in *. unfold remaining. lia. }
  rewrite andb_true_iff, Nat.ltb_lt, negb_true_iff, String.eqb_neq.
  split; [intros [H _]; lia|].
  intros [H _]. split; [exact H|]. intros Heq. rewrite Heq in Hlt. lia.
Qed.

Lemma accepted_iff (candidatePrefix : string) (addresses : list string) :
  candidatePrefix <> "" ->
  (let '(allMatch, reduction) := checkAddresses candidatePrefix addresses false in
   allMatch && reduction) = true
  <-> accepted candidatePrefix addresses.
Proof.
  intros Hne. rewrite checkAddresses_flags. cbn [orb].
  rewrite andb_true_iff, forallb_forall, existsb_exists. unfold accepted.
  split.
  - intros [Hall (addr & Hin & Hr)]. split; [exact Hall|].
    exists addr. split; [exact Hin|].
    now apply reducesb_reduces; [|apply Hall|].
  - intros [Hall (addr & Hin & Hr)]. split; [exact Hall|].
    exists addr. split; [exact Hin|].
    now apply reducesb_reduces; [|apply Hall|].
Qed.

Lemma candidate_nonempty (segments : list string) (k : nat) : candidate segments k <> "".
Proof.
  intros H. pose proof (candidate_length segments k) as Hl. rewrite H in Hl.
  simpl in Hl. lia.
Qed.

(** The loop returns the candidate of the greatest accepted length. *)
Lemma tryPrefixLen_longest (k : nat) (segments addresses : list string) :
  (tryPrefixLen k segments addresses = ""
   /\ forall j, (1 <= j <= k)%nat -> (j <= length segments)%nat ->
                ~ accepted (candidate segments j) addresses)
  \/ (exists j, (1 <= j <= k)%nat /\ (j <= length segments)%nat
        /\ tryPrefixLen k segments addresses = candidate segments j
        /\ accepted (candidate segments j) addresses
        /\ forall j', (j < j' <= k)%nat -> (j' <= length segments)%nat ->
                      ~ accepted (candidate segments j') addresses).
Proof.
  induction k as [|k IH].
  - left. split; [reflexivity|]. intros j Hj. lia.
  - cbn [tryPrefixLen].
    assert (Hstep : forall (P : nat -> Prop), ~ P (S k) ->
              forall lo, (forall j, (lo < j <= k)%nat -> (j <= length segments)%nat -> ~ P j) ->
              forall j, (lo < j <= S k)%nat -> (j <= length segments)%nat -> ~ P j).
    { intros P HS lo Hlo j Hj Hlen. destruct (Nat.eq_dec j (S k)) as [->|Hn];
        [exact HS|apply Hlo; [lia|exact Hlen]]. }
    destruct (S k <=? length segments)%nat eqn:El.
    + apply Nat.leb_le in El.
      pose proof (accepted_iff (candidate segments (S k)) addresses
                    (candidate_nonempty _ _)) as Hacc.
      destruct (checkAddresses (candidate segments (S k)) addresses false)
        as [allMatch reduction].
      destruct (allMatch && reduction) eqn:Eb.
      * right. exists (S k). split; [lia|]. split; [exact El|].
        split; [reflexivity|]. split; [now apply Hacc|]. intros j' Hj'. lia.
      * assert (Hno : ~ accepted (candidate segments (S k)) addresses).
        { intros Ha. apply Hacc in Ha. congruence. }
        destruct IH as [[Hr Hall]|(j & Hj & Hlen & Hr & Ha & Hall)].
        -- left. split; [exact Hr|].
           intros j Hj Hlen.
           apply (Hstep (fun j => accepted (candidate segments j) addresses) Hno 0%nat);
             [|lia|exact Hlen].
           intros j0 Hj0. apply Hall. lia.
        -- right. exists j. split; [lia|]. split; [exact Hlen|].
           split; [exact Hr|]. split; [exact Ha|].
           apply (Hstep (fun j => accepted (candidate segments j) addresses) Hno j Hall).
    + apply Nat.leb_gt in El.
      destruct IH as [[Hr Hall]|(j & Hj & Hlen & Hr & Ha & Hall)].
      * left. split; [exact Hr|]. intros j Hj Hlen.
        apply Hall; [lia|exact Hlen].
      * right. exists j. split; [lia|]. split; [exact Hlen|].
        split; [exact Hr|]. split; [exact Ha|].
        intros j' Hj' Hlen'. apply Hall; [lia|exact Hlen'].
Qed.

Lemma foldl_addresses (isPublic : bool) (mappings : list NetmapMapping)
    (addresses : list string) :
  foldl (fun addresses mapping =>
           addresses ++ [if isPublic then Public mapping else Private mapping])
        addresses mappings
  = addresses ++ addressesOf mappings isPublic.
Proof.
  revert addresses. induction mappings as [|m ms IH]; intros addresses; simpl.
  - now rewrite app_nil_r.
  - rewrite IH. now rewrite <- app_assoc.
Qed.

Lemma findCommonIPv6Prefix_eq (mappings : list NetmapMapping) (isPublic : bool) :
  findCommonIPv6Prefix mappings isPublic =
  match addressesOf mappings isPublic with
  | [] => ""
  | first :: _ =>
      tryPrefixLen 3 (Split (cleanAddr first) ":") (addressesOf mappings isPublic)
  end.
Proof.
  unfold findCommonIPv6Prefix. destruct mappings as [|m ms]; [reflexivity|].
  now rewrite foldl_addresses.
Qed.

Lemma accepted_proper_prefix (candidatePrefix : string) (addresses : list string) :
  accepted candidatePrefix addresses ->
  exists addr, In addr addresses
    /\ HasPrefix (cleanAddr addr) candidatePrefix = true
    /\ (String.length candidatePrefix < String.length (cleanAddr addr))%nat.
Proof.
  intros [Hall (addr & Hin & Hr)]. exists addr. split; [exact Hin|].
  pose proof (Hall _ Hin) as Hp. split; [exact Hp|].
  unfold reduces, removePrefix in Hr. rewrite Hp in Hr.
  destruct (isEmpty candidatePrefix) eqn:Ee; cbn [negb orb] in Hr; [lia|].
  pose proof (TrimPrefix_le (TrimPrefix (cleanAddr addr) candidatePrefix) ":") as H1.
  pose proof (TrimPrefix_length (cleanAddr addr) candidatePrefix) as H2.
  rewrite Hp in H2. lia.
Qed.

End ConfigmakerFacts.

Section ConfigmakerClaims.
Import configmaker.

(** C9, counterexample: for the addresses 1:: and 1::5 the inferred prefix
    is 1::, which is the first address in full. *)
Lemma findCommonIPv6Prefix_returns_full_address :
  findCommonIPv6Prefix [samples.publicOnly "1::"; samples.publicOnly "1::5"] true = "1::"
  /\ In "1::" (addressesOf [samples.publicOnly "1::"; samples.publicOnly "1::5"] true)
  /\ cleanAddr "1::" = "1::".
Proof. repeat split. now left. Qed.

(** C9, amended: common-prefix inference tests the candidates of 3, 2 and 1
    segments of the first address, in that order, and returns the first,
    hence longest, candidate such that every address (CIDR suffix removed)
    starts with it and, for at least one address, stripping it (and one
    further colon, if one follows) leaves a non-empty, strictly shorter
    remainder; it returns the empty string when no candidate qualifies.
    For 2001:db8:1:20:0:0, 2001:db8:1:21:0:0, 2001:db8:1:22:0:0 it returns
    2001:db8:1:.  A returned prefix is a proper prefix of at least one
    address; it can still be another address in full. *)
Theorem findCommonIPv6Prefix_longest_accepted :
  forall (mappings : list NetmapMapping) (isPublic : bool),
    let addresses := addressesOf mappings isPublic in
    let result := findCommonIPv6Prefix mappings isPublic in
    ((result = ""
      /\ forall k c, (1 <= k <= 3)%nat -> candidateOf addresses k = Some c ->
                     ~ accepted c addresses)
     \/ (exists k, (1 <= k <= 3)%nat
           /\ candidateOf addresses k = Some result
           /\ accepted result addresses
           /\ forall k' c, (k < k' <= 3)%nat -> candidateOf addresses k' = Some c ->
                           ~ accepted c addresses))
    /\ (result <> "" ->
        exists addr, In addr addresses
          /\ HasPrefix (cleanAddr addr) result = true
          /\ (String.length result < String.length (cleanAddr addr))%nat)
    /\ findCommonIPv6Prefix
         [samples.publicOnly "2001:db8:1:20:0:0"; samples.publicOnly "2001:db8:1:21:0:0";
          samples.publicOnly "2001:db8:1:22:0:0"] true = "2001:db8:1:".
Proof.
  intros mappings isPublic addresses result.
  assert (Hmain :
    (result = ""
      /\ forall k c, (1 <= k <= 3)%nat -> candidateOf addresses k = Some c ->
                     ~ accepted c addresses)
     \/ (exists k, (1 <= k <= 3)%nat
           /\ candidateOf addresses k = Some result
           /\ accepted result addresses
           /\ forall k' c, (k < k' <= 3)%nat -> candidateOf addresses k' = Some c ->
                           ~ accepted c addresses)).
  { subst result. rewrite findCommonIPv6Prefix_eq. fold addresses.
    unfold candidateOf. destruct addresses as [|first rest] eqn:Ea.
    - left. split; [reflexivity|]. intros k c _ H. discriminate.
    - rewrite <- Ea.
      destruct (tryPrefixLen_longest 3 (Split (cleanAddr first) ":") addresses)
        as [[Hr Hall]|(j & Hj & Hlen & Hr & Ha & Hall)].
      + left. split; [exact Hr|]. intros k c Hk Hc.
        destruct (k <=? length (Split (cleanAddr first) ":"))%nat eqn:El; [|discriminate].
        injection Hc as <-. apply Nat.leb_le in El. now apply Hall.
      + right. exists j. split; [exact Hj|].
        split; [apply Nat.leb_le in Hlen; now rewrite Hlen, Hr|].
        split; [now rewrite Hr|]. intros k' c Hk' Hc.
        destruct (k' <=? length (Split (cleanAddr first) ":"))%nat eqn:El; [|discriminate].
        injection Hc as <-. apply Nat.leb_le in El. now apply Hall. }
  split; [exact Hmain|]. split; [|reflexivity].
  intros Hne. destruct Hmain as [[Hr _]|(k & _ & _ & Ha & _)]; [congruence|].
  now apply accepted_proper_prefix.
Qed.

End ConfigmakerClaims.

(** ** Keys, differences and traces *)

Section KeyFacts.

Lemma keyIn_In (k : string) (keys : list string) : keyIn k keys = true <-> In k keys.
Proof.
  unfold keyIn. rewrite existsb_exists. split.
  - intros (x & Hin & He). apply String.eqb_eq in He. now subst.
  - intros H. exists k. split; [exact H|apply String.eqb_refl].
Qed.

Lemma keyIn_false (k : string) (keys : list string) : keyIn k keys = false <-> ~ In k keys.
Proof.
  rewrite <- keyIn_In. destruct (keyIn k keys); split; congruence.
Qed.

Lemma lookup_foldl_insert_true (items : list string) (m : gmap string bool) (k : string) :
  lookup k (foldl (fun set item => insert item true set) m items)
  = if keyIn k items then Some true else lookup k m.
Proof.
  revert m. induction items as [|x xs IH]; intros m; [reflexivity|].
  cbn [foldl]. rewrite IH. unfold keyIn. cbn [existsb].
  fold (keyIn k xs). destruct (keyIn k xs); [now rewrite orb_true_r|].
  rewrite orb_false_r. destruct (String.eqb k x) eqn:E.
  - apply String.eqb_eq in E. subst x. apply lookup_insert_eq.
  - apply String.eqb_neq in E. apply lookup_insert_ne. congruence.
Qed.

(** Every key of the two lists is in exactly one of: the first difference,
    the second difference, both lists. *)
Lemma keys_partition (A B : list string) (k : string) :
  In k A \/ In k B ->
  let inX := In k A /\ ~ In k B in
  let inY := In k B /\ ~ In k A in
  let inBoth := In k A /\ In k B in
  (inX /\ ~ inY /\ ~ inBoth) \/ (~ inX /\ inY /\ ~ inBoth) \/ (~ inX /\ ~ inY /\ inBoth).
Proof.
  intros H. cbn zeta.
  assert (HA : In k A \/ ~ In k A)
    by (destruct (keyIn k A) eqn:E; [left; now apply keyIn_In|right; now apply keyIn_false]).
  assert (HB : In k B \/ ~ In k B)
    by (destruct (keyIn k B) eqn:E; [left; now apply keyIn_In|right; now apply keyIn_false]).
  tauto.
Qed.

Lemma executed_invocations (rule : string) (ev : list event) (err : option string) :
  executed rule ev err -> invocations ev = argvs [rule].
Proof.
  unfold argvs. cbn [flat_map]. rewrite app_nil_r.
  intros [H|output H|output e H].
  - now rewrite H.
  - destruct (Fields rule); [congruence|reflexivity].
  - destruct (Fields rule); [congruence|reflexivity].
Qed.

Lemma invocations_app (tr1 tr2 : list event) :
  invocations (tr1 ++ tr2) = invocations tr1 ++ invocations tr2.
Proof. unfold invocations. now rewrite List.filter_app, map_app. Qed.

Lemma argvs_cons (rule : string) (rules : list string) :
  argvs (rule :: rules) = argvs [rule] ++ argvs rules.
Proof. unfold argvs. cbn [flat_map]. now rewrite app_nil_r. Qed.

Lemma argvs_app (rules1 rules2 : list string) :
  argvs (rules1 ++ rules2) = argvs rules1 ++ argvs rules2.
Proof. unfold argvs. apply flat_map_app. Qed.

End KeyFacts.

(** ** The netmap applier (netmapmanager) *)

Section NetmapmanagerFacts.
Import netmapmanager.

Lemma normalizeRules_map (rules : list string) :
  normalizeRules rules = map normalizeRule rules.
Proof.
  unfold normalizeRules.
  assert (H : forall acc, foldl (fun normalized rule => normalized ++ [normalizeRule rule])
                                acc rules = acc ++ map normalizeRule rules).
  { induction rules as [|r rs IH]; intros acc; simpl; [now rewrite app_nil_r|].
    rewrite IH. now rewrite <- app_assoc. }
  apply (H []).
Qed.

Lemma member_makeSet (items : list string) (k : string) :
  member (makeSet items) k = keyIn k items.
Proof.
  unfold member, makeSet. rewrite lookup_foldl_insert_true.
  destruct (keyIn k items); [reflexivity|]. now rewrite lookup_empty.
Qed.

Lemma smartLoop_filter (normalizedSet : gmap string bool) (done rest result : list string) :
  smartLoop normalizedSet (done ++ rest) (length done) (map normalizeRule rest) result
  = Some (result ++ List.filter (fun r => negb (member normalizedSet (normalizeRule r))) rest).
Proof.
  revert done result. induction rest as [|r rest IH]; intros done result.
  - simpl. now rewrite app_nil_r.
  - cbn [map smartLoop List.filter].
    rewrite list_lookup_middle by reflexivity.
    assert (Hnext : done ++ r :: rest = (done ++ [r]) ++ rest) by now rewrite <- app_assoc.
    assert (Hlen : S (length done) = length (done ++ [r])) by (rewrite length_app; simpl; lia).
    destruct (member normalizedSet (normalizeRule r)); cbn [negb].
    + rewrite Hnext, Hlen. apply IH.
    + rewrite Hnext, Hlen, IH. now rewrite <- app_assoc.
Qed.

(** [smartDifference] as [ApplyNetmapRules] calls it never panics and keeps
    the rules whose key is missing on the other side. *)
Lemma smartDifference_missingFrom (rules others : list string) :
  smartDifference rules others (normalizeRules rules) (normalizeRules others)
  = Some (missingFrom rules others).
Proof.
  unfold smartDifference, missingFrom. rewrite !normalizeRules_map.
  rewrite (smartLoop_filter _ [] rules []). cbn [app]. f_equal.
  apply List.filter_ext. intros r. now rewrite member_makeSet.
Qed.

Lemma missingFrom_In (rules others : list string) (r : string) :
  In r (missingFrom rules others)
  <-> In r rules /\ ~ In (normalizeRule r) (map normalizeRule others).
Proof.
  unfold missingFrom. rewrite List.filter_In, negb_true_iff, keyIn_false. tauto.
Qed.

Section Traces.
Context {World : Type} (run : CombinedOutputFn World).

Lemma executeIp6tablesRule_executed (rule : string) (st : state World) :
  exists ev,
    trace (fst (executeIp6tablesRule run rule st)) = trace st ++ ev
    /\ executed rule ev (snd (executeIp6tablesRule run rule st)).
Proof.
  unfold executeIp6tablesRule. destruct (Fields rule) as [|p ps] eqn:E.
  - exists []. cbn [fst snd]. split; [now rewrite app_nil_r|now constructor].
  - destruct (run (p :: ps) (world st)) as [[w output] [e|]].
    + exists [Run (p :: ps) output (Some e)]. cbn [fst snd trace].
      split; [reflexivity|]. rewrite <- E. constructor. congruence.
    + exists [Run (p :: ps) output None]. cbn [fst snd trace].
      split; [reflexivity|]. rewrite <- E. constructor. congruence.
Qed.

Lemma removeRules_trace (rules : list string) (st : state World) :
  exists tr,
    trace (removeRules run rules st) = trace st ++ tr /\ removalTrace rules tr.
Proof.
  revert st. induction rules as [|rule rest IH]; intros st.
  - exists []. split; [now rewrite app_nil_r|constructor].
  - cbn [removeRules].
    destruct (executeIp6tablesRule_executed (toDelete rule) st) as (ev & Ht & He).
    destruct (executeIp6tablesRule run (toDelete rule) st) as [st1 [e|]];
      cbn [fst snd] in Ht, He.
    + destruct (IH (Printf (removeWarning (toDelete rule) e) st1)) as (tr & Ht' & Hr).
      exists (ev ++ Stdout (removeWarning (toDelete rule) e) :: tr).
      split; [|now apply removal_warned].
      rewrite Ht'. cbn [Printf trace]. rewrite Ht, <- !app_assoc. reflexivity.
    + destruct (IH st1) as (tr & Ht' & Hr).
      exists (ev ++ tr). split; [|now apply removal_ok].
      rewrite Ht', Ht. now rewrite <- app_assoc.
Qed.

Lemma addRules_trace (rules failedRules : list string) (st : state World) :
  exists tr failed,
    trace (fst (addRules run rules failedRules st)) = trace st ++ tr
    /\ snd (addRules run rules failedRules st) = failedRules ++ failed
    /\ additionTrace rules tr failed.
Proof.
  revert failedRules st. induction rules as [|rule rest IH]; intros failedRules st.
  - exists [], []. cbn [addRules fst snd]. rewrite !app_nil_r.
    split; [reflexivity|]. split; [reflexivity|constructor].
  - cbn [addRules].
    destruct (executeIp6tablesRule_executed rule st) as (ev & Ht & He).
    destruct (executeIp6tablesRule run rule st) as [st1 [e|]]; cbn [fst snd] in Ht, He.
    + destruct (IH (failedRules ++ [rule])
                   (Printf ("  Error details: " +:+ e +:+ newline)
                      (Printf ("Error: Failed to add netmap rule: " +:+ rule +:+ newline) st1)))
        as (tr & failed & Ht' & Hf & Ha).
      exists (ev ++ Stdout ("Error: Failed to add netmap rule: " +:+ rule +:+ newline)
                 :: Stdout ("  Error details: " +:+ e +:+ newline) :: tr), (rule :: failed).
      split; [|split; [|now apply addition_failed]].
      * rewrite Ht'. cbn [Printf trace]. rewrite Ht, <- !app_assoc. reflexivity.
      * rewrite Hf, <- app_assoc. reflexivity.
    + destruct (IH failedRules st1) as (tr & failed & Ht' & Hf & Ha).
      exists (ev ++ tr), failed.
      split; [|split; [exact Hf|now apply addition_ok]].
      rewrite Ht', Ht. now rewrite <- app_assoc.
Qed.

(** A pass of the netmap applier with at least one desired rule: the
    removal loop over the observed rules whose key is not desired, then the
    addition loop over the desired rules whose key is not observed, then
    the aggregate error if an addition failed. *)
Lemma ApplyNetmapRules_trace (currentRules newRules : list string) (st : state World) :
  newRules <> [] ->
  exists trR trA failed,
    trace (fst (ApplyNetmapRules run currentRules newRules st)) = trace st ++ trR ++ trA
    /\ removalTrace (missingFrom currentRules newRules) trR
    /\ additionTrace (missingFrom newRules currentRules) trA failed
    /\ snd (ApplyNetmapRules run currentRules newRules st)
       = Returned (match failed with
                   | [] => None
                   | _ => Some (aggregateError (length failed)
                                  (length (missingFrom newRules currentRules)))
                   end).
Proof.
  intros Hne. unfold ApplyNetmapRules.
  destruct newRules as [|r0 rs]; [congruence|]. cbn [length Nat.eqb].
  rewrite !smartDifference_missingFrom.
  set (toAdd := missingFrom (r0 :: rs) currentRules).
  set (toRemove := missingFrom currentRules (r0 :: rs)).
  destruct (removeRules_trace toRemove st) as (trR & HtR & HR).
  destruct (addRules_trace toAdd [] (removeRules run toRemove st))
    as (trA & failed & HtA & Hf & HA).
  destruct (addRules run toAdd [] (removeRules run toRemove st)) as [st2 failedRules].
  cbn [fst snd app] in HtA, Hf. subst failedRules.
  exists trR, trA, failed.
  destruct failed as [|f fs]; cbn [length Nat.ltb Nat.leb fst snd].
  - split; [now rewrite HtA, HtR, <- app_assoc|]. now split; [|split].
  - split; [now rewrite HtA, HtR, <- app_assoc|]. now split; [|split].
Qed.

End Traces.

Lemma removalTrace_invocations (rules : list string) (tr : list event) :
  removalTrace rules tr -> invocations tr = argvs (map toDelete rules).
Proof.
  induction 1 as [|rule rest ev tr He Hr IH|rule rest ev e tr He Hr IH].
  - reflexivity.
  - cbn [map]. rewrite argvs_cons, invocations_app, IH.
    now rewrite (executed_invocations _ _ _ He).
  - cbn [map]. rewrite argvs_cons, invocations_app.
    rewrite (executed_invocations _ _ _ He). f_equal. exact IH.
Qed.

Lemma additionTrace_invocations (rules : list string) (tr : list event) (failed : list string) :
  additionTrace rules tr failed ->
  invocations tr = argvs rules /\ (length failed <= length rules)%nat.
Proof.
  induction 1 as [|rule rest ev tr failed He Hr [IH1 IH2]
                  |rule rest ev e tr failed He Hr [IH1 IH2]].
  - split; [reflexivity|apply Nat.le_refl].
  - rewrite argvs_cons, invocations_app, IH1, (executed_invocations _ _ _ He).
    split; [reflexivity|]. simpl. lia.
  - rewrite argvs_cons, invocations_app, (executed_invocations _ _ _ He).
    split; [f_equal; exact IH1|]. simpl. lia.
Qed.

End NetmapmanagerFacts.

(** ** The NAT applier (natmanager) *)

Section NatmanagerFacts.
Import natmanager.

Lemma omap_cons_eq {A B : Type} (f : A -> option B) (x : A) (l : list A) :
  omap f (x :: l) = match f x with Some y => y :: omap f l | None => omap f l end.
Proof. reflexivity. Qed.

Lemma omap_pointwise {A B : Type} (f g : A -> option B) (l : list A) :
  (forall x, f x = g x) -> omap f l = omap g l.
Proof.
  intros H. induction l as [|x l IH]; [reflexivity|].
  now rewrite !omap_cons_eq, H, IH.
Qed.

Lemma difference_keysMissingFrom (slice1 slice2 : list string) :
  difference slice1 slice2 = keysMissingFrom slice1 slice2.
Proof.
  unfold difference, keysMissingFrom.
  assert (H : forall acc,
             foldl (fun result item =>
                      if negb (default false (lookup item (makeSet slice2)))
                      then result ++ [item] else result) acc slice1
             = acc ++ List.filter (fun k => negb (keyIn k slice2)) slice1).
  { induction slice1 as [|k ks IH]; intros acc; cbn [foldl List.filter];
      [now rewrite app_nil_r|].
    rewrite IH. unfold makeSet. rewrite lookup_foldl_insert_true, lookup_empty.
    destruct (keyIn k slice2); cbn [default negb]; [reflexivity|].
    now rewrite <- app_assoc. }
  apply (H []).
Qed.

Lemma keysMissingFrom_In (keys others : list string) (k : string) :
  In k (keysMissingFrom keys others) <-> In k keys /\ ~ In k others.
Proof.
  unfold keysMissingFrom. rewrite List.filter_In, negb_true_iff, keyIn_false. tauto.
Qed.

Lemma lookup_foldl_makeMap (rules : list string) (m : gmap string string) (k : string) :
  lookup k (foldl (fun m entry => insert (fst entry) (snd entry) m) m
                  (zip (map normalizeRule rules) rules))
  = match lastWithKey rules k with
    | Some r => Some r
    | None => lookup k m
    end.
Proof.
  revert m. induction rules as [|r rs IH]; intros m; [reflexivity|].
  cbn [map zip zip_with foldl lastWithKey fst snd]. rewrite IH.
  destruct (lastWithKey rs k); [reflexivity|].
  destruct (String.eqb (normalizeRule r) k) eqn:E.
  - apply String.eqb_eq in E. subst k. apply lookup_insert_eq.
  - apply String.eqb_neq in E. now apply lookup_insert_ne.
Qed.

(** The map from key to rule text holds, for every key, the last rule with
    that key. *)
Lemma makeMap_lastWithKey (rules : list string) (k : string) :
  lookup k (makeMap (map normalizeRule rules) rules) = lastWithKey rules k.
Proof.
  unfold makeMap. rewrite lookup_foldl_makeMap, lookup_empty.
  now destruct (lastWithKey rules k).
Qed.

Lemma lastWithKey_None (rules : list string) (k : string) :
  lastWithKey rules k = None <-> Forall (fun r => normalizeRule r <> k) rules.
Proof.
  induction rules as [|r rs IH]; cbn [lastWithKey].
  - split; [constructor|reflexivity].
  - destruct (lastWithKey rs k) as [r'|].
    + split; [discriminate|]. intros H. inversion H as [|? ? _ Hrs]; subst.
      apply IH in Hrs. discriminate.
    + destruct (String.eqb (normalizeRule r) k) eqn:E.
      * apply String.eqb_eq in E. split; [discriminate|].
        intros H. inversion H. congruence.
      * apply String.eqb_neq in E. split; [|reflexivity].
        intros _. constructor; [exact E|]. now apply IH.
Qed.

Lemma lastWithKey_Some (rules : list string) (k r : string) :
  lastWithKey rules k = Some r
  <-> exists earlier later,
        rules = earlier ++ r :: later
        /\ normalizeRule r = k
        /\ Forall (fun r' => normalizeRule r' <> k) later.
Proof.
  split.
  - revert r. induction rules as [|x rs IH]; intros r; [discriminate|].
    cbn [lastWithKey]. destruct (lastWithKey rs k) as [r'|] eqn:E.
    + intros [= <-]. destruct (IH r' eq_refl) as (earlier & later & -> & Hk & Hl).
      exists (x :: earlier), later. now split; [|split].
    + destruct (String.eqb (normalizeRule x) k) eqn:Ex; [|discriminate].
      intros [= <-]. apply String.eqb_eq in Ex.
      exists [], rs. split; [reflexivity|]. split; [exact Ex|].
      now apply lastWithKey_None.
  - intros (earlier & later & -> & Hk & Hl).
    induction earlier as [|x earlier IH].
    + cbn [app lastWithKey]. apply lastWithKey_None in Hl. rewrite Hl.
      apply String.eqb_eq in Hk. now rewrite Hk.
    + cbn [app lastWithKey]. now rewrite IH.
Qed.

Lemma lastWithKey_key (rules : list string) (k r : string) :
  lastWithKey rules k = Some r -> normalizeRule r = k /\ In r rules.
Proof.
  intros H. apply lastWithKey_Some in H as (earlier & later & -> & Hk & _).
  split; [exact Hk|]. apply in_or_app. right. now left.
Qed.

Lemma lastWithKey_present (rules : list string) (k : string) :
  In k (map normalizeRule rules) -> exists r, lastWithKey rules k = Some r.
Proof.
  intros H. destruct (lastWithKey rules k) as [r|] eqn:E; [now exists r|].
  apply lastWithKey_None in E. rewrite List.Forall_forall in E.
  apply in_map_iff in H as (r & Hr & Hin). now apply E in Hin.
Qed.

(** Every text handed to the executor is the last rule with its key, and a
    key is handed over once per occurrence. *)
Lemma textsFor_last (rules keys : list string) (r : string) :
  In r (textsFor rules keys) -> lastWithKey rules (normalizeRule r) = Some r.
Proof.
  unfold textsFor. induction keys as [|k ks IH]; [intros []|]. rewrite omap_cons_eq.
  destruct (lastWithKey rules k) as [r'|] eqn:E; [|exact IH].
  intros [<-|H]; [|now apply IH].
  apply lastWithKey_key in E as Hk. destruct Hk as [-> _]. exact E.
Qed.

Lemma textsFor_occurrences (rules keys : list string) (k : string) :
  (forall k', In k' keys -> In k' (map normalizeRule rules)) ->
  length (List.filter (fun r => String.eqb (normalizeRule r) k) (textsFor rules keys))
  = occurrences k keys.
Proof.
  unfold textsFor. induction keys as [|k0 ks IH]; intros Hin; [reflexivity|].
  rewrite omap_cons_eq. cbn [occurrences].
  destruct (lastWithKey_present rules k0) as (r & Hr); [apply Hin; now left|].
  rewrite Hr. cbn [List.filter].
  apply lastWithKey_key in Hr as [-> _].
  rewrite <- IH by (intros k' Hk'; apply Hin; now right).
  match goal with |- context [String.eqb ?a k] => destruct (String.eqb a k) end;
    reflexivity.
Qed.

Section Traces.
Context {World : Type} (run : CombinedOutputFn World) (QuietMode : bool).

Lemma executeIptablesRule_executed (rule : string) (st : state World) :
  exists ev,
    trace (fst (executeIptablesRule run rule st)) = trace st ++ ev
    /\ executed rule ev (snd (executeIptablesRule run rule st)).
Proof.
  unfold executeIptablesRule. destruct (Fields rule) as [|p ps] eqn:E.
  - exists []. cbn [fst snd]. split; [now rewrite app_nil_r|now constructor].
  - destruct (run (p :: ps) (world st)) as [[w output] [e|]].
    + exists [Run (p :: ps) output (Some e)]. cbn [fst snd trace].
      split; [reflexivity|]. rewrite <- E. constructor. congruence.
    + exists [Run (p :: ps) output None]. cbn [fst snd trace].
      split; [reflexivity|]. rewrite <- E. constructor. congruence.
Qed.

Lemma nat_removeRules_trace (removeMap : gmap string string) (keys : list string)
    (st : state World) :
  exists tr,
    trace (removeRules run QuietMode removeMap keys st) = trace st ++ tr
    /\ removalTrace QuietMode (omap (fun k => lookup k removeMap) keys) tr.
Proof.
  revert st. induction keys as [|k ks IH]; intros st.
  - exists []. split; [now rewrite app_nil_r|constructor].
  - cbn [removeRules]. rewrite omap_cons_eq.
    destruct (lookup k removeMap) as [origRule|]; [|apply IH].
    destruct (executeIptablesRule_executed (toDelete origRule) st) as (ev & Ht & He).
    destruct (executeIptablesRule run (toDelete origRule) st) as [st1 [e|]];
      cbn [fst snd] in Ht, He.
    + set (st2 := if negb QuietMode
                  then Printf ("Warning: failed to remove rule " +:+ toDelete origRule
                                 +:+ ": " +:+ e +:+ newline) st1
                  else st1).
      destruct (IH st2) as (tr & Ht' & Hr).
      eexists. split; [|apply (removal_failed _ _ _ _ _ _ He Hr)].
      rewrite Ht'. subst st2. destruct QuietMode; cbn [negb Printf trace];
        rewrite Ht, <- ?app_assoc; reflexivity.
    + destruct (IH st1) as (tr & Ht' & Hr).
      exists (ev ++ tr). split; [|now apply removal_ok].
      rewrite Ht', Ht. now rewrite <- app_assoc.
Qed.

Lemma nat_addRules_trace (addMap : gmap string string) (keys : list string)
    (st : state World) :
  exists tr,
    trace (fst (addRules run addMap keys st)) = trace st ++ tr
    /\ additionTrace (omap (fun k => lookup k addMap) keys) tr
         (snd (addRules run addMap keys st)).
Proof.
  revert st. induction keys as [|k ks IH]; intros st.
  - exists []. cbn [addRules fst snd]. split; [now rewrite app_nil_r|constructor].
  - cbn [addRules]. rewrite omap_cons_eq.
    destruct (lookup k addMap) as [origRule|]; [|apply IH].
    destruct (executeIptablesRule_executed origRule st) as (ev & Ht & He).
    destruct (executeIptablesRule run origRule st) as [st1 [e|]]; cbn [fst snd] in Ht, He.
    + exists ev. cbn [fst snd]. split; [exact Ht|now apply addition_aborted].
    + destruct (IH st1) as (tr & Ht' & Ha).
      exists (ev ++ tr). split; [|now apply addition_ok].
      rewrite Ht', Ht. now rewrite <- app_assoc.
Qed.

(** A pass of the NAT applier: the removal loop over the keys that are
    observed and not desired, then the addition loop over the keys that are
    desired and not observed, each key standing for the last rule that has
    it. *)
Lemma applyRuleChanges_trace (currentRules newRules : list string) (st : state World) :
  exists trR trA,
    trace (fst (applyRuleChanges run QuietMode currentRules newRules st))
    = trace st ++ trR ++ trA
    /\ removalTrace QuietMode
         (textsFor currentRules
            (keysMissingFrom (map normalizeRule currentRules) (map normalizeRule newRules)))
         trR
    /\ additionTrace
         (textsFor newRules
            (keysMissingFrom (map normalizeRule newRules) (map normalizeRule currentRules)))
         trA
         (snd (applyRuleChanges run QuietMode currentRules newRules st)).
Proof.
  unfold applyRuleChanges. rewrite !difference_keysMissingFrom.
  set (keysR := keysMissingFrom (map normalizeRule currentRules) (map normalizeRule newRules)).
  set (keysA := keysMissingFrom (map normalizeRule newRules) (map normalizeRule currentRules)).
  destruct (nat_removeRules_trace (makeMap (map normalizeRule currentRules) currentRules) keysR st)
    as (trR & HtR & HR).
  destruct (nat_addRules_trace (makeMap (map normalizeRule newRules) newRules) keysA
              (removeRules run QuietMode
                 (makeMap (map normalizeRule currentRules) currentRules) keysR st))
    as (trA & HtA & HA).
  exists trR, trA. split; [now rewrite HtA, HtR, <- app_assoc|].
  unfold textsFor. split.
  - rewrite <- (omap_pointwise _ _ keysR (makeMap_lastWithKey currentRules)). exact HR.
  - rewrite <- (omap_pointwise _ _ keysA (makeMap_lastWithKey newRules)). exact HA.
Qed.

End Traces.

Lemma nat_removalTrace_invocations (quiet : bool) (rules : list string) (tr : list event) :
  removalTrace quiet rules tr -> invocations tr = argvs (map toDelete rules).
Proof.
  induction 1 as [|rule rest ev tr He Hr IH|rule rest ev e tr He Hr IH].
  - reflexivity.
  - cbn [map]. rewrite argvs_cons, invocations_app, IH.
    now rewrite (executed_invocations _ _ _ He).
  - cbn [map]. rewrite argvs_cons, !invocations_app.
    rewrite (executed_invocations _ _ _ He), IH. f_equal.
    now destruct quiet.
Qed.

Lemma nat_removalTrace_quiet (rules : list string) (tr : list event) :
  removalTrace true rules tr -> printed tr = [].
Proof.
  assert (Hex : forall rule ev err, executed rule ev err -> printed ev = [])
    by (intros rule ev err [H|output H|output e H]; reflexivity).
  induction 1 as [|rule rest ev tr He Hr IH|rule rest ev e tr He Hr IH].
  - reflexivity.
  - unfold printed in *. now rewrite flat_map_app, (Hex _ _ _ He), IH.
  - unfold printed in *. cbn [app]. now rewrite flat_map_app, (Hex _ _ _ He), IH.
Qed.

(** The addition loop of the NAT applier executes the rules up to and
    including the first one that fails, and names that rule in its error. *)
Lemma nat_additionTrace_stops (rules : list string) (tr : list event) (err : option string) :
  additionTrace rules tr err ->
  match err with
  | None => invocations tr = argvs rules
  | Some message =>
      exists done rule rest e,
        rules = done ++ rule :: rest
        /\ invocations tr = argvs (done ++ [rule])
        /\ message = "failed to add rule " +:+ rule +:+ ": " +:+ e
  end.
Proof.
  induction 1 as [|rule rest ev tr err He Hr IH|rule rest ev e He].
  - reflexivity.
  - destruct err as [message|].
    + destruct IH as (done & rule' & rest' & e & -> & Hi & Hm).
      exists (rule :: done), rule', rest', e. split; [reflexivity|]. split; [|exact Hm].
      cbn [app]. now rewrite (argvs_cons rule), invocations_app, Hi,
                   (executed_invocations _ _ _ He).
    + now rewrite argvs_cons, invocations_app, IH, (executed_invocations _ _ _ He).
  - exists [], rule, rest, e. split; [reflexivity|]. split; [|reflexivity].
    apply (executed_invocations _ _ _ He).
Qed.

Lemma nat_additionTrace_split (rules : list string) (tr : list event) (err : option string) :
  additionTrace rules tr err ->
  match err with
  | None =>
      invocations tr = argvs rules /\ Forall (fun ev => failedRun ev = false) tr
  | Some message =>
      exists done rule rest e trDone ev,
        rules = done ++ rule :: rest
        /\ tr = trDone ++ ev
        /\ additionTrace done trDone None
        /\ executed rule ev (Some e)
        /\ invocations tr = argvs (done ++ [rule])
        /\ message = "failed to add rule " +:+ rule +:+ ": " +:+ e
  end.
Proof.
  induction 1 as [|rule rest ev tr err He Hr IH|rule rest ev e He].
  - split; [reflexivity|constructor].
  - destruct err as [message|].
    + destruct IH as (done & rule' & rest' & e & trDone & ev' & -> & -> & Hd & He' & Hi & Hm).
      exists (rule :: done), rule', rest', e, (ev ++ trDone), ev'.
      split; [reflexivity|]. split; [now rewrite <- app_assoc|].
      split; [now apply addition_ok|]. split; [exact He'|]. split; [|exact Hm].
      cbn [app]. now rewrite (argvs_cons rule), invocations_app, Hi,
                   (executed_invocations _ _ _ He).
    + destruct IH as [Hi Hf]. split.
      * now rewrite argvs_cons, invocations_app, Hi, (executed_invocations _ _ _ He).
      * apply Forall_app. split; [|exact Hf].
        inversion He; subst; repeat constructor.
  - exists [], rule, rest, e, [], ev. split; [reflexivity|]. split; [reflexivity|].
    split; [constructor|]. split; [exact He|]. split; [|reflexivity].
    apply (executed_invocations _ _ _ He).
Qed.

Lemma occurrences_keysMissingFrom (k : string) (keys others : list string) :
  occurrences k (keysMissingFrom keys others)
  = if keyIn k others then 0%nat else occurrences k keys.
Proof.
  unfold keysMissingFrom. induction keys as [|k0 ks IH]; cbn [List.filter occurrences].
  - now destruct (keyIn k others).
  - destruct (String.eqb k0 k) eqn:E.
    + apply String.eqb_eq in E. subst k0.
      destruct (keyIn k others); cbn [negb occurrences]; [exact IH|].
      now rewrite String.eqb_refl, IH.
    + destruct (keyIn k0 others); cbn [negb occurrences]; [exact IH|].
      now rewrite E, IH.
Qed.

End NatmanagerFacts.

(** ** The claims on keys, differences and execution *)

Section ReconcilerClaims.

(** C1: with the desired rules D and the observed rules O, the netmap
    applier's diff yields as toAdd exactly the rules of D whose key is not a
    key of O and as toRemove exactly the rules of O whose key is not a key
    of D, in their order; the NAT applier's diff does the same on the lists
    of keys.  A rule (a key) of either list is in exactly one of toAdd,
    toRemove and the set of those whose key is on both sides. *)
Theorem diff_partitions_rules :
  forall D O : list string,
    let toAdd := netmapmanager.missingFrom D O in
    let toRemove := netmapmanager.missingFrom O D in
    let keysD := map natmanager.normalizeRule D in
    let keysO := map natmanager.normalizeRule O in
    netmapmanager.smartDifference D O (netmapmanager.normalizeRules D)
      (netmapmanager.normalizeRules O) = Some toAdd
    /\ netmapmanager.smartDifference O D (netmapmanager.normalizeRules O)
         (netmapmanager.normalizeRules D) = Some toRemove
    /\ (forall r, In r toAdd <->
                  In r D /\ ~ In (netmapmanager.normalizeRule r)
                                 (map netmapmanager.normalizeRule O))
    /\ (forall r, In r toRemove <->
                  In r O /\ ~ In (netmapmanager.normalizeRule r)
                                 (map netmapmanager.normalizeRule D))
    /\ (forall r, In r D \/ In r O ->
          let both := In (netmapmanager.normalizeRule r) (map netmapmanager.normalizeRule D)
                      /\ In (netmapmanager.normalizeRule r) (map netmapmanager.normalizeRule O) in
          (In r toAdd /\ ~ In r toRemove /\ ~ both)
          \/ (~ In r toAdd /\ In r toRemove /\ ~ both)
          \/ (~ In r toAdd /\ ~ In r toRemove /\ both))
    /\ natmanager.difference keysD keysO
       = List.filter (fun k => negb (keyIn k keysO)) keysD
    /\ natmanager.difference keysO keysD
       = List.filter (fun k => negb (keyIn k keysD)) keysO
    /\ (forall k, In k keysD \/ In k keysO ->
          let inAdd := In k (natmanager.difference keysD keysO) in
          let inRemove := In k (natmanager.difference keysO keysD) in
          let both := In k keysD /\ In k keysO in
          (inAdd /\ ~ inRemove /\ ~ both)
          \/ (~ inAdd /\ inRemove /\ ~ both)
          \/ (~ inAdd /\ ~ inRemove /\ both)).
Proof.
  intros D O toAdd toRemove keysD keysO.
  split; [apply smartDifference_missingFrom|].
  split; [apply smartDifference_missingFrom|].
  split; [intros r; apply missingFrom_In|].
  split; [intros r; apply missingFrom_In|].
  split; [|split; [apply difference_keysMissingFrom|
                   split; [apply difference_keysMissingFrom|]]].
  - intros r Hr. cbn zeta. subst toAdd toRemove. rewrite !missingFrom_In.
    assert (HD : In r D -> In (netmapmanager.normalizeRule r)
                              (map netmapmanager.normalizeRule D)) by apply in_map.
    assert (HO : In r O -> In (netmapmanager.normalizeRule r)
                              (map netmapmanager.normalizeRule O)) by apply in_map.
    pose proof (keys_partition (map netmapmanager.normalizeRule D)
                  (map netmapmanager.normalizeRule O) (netmapmanager.normalizeRule r)) as HP.
    cbn zeta in HP. tauto.
  - intros k Hk. cbn zeta. rewrite !difference_keysMissingFrom, !keysMissingFrom_In.
    apply (keys_partition keysD keysO k Hk).
Qed.

(** C2, counterexample: two inbound rules with the same chain, direction,
    interface, destination, target and target argument, which differ in
    their source only, get different keys: the key holds the source and the
    destination of every rule. *)
Lemma normalizeRule_keeps_both_addresses :
  netmapmanager.specTuple (samples.inboundFrom "fd00::1")
  = netmapmanager.specTuple (samples.inboundFrom "fd00::2")
  /\ netmapmanager.normalizeRule (samples.inboundFrom "fd00::1")
     = "prerouting|input|pub1a|fd00::1|2001:db8:1::25|netmap|b30::20"
  /\ netmapmanager.normalizeRule (samples.inboundFrom "fd00::2")
     = "prerouting|input|pub1a|fd00::2|2001:db8:1::25|netmap|b30::20"
  /\ netmapmanager.normalizeRule (samples.inboundFrom "fd00::1")
     <> netmapmanager.normalizeRule (samples.inboundFrom "fd00::2").
Proof.
  split; [reflexivity|]. split; [reflexivity|]. split; [reflexivity|].
  intros H. vm_compute in H. discriminate H.
Qed.

Ltac split_option part :=
  repeat match goal with
         | |- context [String.eqb part ?lit] =>
             destruct (String.eqb_spec part lit) as [->|?]
         end;
  cbn; try reflexivity; try congruence.

Lemma chain_parseParts (parts : list string) (f : netmapmanager.ruleFields) :
  netmapmanager.chain (netmapmanager.parseParts parts f)
  = default (netmapmanager.chain f) (netmapmanager.lastValue "-A" parts).
Proof.
  revert f. induction parts as [|part rest IH]; intros f; [reflexivity|].
  cbn [netmapmanager.parseParts netmapmanager.lastValue]. rewrite IH.
  destruct (netmapmanager.lastValue "-A" rest); [reflexivity|].
  unfold netmapmanager.parseStep. destruct rest as [|next rest]; split_option part.
Qed.

Lemma source_parseParts (parts : list string) (f : netmapmanager.ruleFields) :
  netmapmanager.source (netmapmanager.parseParts parts f)
  = default (netmapmanager.source f) (netmapmanager.lastValue "-s" parts).
Proof.
  revert f. induction parts as [|part rest IH]; intros f; [reflexivity|].
  cbn [netmapmanager.parseParts netmapmanager.lastValue]. rewrite IH.
  destruct (netmapmanager.lastValue "-s" rest); [reflexivity|].
  unfold netmapmanager.parseStep. destruct rest as [|next rest]; split_option part.
Qed.

Lemma dest_parseParts (parts : list string) (f : netmapmanager.ruleFields) :
  netmapmanager.dest (netmapmanager.parseParts parts f)
  = default (netmapmanager.dest f) (netmapmanager.lastValue "-d" parts).
Proof.
  revert f. induction parts as [|part rest IH]; intros f; [reflexivity|].
  cbn [netmapmanager.parseParts netmapmanager.lastValue]. rewrite IH.
  destruct (netmapmanager.lastValue "-d" rest); [reflexivity|].
  unfold netmapmanager.parseStep. destruct rest as [|next rest]; split_option part.
Qed.

Lemma target_parseParts (parts : list string) (f : netmapmanager.ruleFields) :
  netmapmanager.target (netmapmanager.parseParts parts f)
  = default (netmapmanager.target f) (netmapmanager.lastValue "-j" parts).
Proof.
  revert f. induction parts as [|part rest IH]; intros f; [reflexivity|].
  cbn [netmapmanager.parseParts netmapmanager.lastValue]. rewrite IH.
  destruct (netmapmanager.lastValue "-j" rest); [reflexivity|].
  unfold netmapmanager.parseStep. destruct rest as [|next rest]; split_option part.
Qed.

Lemma toAddr_parseParts (parts : list string) (f : netmapmanager.ruleFields) :
  netmapmanager.toAddr (netmapmanager.parseParts parts f)
  = default (netmapmanager.toAddr f) (netmapmanager.lastValue "--to" parts).
Proof.
  revert f. induction parts as [|part rest IH]; intros f; [reflexivity|].
  cbn [netmapmanager.parseParts netmapmanager.lastValue]. rewrite IH.
  destruct (netmapmanager.lastValue "--to" rest); [reflexivity|].
  unfold netmapmanager.parseStep. destruct rest as [|next rest]; split_option part.
Qed.

Lemma interface_parseParts (parts : list string) (f : netmapmanager.ruleFields) :
  (netmapmanager.direction (netmapmanager.parseParts parts f),
   netmapmanager.iface (netmapmanager.parseParts parts f))
  = default (netmapmanager.direction f, netmapmanager.iface f)
            (netmapmanager.lastInterface parts).
Proof.
  revert f. induction parts as [|part rest IH]; intros f; [reflexivity|].
  cbn [netmapmanager.parseParts netmapmanager.lastInterface]. rewrite IH.
  destruct (netmapmanager.lastInterface rest); [reflexivity|].
  unfold netmapmanager.parseStep. destruct rest as [|next rest]; split_option part.
Qed.

Lemma formatKey_tokens (parts : list string) :
  netmapmanager.formatKey (netmapmanager.parseParts parts netmapmanager.noFields)
  = netmapmanager.barred (netmapmanager.tokenTuple parts).
Proof.
  unfold netmapmanager.formatKey, netmapmanager.barred, netmapmanager.tokenTuple.
  rewrite chain_parseParts, source_parseParts, dest_parseParts, target_parseParts,
    toAddr_parseParts.
  pose proof (interface_parseParts parts netmapmanager.noFields) as Hi.
  unfold netmapmanager.directionOf, netmapmanager.interfaceOf.
  destruct (netmapmanager.lastInterface parts) as [[d i]|]; cbn in Hi;
    injection Hi as -> ->; reflexivity.
Qed.

Lemma lastValue_app (opt : string) (before parts : list string) (value : string) :
  netmapmanager.lastValue opt parts = Some value ->
  netmapmanager.lastValue opt (before ++ parts) = Some value.
Proof.
  intros H. induction before as [|part before IH]; [exact H|].
  cbn [app netmapmanager.lastValue]. now rewrite IH.
Qed.

Lemma lastInterface_app (before parts : list string) (found : string * string) :
  netmapmanager.lastInterface parts = Some found ->
  netmapmanager.lastInterface (before ++ parts) = Some found.
Proof.
  intros H. induction before as [|part before IH]; [exact H|].
  cbn [app netmapmanager.lastInterface]. now rewrite IH.
Qed.

(** C2, amended: for a rule of at least six fields the key is built from
    the rule's fields only, in the fixed order chain (lower-cased),
    direction, interface, source, destination, target (lower-cased), target
    argument, whatever the direction.  Each component is read off the
    fields: chain, source, destination, target and target argument are the
    field that follows the last "-A", "-s", "-d", "-j" and "--to" that has a
    successor, and direction and interface come from the last "-i" (input)
    or "-o" (output) that has one; a component without such an option is
    empty.  A rule of fewer than six fields is its own key.  Hence two rules
    of at least six fields whose seven components agree have the same key,
    whatever the order of their options, their spacing and the case of
    chain and target. *)
Theorem normalizeRule_structural_key :
  (forall rule : string,
     (length (Fields rule) <? 6)%nat = false ->
     netmapmanager.normalizeRule rule
     = ToLower (netmapmanager.valueOf "-A" (Fields rule)) +:+ "|"
         +:+ netmapmanager.directionOf (Fields rule) +:+ "|"
         +:+ netmapmanager.interfaceOf (Fields rule) +:+ "|"
         +:+ netmapmanager.valueOf "-s" (Fields rule) +:+ "|"
         +:+ netmapmanager.valueOf "-d" (Fields rule) +:+ "|"
         +:+ ToLower (netmapmanager.valueOf "-j" (Fields rule)) +:+ "|"
         +:+ netmapmanager.valueOf "--to" (Fields rule))
  /\ (forall rule : string,
        (length (Fields rule) <? 6)%nat = true ->
        netmapmanager.normalizeRule rule = rule)
  /\ (forall rule1 rule2 : string,
        (length (Fields rule1) <? 6)%nat = false ->
        (length (Fields rule2) <? 6)%nat = false ->
        netmapmanager.tokenTuple (Fields rule1) = netmapmanager.tokenTuple (Fields rule2) ->
        netmapmanager.normalizeRule rule1 = netmapmanager.normalizeRule rule2)
  /\ (forall (before after : list string) (opt value : string),
        netmapmanager.lastValue opt (value :: after) = None ->
        netmapmanager.valueOf opt (before ++ opt :: value :: after) = value)
  /\ (forall (before after : list string) (name : string),
        netmapmanager.lastInterface (name :: after) = None ->
        netmapmanager.directionOf (before ++ "-i" :: name :: after) = "input"
        /\ netmapmanager.interfaceOf (before ++ "-i" :: name :: after) = name
        /\ netmapmanager.directionOf (before ++ "-o" :: name :: after) = "output"
        /\ netmapmanager.interfaceOf (before ++ "-o" :: name :: after) = name)
  /\ netmapmanager.normalizeRule
       "ip6tables -t nat -A PREROUTING -i pub1a -d 2001:db8:1::25/96 -j NETMAP --to b30::20/96"
     = "prerouting|input|pub1a||2001:db8:1::25/96|netmap|b30::20/96"
  /\ netmapmanager.normalizeRule
       "ip6tables  -t nat -A prerouting -d 2001:db8:1::25/96 -i pub1a --to b30::20/96 -j netmap"
     = "prerouting|input|pub1a||2001:db8:1::25/96|netmap|b30::20/96".
Proof.
  assert (Hkey : forall rule : string,
             (length (Fields rule) <? 6)%nat = false ->
             netmapmanager.normalizeRule rule
             = netmapmanager.barred (netmapmanager.tokenTuple (Fields rule))).
  { intros rule H. unfold netmapmanager.normalizeRule. rewrite H. apply formatKey_tokens. }
  split; [|split; [|split; [|split; [|split; [|split]]]]].
  - intros rule H. rewrite (Hkey rule H). reflexivity.
  - intros rule H. unfold netmapmanager.normalizeRule. now rewrite H.
  - intros rule1 rule2 H1 H2 Ht. now rewrite (Hkey rule1 H1), (Hkey rule2 H2), Ht.
  - intros before after opt value Hafter. unfold netmapmanager.valueOf.
    rewrite (lastValue_app opt before (opt :: value :: after) value); [reflexivity|].
    cbn [netmapmanager.lastValue] in *. rewrite Hafter, String.eqb_refl. reflexivity.
  - intros before after name Hafter.
    unfold netmapmanager.directionOf, netmapmanager.interfaceOf.
    rewrite (lastInterface_app before ("-i" :: name :: after) ("input", name)),
      (lastInterface_app before ("-o" :: name :: after) ("output", name)).
    + auto.
    + cbn [netmapmanager.lastInterface] in *. now rewrite Hafter.
    + cbn [netmapmanager.lastInterface] in *. now rewrite Hafter.
  - vm_compute. reflexivity.
  - vm_compute. reflexivity.
Qed.

(** C3, counterexample: in quiet mode the NAT applier runs a removal that
    fails and prints nothing; and a pass of the netmap applier whose desired
    rule list is empty returns before the diff, so the stale observed rule,
    which is in toRemove, is never removed. *)
Lemma removal_not_always_logged_or_applied :
  trace (fst (natmanager.applyRuleChanges samples.alwaysFails true
                [samples.masquerade "eth0"] [] samples.start))
  = [Run ["iptables"; "-t"; "nat"; "-D"; "POSTROUTING"; "-o"; "eth0"; "-j"; "MASQUERADE"]
         "" (Some "exit status 1")]
  /\ netmapmanager.missingFrom [samples.staleNetmap] [] = [samples.staleNetmap]
  /\ invocations (trace (fst (netmapmanager.ApplyNetmapRules samples.alwaysOk
                                [samples.staleNetmap] [] samples.start))) = [].
Proof. repeat split; vm_compute; reflexivity. Qed.

(** C3, amended: in every pass of the NAT applier and in every pass of the
    netmap applier with at least one desired rule, the executor runs the
    whole removal loop and then the addition loop.  Each removal is the
    rule's raw text with its first "-A " rewritten to "-D "; additions are
    executed as they are.  A removal that fails does not end the loop or
    the pass: the remaining removals and the additions follow.  The netmap
    applier prints a warning for it; the NAT applier prints the warning
    unless quiet mode is set. *)
Theorem removals_then_additions :
  forall (World : Type) (run : CombinedOutputFn World)
         (currentRules newRules : list string) (st : state World),
    (newRules <> [] ->
     exists trR trA failed,
       trace (fst (netmapmanager.ApplyNetmapRules run currentRules newRules st))
       = trace st ++ trR ++ trA
       /\ netmapmanager.removalTrace (netmapmanager.missingFrom currentRules newRules) trR
       /\ netmapmanager.additionTrace (netmapmanager.missingFrom newRules currentRules)
            trA failed
       /\ invocations trR
          = argvs (map netmapmanager.toDelete
                     (netmapmanager.missingFrom currentRules newRules))
       /\ invocations trA = argvs (netmapmanager.missingFrom newRules currentRules)
       /\ snd (netmapmanager.ApplyNetmapRules run currentRules newRules st) <> Panicked)
    /\ (forall quiet : bool,
        exists trR trA,
          trace (fst (natmanager.applyRuleChanges run quiet currentRules newRules st))
          = trace st ++ trR ++ trA
          /\ natmanager.removalTrace quiet
               (natmanager.textsFor currentRules
                  (natmanager.keysMissingFrom (map natmanager.normalizeRule currentRules)
                     (map natmanager.normalizeRule newRules)))
               trR
          /\ natmanager.additionTrace
               (natmanager.textsFor newRules
                  (natmanager.keysMissingFrom (map natmanager.normalizeRule newRules)
                     (map natmanager.normalizeRule currentRules)))
               trA
               (snd (natmanager.applyRuleChanges run quiet currentRules newRules st))
          /\ invocations trR
             = argvs (map natmanager.toDelete
                        (natmanager.textsFor currentRules
                           (natmanager.keysMissingFrom
                              (map natmanager.normalizeRule currentRules)
                              (map natmanager.normalizeRule newRules))))
          /\ (if quiet then printed trR = [] else True))
    /\ (forall rule : string,
          firstAppendRewritten rule (netmapmanager.toDelete rule)
          /\ firstAppendRewritten rule (natmanager.toDelete rule)).
Proof.
  intros World run currentRules newRules st. split; [|split].
  - intros Hne.
    destruct (ApplyNetmapRules_trace run currentRules newRules st Hne)
      as (trR & trA & failed & Ht & HR & HA & Hres).
    exists trR, trA, failed. split; [exact Ht|]. split; [exact HR|]. split; [exact HA|].
    split; [now apply removalTrace_invocations|].
    split; [now apply additionTrace_invocations in HA as [HA _]|].
    rewrite Hres. discriminate.
  - intros quiet.
    destruct (applyRuleChanges_trace run quiet currentRules newRules st)
      as (trR & trA & Ht & HR & HA).
    exists trR, trA. split; [exact Ht|]. split; [exact HR|]. split; [exact HA|].
    split; [now apply nat_removalTrace_invocations in HR|].
    destruct quiet; [now apply nat_removalTrace_quiet in HR|exact I].
  - intros rule. split; apply Replace_first.
Qed.

(** C4, counterexample: on a host where every command fails, the NAT
    applier with two rules to add runs the first only and returns an error
    that names that rule, not a count. *)
Lemma applyRuleChanges_aborts_on_first_failure :
  natmanager.applyRuleChanges samples.alwaysFails false []
    [samples.masquerade "eth0"; samples.masquerade "eth1"] samples.start
  = ({| world := tt;
        trace := [Run ["iptables"; "-t"; "nat"; "-A"; "POSTROUTING"; "-o"; "eth0";
                       "-j"; "MASQUERADE"] "" (Some "exit status 1")] |},
     Some "failed to add rule iptables -t nat -A POSTROUTING -o eth0 -j MASQUERADE: command failed: exit status 1, output: ").
Proof. vm_compute. reflexivity. Qed.

(** C4, amended: when additions fail in the netmap applier, the executor
    still executes every member of toAdd and then returns one aggregate
    error that names the number of failed rules and the number of rules in
    toAdd; it returns no error when none failed.  The NAT applier instead
    stops at the first addition that fails and returns an error naming that
    rule: the additions before it were executed and succeeded, the execution
    of the named rule failed with the error the message ends in, and the
    later ones are not executed.  It returns no error only when every
    member of toAdd was executed and none of the commands failed. *)
Theorem addition_failures_reported :
  forall (World : Type) (run : CombinedOutputFn World)
         (currentRules newRules : list string) (st : state World),
    (newRules <> [] ->
     exists trR trA failed,
       trace (fst (netmapmanager.ApplyNetmapRules run currentRules newRules st))
       = trace st ++ trR ++ trA
       /\ netmapmanager.additionTrace (netmapmanager.missingFrom newRules currentRules)
            trA failed
       /\ invocations trA = argvs (netmapmanager.missingFrom newRules currentRules)
       /\ (length failed <= length (netmapmanager.missingFrom newRules currentRules))%nat
       /\ snd (netmapmanager.ApplyNetmapRules run currentRules newRules st)
          = Returned
              (match failed with
               | [] => None
               | _ => Some ("failed to add " +:+ itoa (length failed)
                              +:+ " netmap rules out of "
                              +:+ itoa (length (netmapmanager.missingFrom newRules
                                                  currentRules))
                              +:+ " total rules")
               end))
    /\ (forall quiet : bool,
        exists trR trA,
          let toAdd :=
            natmanager.textsFor newRules
              (natmanager.keysMissingFrom (map natmanager.normalizeRule newRules)
                 (map natmanager.normalizeRule currentRules)) in
          trace (fst (natmanager.applyRuleChanges run quiet currentRules newRules st))
          = trace st ++ trR ++ trA
          /\ natmanager.additionTrace toAdd trA
               (snd (natmanager.applyRuleChanges run quiet currentRules newRules st))
          /\ match snd (natmanager.applyRuleChanges run quiet currentRules newRules st) with
             | None =>
                 invocations trA = argvs toAdd
                 /\ Forall (fun ev => failedRun ev = false) trA
             | Some message =>
                 exists done rule rest e trDone ev,
                   toAdd = done ++ rule :: rest
                   /\ trA = trDone ++ ev
                   /\ natmanager.additionTrace done trDone None
                   /\ executed rule ev (Some e)
                   /\ invocations trA = argvs (done ++ [rule])
                   /\ message = "failed to add rule " +:+ rule +:+ ": " +:+ e
             end).
Proof.
  intros World run currentRules newRules st. split.
  - intros Hne.
    destruct (ApplyNetmapRules_trace run currentRules newRules st Hne)
      as (trR & trA & failed & Ht & _ & HA & Hres).
    exists trR, trA, failed. split; [exact Ht|]. split; [exact HA|].
    apply additionTrace_invocations in HA as [Hi Hl].
    split; [exact Hi|]. split; [exact Hl|exact Hres].
  - intros quiet.
    destruct (applyRuleChanges_trace run quiet currentRules newRules st)
      as (trR & trA & Ht & _ & HA).
    exists trR, trA. cbn zeta. split; [exact Ht|]. split; [exact HA|].
    now apply nat_additionTrace_split in HA.
Qed.

(** C10, counterexample: two desired rules with one key, none observed; the
    executor invokes two commands for that key, both with the text of the
    later rule. *)
Lemma applyRuleChanges_runs_duplicate_key_twice :
  natmanager.normalizeRule samples.originAnywhere
  = natmanager.normalizeRule samples.originZero
  /\ invocations
       (trace (fst (natmanager.applyRuleChanges samples.alwaysOk false []
                      [samples.originAnywhere; samples.originZero] samples.start)))
     = [ ["iptables"; "-t"; "nat"; "-A"; "POSTROUTING"; "-s"; "0.0.0.0/0"; "-o"; "eth0";
          "-j"; "MASQUERADE"];
         ["iptables"; "-t"; "nat"; "-A"; "POSTROUTING"; "-s"; "0.0.0.0/0"; "-o"; "eth0";
          "-j"; "MASQUERADE"] ].
Proof. split; vm_compute; reflexivity. Qed.

(** C10, amended: in the NAT applier the map from key back to rule text
    keeps, for every key, only the last rule of the list with that key.  The
    executor is handed that text once for every occurrence of the key in
    the list of keys to remove or to add, so a key that occurs n times among
    the observed (desired) rules and not among the desired (observed) ones
    is handed over n times; every text handed over is the last rule with
    its key, so the text of an earlier rule with the same key is executed
    only if it is the same text. *)
Theorem applyRuleChanges_duplicate_keys :
  forall (World : Type) (run : CombinedOutputFn World) (quiet : bool)
         (currentRules newRules : list string) (st : state World),
    let keysToRemove :=
      natmanager.keysMissingFrom (map natmanager.normalizeRule currentRules)
        (map natmanager.normalizeRule newRules) in
    let keysToAdd :=
      natmanager.keysMissingFrom (map natmanager.normalizeRule newRules)
        (map natmanager.normalizeRule currentRules) in
    let hasKey (k r : string) := String.eqb (natmanager.normalizeRule r) k in
    (forall (rules : list string) (k : string),
       lookup k (natmanager.makeMap (map natmanager.normalizeRule rules) rules)
       = natmanager.lastWithKey rules k)
    /\ (forall (rules : list string) (k r : string),
          natmanager.lastWithKey rules k = Some r <->
          exists earlier later,
            rules = earlier ++ r :: later
            /\ natmanager.normalizeRule r = k
            /\ Forall (fun r' => natmanager.normalizeRule r' <> k) later)
    /\ (exists trR trA,
          trace (fst (natmanager.applyRuleChanges run quiet currentRules newRules st))
          = trace st ++ trR ++ trA
          /\ natmanager.removalTrace quiet
               (natmanager.textsFor currentRules keysToRemove) trR
          /\ natmanager.additionTrace (natmanager.textsFor newRules keysToAdd) trA
               (snd (natmanager.applyRuleChanges run quiet currentRules newRules st)))
    /\ (forall k : string,
          length (List.filter (hasKey k) (natmanager.textsFor currentRules keysToRemove))
          = (if keyIn k (map natmanager.normalizeRule newRules) then 0
             else natmanager.occurrences k (map natmanager.normalizeRule currentRules))%nat
          /\ length (List.filter (hasKey k) (natmanager.textsFor newRules keysToAdd))
             = (if keyIn k (map natmanager.normalizeRule currentRules) then 0
                else natmanager.occurrences k (map natmanager.normalizeRule newRules))%nat)
    /\ (forall r : string,
          (In r (natmanager.textsFor currentRules keysToRemove) ->
           natmanager.lastWithKey currentRules (natmanager.normalizeRule r) = Some r)
          /\ (In r (natmanager.textsFor newRules keysToAdd) ->
              natmanager.lastWithKey newRules (natmanager.normalizeRule r) = Some r)).
Proof.
  intros World run quiet currentRules newRules st keysToRemove keysToAdd hasKey.
  split; [exact makeMap_lastWithKey|]. split; [exact lastWithKey_Some|].
  split; [apply applyRuleChanges_trace|]. split.
  - intros k. subst hasKey keysToRemove keysToAdd. cbn beta.
    rewrite !textsFor_occurrences, !occurrences_keysMissingFrom.
    + split; reflexivity.
    + intros k' Hk'. now apply keysMissingFrom_In in Hk' as [Hk' _].
    + intros k' Hk'. now apply keysMissingFrom_In in Hk' as [Hk' _].
  - intros r. split; apply textsFor_last.
Qed.

End ReconcilerClaims.

(** * Further properties of the code *)

(** ** Fields and joins *)

Section FieldFacts.

Lemma noSpace_app (s t : string) : noSpace (s +:+ t) = noSpace s && noSpace t.
Proof.
  induction s as [|c s IH]; [reflexivity|].
  rewrite app_cons. cbn [noSpace]. rewrite IH. now rewrite andb_assoc.
Qed.

Lemma isField_noSpace (s : string) : isField s = true -> noSpace s = true /\ s <> "".
Proof.
  unfold isField. intros H. apply andb_true_iff in H as [H1 H2].
  split; [exact H2|]. apply negb_true_iff in H1. now apply isEmpty_false.
Qed.

Lemma isField_intro (s : string) : noSpace s = true -> s <> "" -> isField s = true.
Proof.
  intros H1 H2. unfold isField. apply isEmpty_false in H2. now rewrite H1, H2.
Qed.

Lemma fieldsFrom_noSpace (tok s cur : string) :
  noSpace tok = true -> fieldsFrom cur (tok +:+ s) = fieldsFrom (cur +:+ tok) s.
Proof.
  revert cur. induction tok as [|c tok IH]; intros cur H.
  - now rewrite app_empty_l, app_empty_r.
  - cbn [noSpace] in H. apply andb_true_iff in H as [Hc H].
    apply negb_true_iff in Hc. rewrite app_cons. cbn [fieldsFrom]. rewrite Hc.
    rewrite IH by exact H. now rewrite app_assoc'.
Qed.

Lemma fieldsFrom_space (c : ascii) (s cur : string) :
  isSpace c = true -> cur <> "" ->
  fieldsFrom cur (String c s) = cur :: fieldsFrom "" s.
Proof.
  intros Hc Hcur. cbn [fieldsFrom]. rewrite Hc. destruct cur; [congruence|reflexivity].
Qed.

(** A field followed by white space is the first field. *)
Lemma Fields_cons (tok : string) (c : ascii) (s : string) :
  isField tok = true -> isSpace c = true ->
  Fields (tok +:+ String c s) = tok :: Fields s.
Proof.
  intros Ht Hc. apply isField_noSpace in Ht as [Hn He].
  unfold Fields. rewrite fieldsFrom_noSpace by exact Hn.
  rewrite app_empty_l. now apply fieldsFrom_space.
Qed.

Lemma Fields_single (tok : string) : isField tok = true -> Fields tok = [tok].
Proof.
  intros Ht. apply isField_noSpace in Ht as [Hn He].
  unfold Fields. rewrite <- (app_empty_r tok) at 1.
  rewrite fieldsFrom_noSpace by exact Hn. rewrite app_empty_l.
  cbn [fieldsFrom]. destruct tok; [congruence|reflexivity].
Qed.

Lemma Join_cons (tok : string) (toks : list string) (sep : string) :
  toks <> [] -> Join (tok :: toks) sep = tok +:+ sep +:+ Join toks sep.
Proof. destruct toks; [congruence|reflexivity]. Qed.

(** Joining fields with single spaces and splitting again is the identity. *)
Lemma Fields_Join (toks : list string) :
  Forall (fun tok => isField tok = true) toks -> Fields (Join toks " ") = toks.
Proof.
  induction 1 as [|tok toks Ht Hall IH]; [reflexivity|].
  destruct toks as [|tok2 toks].
  - now apply Fields_single.
  - rewrite Join_cons by discriminate.
    change (" " +:+ Join (tok2 :: toks) " ") with (String " " (Join (tok2 :: toks) " ")).
    rewrite Fields_cons; [now rewrite IH|exact Ht|reflexivity].
Qed.

Lemma fieldsFrom_fields (s cur : string) :
  noSpace cur = true ->
  Forall (fun tok => isField tok = true) (fieldsFrom cur s).
Proof.
  revert cur. induction s as [|c s IH]; intros cur Hcur.
  - cbn [fieldsFrom]. destruct cur as [|d cur]; [constructor|].
    constructor; [|constructor]. now apply isField_intro.
  - cbn [fieldsFrom]. destruct (isSpace c) eqn:Ec.
    + destruct cur as [|d cur]; [now apply IH|].
      constructor; [now apply isField_intro|now apply IH].
    + apply IH. rewrite noSpace_app, Hcur. cbn [noSpace]. now rewrite Ec.
Qed.

(** What [Fields] yields are fields. *)
Lemma Fields_fields (s : string) : Forall (fun tok => isField tok = true) (Fields s).
Proof. now apply fieldsFrom_fields. Qed.

Lemma Join_Fields_Fields (s : string) :
  Fields (Join (Fields s) " ") = Fields s.
Proof. apply Fields_Join, Fields_fields. Qed.

End FieldFacts.

(** ** Keys of the NAT applier and passes that change nothing *)

Section IdempotenceFacts.

Lemma normalizePart_field (tok : string) :
  isField tok = true -> isField (natmanager.normalizePart tok) = true.
Proof.
  intros H. unfold natmanager.normalizePart.
  destruct (String.eqb tok "0.0.0.0/0" || String.eqb tok "anywhere"); [reflexivity|].
  destruct (String.eqb tok "::/0"); [reflexivity|exact H].
Qed.

Lemma normalizePart_idempotent (tok : string) :
  natmanager.normalizePart (natmanager.normalizePart tok) = natmanager.normalizePart tok.
Proof.
  unfold natmanager.normalizePart.
  destruct (String.eqb tok "0.0.0.0/0" || String.eqb tok "anywhere") eqn:E1; [reflexivity|].
  destruct (String.eqb tok "::/0") eqn:E2; [reflexivity|].
  now rewrite E1, E2.
Qed.

(** The fields of a key are the normalised fields of the rule. *)
Lemma Fields_normalizeRule (rule : string) :
  Fields (natmanager.normalizeRule rule) = map natmanager.normalizePart (Fields rule).
Proof.
  unfold natmanager.normalizeRule. apply Fields_Join.
  apply List.Forall_map. eapply List.Forall_impl; [|apply Fields_fields].
  intros tok. apply normalizePart_field.
Qed.

(** X1: the key of the NAT applier is a fixed point of normalisation: the
    key of a key is that key. *)
Theorem nat_normalizeRule_idempotent :
  forall rule : string,
    natmanager.normalizeRule (natmanager.normalizeRule rule)
    = natmanager.normalizeRule rule.
Proof.
  intros rule. unfold natmanager.normalizeRule at 1. rewrite Fields_normalizeRule.
  unfold natmanager.normalizeRule. f_equal. rewrite List.map_map.
  apply List.map_ext. intros tok. apply normalizePart_idempotent.
Qed.

(** X2: two rule texts have the same NAT key exactly when they split into
    the same fields once "anywhere" is read as "0.0.0.0/0"; the amount and
    kind of white space between, before and after the fields never matters. *)
Theorem nat_normalizeRule_same_key :
  forall rule1 rule2 : string,
    natmanager.normalizeRule rule1 = natmanager.normalizeRule rule2
    <-> map natmanager.normalizePart (Fields rule1)
        = map natmanager.normalizePart (Fields rule2).
Proof.
  intros rule1 rule2. split.
  - intros H. rewrite <- !Fields_normalizeRule. now rewrite H.
  - intros H. unfold natmanager.normalizeRule. now rewrite H.
Qed.

Lemma missingFrom_nil (rules others : list string) :
  (forall r, In r rules ->
             In (netmapmanager.normalizeRule r) (map netmapmanager.normalizeRule others)) ->
  netmapmanager.missingFrom rules others = [].
Proof.
  intros H. unfold netmapmanager.missingFrom.
  induction rules as [|r rs IH]; [reflexivity|]. cbn [List.filter].
  assert (Hr : keyIn (netmapmanager.normalizeRule r)
                 (map netmapmanager.normalizeRule others) = true)
    by (apply keyIn_In, H; now left).
  rewrite Hr. cbn [negb]. apply IH. intros r' Hr'. apply H. now right.
Qed.

Lemma keysMissingFrom_nil (keys others : list string) :
  (forall k, In k keys -> In k others) -> natmanager.keysMissingFrom keys others = [].
Proof.
  intros H. unfold natmanager.keysMissingFrom.
  induction keys as [|k ks IH]; [reflexivity|]. cbn [List.filter].
  assert (Hk : keyIn k others = true) by (apply keyIn_In, H; now left).
  rewrite Hk. cbn [negb]. apply IH. intros k' Hk'. apply H. now right.
Qed.

(** X3: a reconciliation of the netmap applier in which every desired rule
    has the key of an observed rule and every observed rule the key of a
    desired one runs no command, leaves the host as it is and returns no
    error.  The statement is about the commands and the result, which the
    lines of debug mode do not touch. *)
Theorem ApplyNetmapRules_settled
    (World : Type) (run : CombinedOutputFn World)
    (currentRules newRules : list string) (st : state World) :
  newRules <> [] ->
  (forall r, In r newRules ->
             In (netmapmanager.normalizeRule r)
                (map netmapmanager.normalizeRule currentRules)) ->
  (forall r, In r currentRules ->
             In (netmapmanager.normalizeRule r)
                (map netmapmanager.normalizeRule newRules)) ->
  world (fst (netmapmanager.ApplyNetmapRules run currentRules newRules st)) = world st
  /\ invocations (trace (fst (netmapmanager.ApplyNetmapRules run currentRules newRules st)))
     = invocations (trace st)
  /\ snd (netmapmanager.ApplyNetmapRules run currentRules newRules st) = Returned None.
Proof.
  intros Hne Hnew Hcur. unfold netmapmanager.ApplyNetmapRules.
  destruct newRules as [|r0 rs]; [congruence|]. cbn [length Nat.eqb].
  rewrite !smartDifference_missingFrom.
  rewrite (missingFrom_nil _ _ Hnew), (missingFrom_nil _ _ Hcur).
  repeat split; reflexivity.
Qed.

Lemma ApplyNetmapRules_settled_witness :
  world (fst (netmapmanager.ApplyNetmapRules samples.alwaysFails
                [samples.inboundFrom "fd00::1"] [samples.inboundFrom "fd00::1"]
                samples.start)) = world samples.start
  /\ invocations
       (trace (fst (netmapmanager.ApplyNetmapRules samples.alwaysFails
                      [samples.inboundFrom "fd00::1"] [samples.inboundFrom "fd00::1"]
                      samples.start)))
     = invocations (trace samples.start)
  /\ snd (netmapmanager.ApplyNetmapRules samples.alwaysFails
            [samples.inboundFrom "fd00::1"] [samples.inboundFrom "fd00::1"]
            samples.start) = Returned None.
Proof.
  apply ApplyNetmapRules_settled.
  - discriminate.
  - intros r [<-|[]]. left. vm_compute. reflexivity.
  - intros r [<-|[]]. left. vm_compute. reflexivity.
Defined.

(** X4: a pass of the NAT applier in which the desired and the observed
    rules have the same keys runs no command, prints nothing and returns no
    error, whatever the raw texts and their order. *)
Theorem applyRuleChanges_settled
    (World : Type) (run : CombinedOutputFn World) (quiet : bool)
    (currentRules newRules : list string) (st : state World) :
  (forall k, In k (map natmanager.normalizeRule newRules) ->
             In k (map natmanager.normalizeRule currentRules)) ->
  (forall k, In k (map natmanager.normalizeRule currentRules) ->
             In k (map natmanager.normalizeRule newRules)) ->
  natmanager.applyRuleChanges run quiet currentRules newRules st = (st, None).
Proof.
  intros Hnew Hcur. unfold natmanager.applyRuleChanges.
  rewrite !difference_keysMissingFrom.
  rewrite (keysMissingFrom_nil _ _ Hnew), (keysMissingFrom_nil _ _ Hcur). reflexivity.
Qed.

Lemma applyRuleChanges_settled_witness :
  natmanager.applyRuleChanges samples.alwaysFails false
    [samples.originZero] [samples.originAnywhere] samples.start
  = (samples.start, None).
Proof.
  apply applyRuleChanges_settled.
  - intros k [<-|[]]. left. vm_compute. reflexivity.
  - intros k [<-|[]]. left. vm_compute. reflexivity.
Defined.

End IdempotenceFacts.

(** ** Reading the rule table back (netmapmanager) *)

Section ScannerFacts.
Import netmapmanager.

Lemma spaced_app (l1 l2 : list string) : spaced (l1 ++ l2) = spaced l1 +:+ spaced l2.
Proof.
  induction l1 as [|t l1 IH]; [reflexivity|].
  cbn [app spaced]. now rewrite IH, !app_assoc'.
Qed.

Lemma Fields_spaced (tok : string) (toks : list string) :
  isField tok = true -> Forall (fun t => isField t = true) toks ->
  Fields (tok +:+ spaced toks) = tok :: toks.
Proof.
  intros Ht Hall. revert tok Ht. induction Hall as [|t toks Hx Hall IH]; intros tok Ht.
  - cbn [spaced]. rewrite app_empty_r. now apply Fields_single.
  - cbn [spaced]. change (" " +:+ t +:+ spaced toks) with (String " " (t +:+ spaced toks)).
    rewrite Fields_cons; [|exact Ht|reflexivity]. now rewrite IH.
Qed.

Lemma formatLoop_step (part next : string) (rest : list string) (f : formatFields) :
  formatLoop (part :: next :: rest) f =
  if String.eqb part "-i" then
    formatLoop rest
      {| fmtIface := next; fmtDirection := "-i"; fmtSource := fmtSource f;
         fmtDest := fmtDest f; fmtToAddr := fmtToAddr f; fmtIsInput := true |}
  else if String.eqb part "-o" then
    formatLoop rest
      {| fmtIface := next; fmtDirection := "-o"; fmtSource := fmtSource f;
         fmtDest := fmtDest f; fmtToAddr := fmtToAddr f; fmtIsInput := false |}
  else if String.eqb part "-s" then
    formatLoop rest
      {| fmtIface := fmtIface f; fmtDirection := fmtDirection f; fmtSource := next;
         fmtDest := fmtDest f; fmtToAddr := fmtToAddr f; fmtIsInput := fmtIsInput f |}
  else if String.eqb part "-d" then
    formatLoop rest
      {| fmtIface := fmtIface f; fmtDirection := fmtDirection f;
         fmtSource := fmtSource f; fmtDest := next; fmtToAddr := fmtToAddr f;
         fmtIsInput := fmtIsInput f |}
  else if String.eqb part "--to" then
    formatLoop rest
      {| fmtIface := fmtIface f; fmtDirection := fmtDirection f;
         fmtSource := fmtSource f; fmtDest := fmtDest f; fmtToAddr := next;
         fmtIsInput := fmtIsInput f |}
  else formatLoop (next :: rest) f.
Proof. reflexivity. Qed.

Lemma formatLoop_clean (n : nat) :
  forall (parts : list string) (f : formatFields),
    (length parts <= n)%nat ->
    Forall (fun t => isField t = true) parts ->
    cleanFormat f -> cleanFormat (formatLoop parts f).
Proof.
  induction n as [|n IH]; intros parts f Hlen Hall Hf.
  - destruct parts; [exact Hf|simpl in Hlen; lia].
  - destruct parts as [|part [|next rest']]; [exact Hf|exact Hf|].
    inversion Hall as [|? ? _ Hrest]; subst.
    inversion Hrest as [|? ? Hnext Hrest']; subst.
    apply isField_noSpace in Hnext as [Hnext _].
    destruct Hf as (H1 & H2 & H3 & H4 & H5).
    cbn [length] in Hlen. rewrite formatLoop_step.
    repeat match goal with
           | |- context [String.eqb part ?lit] => destruct (String.eqb part lit)
           end;
      apply IH; try (cbn [length]; lia); try assumption;
      unfold cleanFormat; cbn - [noSpace]; auto.
Qed.

Lemma buildRule_spaced (chain : string) (f : formatFields) :
  buildRule chain f = "ip6tables" +:+ spaced (["-t"; "nat"; "-A"; chain] ++ builtOptions f).
Proof.
  unfold buildRule, builtOptions.
  destruct (isEmpty (fmtDirection f)), (isEmpty (fmtIface f)), (fmtIsInput f),
    (isEmpty (fmtDest f)), (isEmpty (fmtSource f)), (isEmpty (fmtToAddr f));
    cbn [negb andb app spaced]; rewrite ?app_assoc', ?app_empty_r; reflexivity.
Qed.

Lemma builtOptions_fields (f : formatFields) :
  cleanFormat f -> Forall (fun t => isField t = true) (builtOptions f).
Proof.
  intros (H1 & H2 & H3 & H4 & H5). unfold builtOptions.
  assert (Hfield : forall s, noSpace s = true -> isEmpty s = false -> isField s = true)
    by (intros s Hs He; unfold isField; now rewrite Hs, He).
  destruct (isEmpty (fmtDirection f)) eqn:E1, (isEmpty (fmtIface f)) eqn:E2,
    (fmtIsInput f), (isEmpty (fmtDest f)) eqn:E4, (isEmpty (fmtSource f)) eqn:E5,
    (isEmpty (fmtToAddr f)) eqn:E6;
    cbn [negb andb app]; repeat constructor; auto.
Qed.

Lemma nth_field (parts : list string) (i : nat) :
  Forall (fun t => isField t = true) parts -> (i < length parts)%nat ->
  isField (nth i parts "") = true.
Proof.
  intros Hall Hi. rewrite List.Forall_forall in Hall. apply Hall. now apply nth_In.
Qed.

(** The fields of a rule that [normalizeRuleFormat] builds. *)
Lemma normalizeRuleFormat_Fields (line : string) :
  (length (Fields line) <? 2)%nat = false ->
  Fields (normalizeRuleFormat line)
  = ["ip6tables"; "-t"; "nat"; "-A"; nth 1 (Fields line) ""]
    ++ builtOptions (formatLoop (drop 2 (Fields line)) noFormatFields).
Proof.
  intros Hlen. unfold normalizeRuleFormat. rewrite Hlen. apply Nat.ltb_ge in Hlen.
  rewrite buildRule_spaced.
  pose proof (Fields_fields line) as Hall.
  assert (Hclean : cleanFormat (formatLoop (drop 2 (Fields line)) noFormatFields)).
  { apply (formatLoop_clean (length (drop 2 (Fields line)))); [lia| |repeat split].
    now apply Forall_drop. }
  rewrite Fields_spaced; [reflexivity|reflexivity|].
  apply Forall_app. split; [|now apply builtOptions_fields].
  do 3 (constructor; [reflexivity|]).
  constructor; [apply nth_field; [exact Hall|lia]|constructor].
Qed.

Lemma builtOptions_length (f : formatFields) : (2 <= length (builtOptions f))%nat.
Proof. unfold builtOptions. rewrite !length_app. simpl. lia. Qed.

Lemma normalizeRuleFormat_nonempty (line : string) :
  normalizeRuleFormat line <> "" -> (length (Fields line) <? 2)%nat = false.
Proof.
  unfold normalizeRuleFormat. destruct (length (Fields line) <? 2)%nat; congruence.
Qed.

Lemma foldl_savesStep (all lines : list string) (rules : list string) :
  (forall line, In line lines -> In line all) ->
  Forall (scannedFrom all) rules ->
  Forall (scannedFrom all) (foldl savesStep rules lines).
Proof.
  revert rules. induction lines as [|line lines IH]; intros rules Hsub Hall; [exact Hall|].
  cbn [foldl]. apply IH; [intros l Hl; apply Hsub; now right|].
  unfold savesStep.
  destruct (Contains (TrimSpace line) "NETMAP") eqn:E1; cbn [andb]; [|exact Hall].
  destruct (HasPrefix (TrimSpace line) "-A ") eqn:E2; [|exact Hall].
  destruct (isEmpty (normalizeRuleFormat (TrimSpace line))) eqn:E3; cbn [negb]; [exact Hall|].
  apply Forall_app. split; [exact Hall|]. constructor; [|constructor].
  split; [now apply isEmpty_false|].
  exists line. split; [apply Hsub; now left|]. now split; [|split].
Qed.

Lemma isField_isEmpty (s : string) : isField s = true -> isEmpty s = false.
Proof. intros Hs. apply isField_noSpace in Hs as [_ Hs]. now apply isEmpty_false. Qed.

Lemma normalizeRuleFormat_postrouting (iface privateAddr publicAddr : string) :
  isField iface = true -> isField privateAddr = true -> isField publicAddr = true ->
  normalizeRuleFormat
    ("-A POSTROUTING -s " +:+ privateAddr +:+ " -o " +:+ iface
       +:+ " -j NETMAP --to " +:+ publicAddr)
  = netmap6.postroutingRule iface privateAddr publicAddr.
Proof.
  intros Hi Hpriv Hpub.
  assert (HF : Fields ("-A POSTROUTING -s " +:+ privateAddr +:+ " -o " +:+ iface
                         +:+ " -j NETMAP --to " +:+ publicAddr)
               = ["-A"; "POSTROUTING"; "-s"; privateAddr; "-o"; iface; "-j"; "NETMAP";
                  "--to"; publicAddr]).
  { replace ("-A POSTROUTING -s " +:+ privateAddr +:+ " -o " +:+ iface
               +:+ " -j NETMAP --to " +:+ publicAddr)
      with ("-A" +:+ spaced ["POSTROUTING"; "-s"; privateAddr; "-o"; iface; "-j"; "NETMAP";
                             "--to"; publicAddr])
      by (cbn [spaced]; now rewrite app_empty_r).
    apply Fields_spaced; [reflexivity|repeat constructor; assumption]. }
  unfold normalizeRuleFormat. rewrite HF. cbn [length Nat.ltb Nat.leb nth drop].
  replace (formatLoop ["-s"; privateAddr; "-o"; iface; "-j"; "NETMAP"; "--to"; publicAddr]
             noFormatFields)
    with {| fmtIface := iface; fmtDirection := "-o"; fmtSource := privateAddr;
            fmtDest := ""; fmtToAddr := publicAddr; fmtIsInput := false |}
    by reflexivity.
  unfold buildRule, netmap6.postroutingRule.
  cbn [fmtIface fmtDirection fmtSource fmtDest fmtToAddr fmtIsInput].
  rewrite (isField_isEmpty iface Hi), (isField_isEmpty privateAddr Hpriv),
    (isField_isEmpty publicAddr Hpub).
  cbn [isEmpty negb andb]. rewrite ?app_assoc'. reflexivity.
Qed.

Lemma normalizeRuleFormat_prerouting (iface privateAddr publicAddr : string) :
  isField iface = true -> isField privateAddr = true -> isField publicAddr = true ->
  normalizeRuleFormat
    ("-A PREROUTING -d " +:+ publicAddr +:+ " -i " +:+ iface
       +:+ " -j NETMAP --to " +:+ privateAddr)
  = netmap6.preroutingRule iface publicAddr privateAddr.
Proof.
  intros Hi Hpriv Hpub.
  assert (HF : Fields ("-A PREROUTING -d " +:+ publicAddr +:+ " -i " +:+ iface
                         +:+ " -j NETMAP --to " +:+ privateAddr)
               = ["-A"; "PREROUTING"; "-d"; publicAddr; "-i"; iface; "-j"; "NETMAP";
                  "--to"; privateAddr]).
  { replace ("-A PREROUTING -d " +:+ publicAddr +:+ " -i " +:+ iface
               +:+ " -j NETMAP --to " +:+ privateAddr)
      with ("-A" +:+ spaced ["PREROUTING"; "-d"; publicAddr; "-i"; iface; "-j"; "NETMAP";
                             "--to"; privateAddr])
      by (cbn [spaced]; now rewrite app_empty_r).
    apply Fields_spaced; [reflexivity|repeat constructor; assumption]. }
  unfold normalizeRuleFormat. rewrite HF. cbn [length Nat.ltb Nat.leb nth drop].
  replace (formatLoop ["-d"; publicAddr; "-i"; iface; "-j"; "NETMAP"; "--to"; privateAddr]
             noFormatFields)
    with {| fmtIface := iface; fmtDirection := "-i"; fmtSource := "";
            fmtDest := publicAddr; fmtToAddr := privateAddr; fmtIsInput := true |}
    by reflexivity.
  unfold buildRule, netmap6.preroutingRule.
  cbn [fmtIface fmtDirection fmtSource fmtDest fmtToAddr fmtIsInput].
  rewrite (isField_isEmpty iface Hi), (isField_isEmpty privateAddr Hpriv),
    (isField_isEmpty publicAddr Hpub).
  cbn [isEmpty negb andb]. rewrite ?app_assoc'. reflexivity.
Qed.

(** X5: the scanner reads the listing of a compiled rule back as the
    compiled text.  For an interface and addresses that are ASCII, non-empty
    and without white space, [normalizeRuleFormat] turns the [-S] line of
    the outbound rule into the rule compiler's POSTROUTING text and the line
    of the inbound rule into its PREROUTING text, so both get the keys of
    the desired rules. *)
Theorem normalizeRuleFormat_reads_compiled_rules
    (iface privateAddr publicAddr : string) :
  isASCII iface = true -> isASCII privateAddr = true -> isASCII publicAddr = true ->
  isField iface = true -> isField privateAddr = true -> isField publicAddr = true ->
  normalizeRuleFormat
    ("-A POSTROUTING -s " +:+ privateAddr +:+ " -o " +:+ iface
       +:+ " -j NETMAP --to " +:+ publicAddr)
  = netmap6.postroutingRule iface privateAddr publicAddr
  /\ normalizeRuleFormat
       ("-A PREROUTING -d " +:+ publicAddr +:+ " -i " +:+ iface
          +:+ " -j NETMAP --to " +:+ privateAddr)
     = netmap6.preroutingRule iface publicAddr privateAddr.
Proof.
  intros _ _ _ Hi Hpriv Hpub. split.
  - now apply normalizeRuleFormat_postrouting.
  - now apply normalizeRuleFormat_prerouting.
Qed.

Lemma normalizeRuleFormat_reads_compiled_rules_witness :
  normalizeRuleFormat
    "-A POSTROUTING -s b30::20:20:0:0/96 -o pub1a -j NETMAP --to 2001:db8:1::25:0:0/96"
  = netmap6.postroutingRule "pub1a" "b30::20:20:0:0/96" "2001:db8:1::25:0:0/96"
  /\ normalizeRuleFormat
       "-A PREROUTING -d 2001:db8:1::25:0:0/96 -i pub1a -j NETMAP --to b30::20:20:0:0/96"
     = netmap6.preroutingRule "pub1a" "2001:db8:1::25:0:0/96" "b30::20:20:0:0/96".
Proof.
  apply (normalizeRuleFormat_reads_compiled_rules
           "pub1a" "b30::20:20:0:0/96" "2001:db8:1::25:0:0/96"); reflexivity.
Defined.

(** X6: every rule the [-S] scanner returns was built from a line of the
    listing that contains NETMAP and begins with "-A "; it begins with the
    fields ip6tables, -t, nat, -A and has at least seven fields, so its
    comparison key is always built from its parsed fields and never is the
    raw text. *)
Theorem parseNetmapRulesFromSaves_structural :
  forall output : string,
    Forall
      (fun rule =>
         (exists line, In line (Split output newline)
            /\ Contains (TrimSpace line) "NETMAP" = true
            /\ HasPrefix (TrimSpace line) "-A " = true
            /\ rule = normalizeRuleFormat (TrimSpace line))
         /\ take 4 (Fields rule) = ["ip6tables"; "-t"; "nat"; "-A"]
         /\ (7 <= length (Fields rule))%nat
         /\ normalizeRule rule = formatKey (parseRule rule))
      (parseNetmapRulesFromSaves output).
Proof.
  intros output.
  pose proof (foldl_savesStep (Split output newline) (Split output newline) []
                (fun _ H => H) (List.Forall_nil _)) as Hall.
  unfold parseNetmapRulesFromSaves.
  eapply List.Forall_impl; [|exact Hall].
  intros rule (Hne & line & Hin & Hc & Hp & ->).
  apply normalizeRuleFormat_nonempty in Hne.
  pose proof (normalizeRuleFormat_Fields _ Hne) as HF.
  pose proof (builtOptions_length
                (formatLoop (drop 2 (Fields (TrimSpace line))) noFormatFields)) as Hl.
  assert (Hlen : (7 <= length (Fields (normalizeRuleFormat (TrimSpace line))))%nat)
    by (rewrite HF, length_app; simpl; lia).
  split; [exists line; now repeat split|]. split; [now rewrite HF|]. split; [exact Hlen|].
  unfold normalizeRule, parseRule.
  destruct (length (Fields (normalizeRuleFormat (TrimSpace line))) <? 6)%nat eqn:E;
    [apply Nat.ltb_lt in E; lia|reflexivity].
Qed.

End ScannerFacts.

(** ** Expansion against validation and against prefix removal *)

Section ExpansionFacts.
Import netmap6.

Lemma Contains_intro (x sub y : string) : Contains (x +:+ sub +:+ y) sub = true.
Proof.
  unfold Contains. induction x as [|c x IH].
  - rewrite app_empty_l.
    destruct (sub +:+ y) as [|d s] eqn:E.
    + destruct sub; [reflexivity|discriminate].
    + rewrite Cut_cons, <- E, HasPrefix_app. reflexivity.
  - rewrite app_cons, Cut_cons.
    destruct (HasPrefix (String c (x +:+ sub +:+ y)) sub); [reflexivity|].
    destruct (Cut (x +:+ sub +:+ y) sub) as [[b a]|]; [reflexivity|discriminate].
Qed.

Lemma HasPrefix_double_colon (s : string) :
  HasPrefix s "::" = true -> exists r, s = "::" +:+ r.
Proof.
  intros H. apply HasPrefix_split in H. eexists. exact H.
Qed.

Lemma expansion_triple_colon (address prefix : string) :
  prefix <> "" -> HasPrefix address "::" = true ->
  Contains (SimpleConcatAddress address prefix) ":::" = true.
Proof.
  intros Hp Ha. rewrite SimpleConcatAddress_eq.
  apply isEmpty_false in Hp. rewrite Hp.
  destruct (HasPrefix_double_colon _ Ha) as (r & ->).
  unfold addressBody.
  change (upTo "/" ("::" +:+ r)) with ("::" +:+ upTo "/" r).
  rewrite (app_assoc' "::").
  match goal with
  | |- context [":" +:+ "::" +:+ ?z] => change (":" +:+ "::" +:+ z) with (":::" +:+ z)
  end.
  apply Contains_intro.
Qed.

(** X7: under a non-empty prefix, an address that begins with "::" expands
    to a text that contains ":::", which the validator rejects; so a pair
    whose public address begins with "::" (as those of the shipped
    configuration do) never gets an advertisement route from a mapping set
    that has a public prefix. *)
Theorem expansion_of_compressed_address_is_invalid
    (n : Netmap6) (address : string) :
  PfxPub n <> "" -> HasPrefix address "::" = true ->
  isValidIPv6Address (SimpleConcatAddress address (PfxPub n)) = false
  /\ forall route, In route (GetRadvRoutes n) ->
                   Prefix route <> SimpleConcatAddress address (PfxPub n).
Proof.
  intros Hp Ha.
  assert (Hbad : isValidIPv6Address (SimpleConcatAddress address (PfxPub n)) = false).
  { destruct (isValidIPv6Address (SimpleConcatAddress address (PfxPub n))) eqn:E;
      [|reflexivity].
    apply valid_colon_runs in E as [E _].
    rewrite (expansion_triple_colon _ _ Hp Ha) in E. discriminate. }
  split; [exact Hbad|]. intros route Hin Heq.
  unfold GetRadvRoutes in Hin.
  destruct (Enabled n); cbn [negb] in Hin; [|destruct Hin].
  pose proof (foldl_radvStep_valid n (Maps n) [] (List.Forall_nil _)) as Hall.
  rewrite List.Forall_forall in Hall. apply Hall in Hin. congruence.
Qed.

Lemma expansion_of_compressed_address_is_invalid_witness :
  isValidIPv6Address "2001:db8:1:::25:0:0/96" = false
  /\ forall route,
       In route (GetRadvRoutes (samples.shippedSet [samples.announcedPair])) ->
       Prefix route <> "2001:db8:1:::25:0:0/96".
Proof.
  apply (expansion_of_compressed_address_is_invalid
           (samples.shippedSet [samples.announcedPair]) "::25:0:0/96");
    [discriminate|reflexivity].
Defined.

Lemma TrimRight_keeps (q : string) : endsWith ":" q = false -> TrimRight q ":" = q.
Proof.
  induction q as [|c q IH]; [reflexivity|]. intros H. cbn [TrimRight].
  destruct q as [|d q'].
  - cbn [TrimRight inCutset]. cbn [endsWith] in H. rewrite H. reflexivity.
  - rewrite IH by exact H. reflexivity.
Qed.

Lemma TrimRight_snoc_colon (q : string) : TrimRight (q +:+ ":") ":" = TrimRight q ":".
Proof.
  induction q as [|c q IH]; [reflexivity|].
  rewrite app_cons. cbn [TrimRight]. now rewrite IH.
Qed.

(** X8: inference and compilation fit together when the prefix ends in a
    single colon.  If a prefix is [q] followed by one colon, [q] not ending
    in a colon, and an address is that prefix followed by a remainder that
    does not begin with a colon and has at most one slash, then removing
    the prefix from the address and expanding the remainder under the
    prefix gives the address back. *)
Theorem removePrefix_then_expand (q remainder : string) :
  endsWith ":" q = false ->
  HasPrefix remainder ":" = false ->
  (countByte "/" remainder <= 1)%nat ->
  SimpleConcatAddress
    (configmaker.removePrefix ((q +:+ ":") +:+ remainder) (q +:+ ":")) (q +:+ ":")
  = (q +:+ ":") +:+ remainder.
Proof.
  intros Hq Hr Hs.
  assert (Hne : isEmpty (q +:+ ":") = false).
  { apply isEmpty_false. intros H. apply (f_equal String.length) in H.
    rewrite length_append in H. simpl in H. lia. }
  unfold configmaker.removePrefix. rewrite Hne, HasPrefix_app. cbn [negb orb].
  unfold TrimPrefix at 2. rewrite HasPrefix_app, drop_bytes_app.
  unfold TrimPrefix. rewrite Hr.
  rewrite SimpleConcatAddress_eq, Hne, TrimRight_snoc_colon, (TrimRight_keeps _ Hq).
  destruct (body_suffix_split remainder) as (dropped & Hsplit & Hd).
  apply Nat.leb_le in Hs. rewrite Hs in Hd. apply isEmpty_true in Hd. subst dropped.
  rewrite app_empty_r in Hsplit. rewrite <- Hsplit. now rewrite app_assoc'.
Qed.

Lemma removePrefix_then_expand_witness :
  SimpleConcatAddress
    (configmaker.removePrefix (("2001:db8:1" +:+ ":") +:+ "20:0:0/96") ("2001:db8:1" +:+ ":"))
    ("2001:db8:1" +:+ ":")
  = ("2001:db8:1" +:+ ":") +:+ "20:0:0/96".
Proof.
  apply (removePrefix_then_expand "2001:db8:1" "20:0:0/96");
    [reflexivity|reflexivity|vm_compute; lia].
Defined.

End ExpansionFacts.

(** ** Generating, listing and grouping NAT rules (natmanager) *)

Section NatScanFacts.

Lemma appendParts_spaced (parts : list string) (rule : string) :
  foldl (fun rule part => rule +:+ " " +:+ part) rule parts
  = rule +:+ netmapmanager.spaced parts.
Proof.
  revert rule. induction parts as [|part parts IH]; intros rule; cbn [foldl netmapmanager.spaced].
  - now rewrite app_empty_r.
  - rewrite IH. now rewrite !app_assoc'.
Qed.

Lemma trimRightSpace_noSpace (s : string) : noSpace s = true -> trimRightSpace s = s.
Proof.
  induction s as [|c s IH]; [reflexivity|].
  cbn [noSpace trimRightSpace]. intros [Hc Hs]%andb_prop. rewrite (IH Hs).
  destruct s; [|reflexivity]. now destruct (isSpace c).
Qed.

Lemma trimRightSpace_app (x y : string) :
  y <> "" -> trimRightSpace y = y -> trimRightSpace (x +:+ y) = x +:+ y.
Proof.
  intros Hy Hk. induction x as [|c x IH]; [now rewrite app_empty_l|].
  rewrite app_cons. cbn [trimRightSpace]. rewrite IH.
  destruct (x +:+ y) eqn:E; [|reflexivity].
  destruct x; [|discriminate]. now rewrite app_empty_l in E.
Qed.

Lemma trimRightSpace_spaced (tok : string) (toks : list string) :
  isField tok = true -> Forall (fun t => isField t = true) toks ->
  trimRightSpace (tok +:+ netmapmanager.spaced toks) = tok +:+ netmapmanager.spaced toks.
Proof.
  intros Ht Hall. revert tok Ht.
  induction Hall as [|t toks Hx Hall IH]; intros tok Ht.
  - cbn [netmapmanager.spaced]. rewrite app_empty_r.
    apply trimRightSpace_noSpace. now apply isField_noSpace in Ht.
  - cbn [netmapmanager.spaced]. rewrite <- !app_assoc'. rewrite app_assoc'.
    apply trimRightSpace_app; [|now apply IH].
    apply isField_noSpace in Hx as [_ Hx]. destruct t; [contradiction|discriminate].
Qed.

Lemma TrimSpace_listing (chain : string) (toks : list string) :
  isField chain = true -> Forall (fun t => isField t = true) toks ->
  TrimSpace ("-A " +:+ chain +:+ netmapmanager.spaced toks)
  = "-A " +:+ chain +:+ netmapmanager.spaced toks.
Proof.
  intros Hc Hall. unfold TrimSpace.
  change ("-A " +:+ chain +:+ netmapmanager.spaced toks)
    with ("-A" +:+ netmapmanager.spaced (chain :: toks)).
  replace (trimLeftSpace ("-A" +:+ netmapmanager.spaced (chain :: toks)))
    with ("-A" +:+ netmapmanager.spaced (chain :: toks)) by reflexivity.
  apply trimRightSpace_spaced; [reflexivity|now constructor].
Qed.

Lemma Fields_listing (chain : string) (toks : list string) :
  isField chain = true -> Forall (fun t => isField t = true) toks ->
  Fields ("-A " +:+ chain +:+ netmapmanager.spaced toks) = "-A" :: chain :: toks.
Proof.
  intros Hc Hall.
  change ("-A " +:+ chain +:+ netmapmanager.spaced toks)
    with ("-A" +:+ netmapmanager.spaced (chain :: toks)).
  apply Fields_spaced; [reflexivity|now constructor].
Qed.

Lemma natStep_listing (iptablesCmd chain : string) (toks rules : list string) :
  isField chain = true -> Forall (fun t => isField t = true) toks ->
  Contains ("-A " +:+ chain +:+ netmapmanager.spaced toks) "MASQUERADE" = true ->
  natmanager.natStep iptablesCmd rules ("-A " +:+ chain +:+ netmapmanager.spaced toks)
  = rules ++ [iptablesCmd +:+ " -t nat -A " +:+ chain +:+ netmapmanager.spaced toks].
Proof.
  intros Hc Hall Hm. unfold natmanager.natStep.
  rewrite (TrimSpace_listing _ _ Hc Hall), Hm, (Fields_listing _ _ Hc Hall).
  cbn [orb andb]. rewrite HasPrefix_app. cbn [length Nat.leb nth].
  unfold natmanager.appendParts. cbn [drop]. rewrite appendParts_spaced.
  now rewrite !app_assoc'.
Qed.

Lemma mangleStep_listing (iptablesCmd chain : string) (toks rules : list string) :
  isField chain = true -> Forall (fun t => isField t = true) toks ->
  Contains ("-A " +:+ chain +:+ netmapmanager.spaced toks) "TCPMSS" = true ->
  natmanager.mangleStep iptablesCmd rules ("-A " +:+ chain +:+ netmapmanager.spaced toks)
  = rules ++ [iptablesCmd +:+ " -t mangle -A " +:+ chain +:+ netmapmanager.spaced toks].
Proof.
  intros Hc Hall Hm. unfold natmanager.mangleStep.
  rewrite (TrimSpace_listing _ _ Hc Hall), Hm, (Fields_listing _ _ Hc Hall).
  cbn [andb]. rewrite HasPrefix_app. cbn [length Nat.leb nth].
  unfold natmanager.appendParts. cbn [drop]. rewrite appendParts_spaced.
  now rewrite !app_assoc'.
Qed.

Lemma string_of_uint_noSpace (d : Decimal.uint) :
  noSpace (NilEmpty.string_of_uint d) = true.
Proof. induction d; cbn [NilEmpty.string_of_uint noSpace]; try rewrite IHd; reflexivity. Qed.

Lemma Itoa_field (z : Z) : (0 < z)%Z -> isField (Itoa z) = true.
Proof.
  intros Hz. destruct z as [|p|p]; try lia.
  unfold Itoa. cbn [Z.to_int NilEmpty.string_of_int].
  apply isField_intro; [apply string_of_uint_noSpace|].
  pose proof (DecimalPos.Unsigned.to_uint_nonnil p) as Hn.
  destruct (Pos.to_uint p); [contradiction|discriminate..].
Qed.

Lemma foldl_origins_Forall (P : string -> Prop) (mk : string -> string)
    (origins : list string) (rules : list string) :
  Forall P rules ->
  Forall (fun origin => isEmpty origin = false -> P (mk origin)) origins ->
  Forall P (foldl (fun rules origin =>
                     if negb (isEmpty origin) then rules ++ [mk origin] else rules)
                  rules origins).
Proof.
  intros Hr Ho. revert rules Hr.
  induction Ho as [|origin origins Hx Ho IH]; intros rules Hr; [exact Hr|].
  cbn [foldl]. apply IH. destruct (isEmpty origin); cbn [negb]; [exact Hr|].
  apply Forall_app. split; [exact Hr|]. constructor; [now apply Hx|constructor].
Qed.

Lemma masquerade_scans_back (iptablesCmd interfaceName : string) :
  isField interfaceName = true ->
  natmanager.scansBack iptablesCmd
    (iptablesCmd +:+ " -t nat -A POSTROUTING -o " +:+ interfaceName +:+ " -j MASQUERADE").
Proof.
  intros Hi. left.
  exists ("-A " +:+ "POSTROUTING"
            +:+ netmapmanager.spaced ["-o"; interfaceName; "-j"; "MASQUERADE"]).
  split; [reflexivity|]. intros rules.
  rewrite natStep_listing; [reflexivity|reflexivity| |].
  - repeat (constructor; [assumption || reflexivity|]). constructor.
  - replace ("-A " +:+ "POSTROUTING"
               +:+ netmapmanager.spaced ["-o"; interfaceName; "-j"; "MASQUERADE"])
      with (("-A POSTROUTING -o " +:+ interfaceName +:+ " -j ") +:+ "MASQUERADE" +:+ "")
      by (rewrite !app_assoc'; reflexivity).
    apply Contains_intro.
Qed.

Lemma origin_scans_back (iptablesCmd interfaceName origin : string) :
  isField interfaceName = true -> isField origin = true ->
  natmanager.scansBack iptablesCmd
    (iptablesCmd +:+ " -t nat -A POSTROUTING -s " +:+ origin +:+ " -o " +:+ interfaceName
       +:+ " -j MASQUERADE").
Proof.
  intros Hi Ho. left.
  exists ("-A " +:+ "POSTROUTING"
            +:+ netmapmanager.spaced ["-s"; origin; "-o"; interfaceName; "-j"; "MASQUERADE"]).
  split; [reflexivity|]. intros rules.
  rewrite natStep_listing; [reflexivity|reflexivity| |].
  - repeat (constructor; [assumption || reflexivity|]). constructor.
  - replace ("-A " +:+ "POSTROUTING"
               +:+ netmapmanager.spaced
                     ["-s"; origin; "-o"; interfaceName; "-j"; "MASQUERADE"])
      with (("-A POSTROUTING -s " +:+ origin +:+ " -o " +:+ interfaceName +:+ " -j ")
              +:+ "MASQUERADE" +:+ "")
      by (rewrite !app_assoc'; reflexivity).
    apply Contains_intro.
Qed.

Lemma clamp_scans_back (iptablesCmd interfaceName : string) (mss : Z) :
  isField interfaceName = true -> (0 < mss)%Z ->
  natmanager.scansBack iptablesCmd
    (iptablesCmd +:+ " -t mangle -A FORWARD -o " +:+ interfaceName
       +:+ " -p tcp --tcp-flags SYN,RST SYN -j TCPMSS --set-mss " +:+ Itoa mss).
Proof.
  intros Hi Hm. right.
  exists ("-A " +:+ "FORWARD"
            +:+ netmapmanager.spaced
                  ["-o"; interfaceName; "-p"; "tcp"; "--tcp-flags"; "SYN,RST"; "SYN"; "-j";
                   "TCPMSS"; "--set-mss"; Itoa mss]).
  split.
  - cbn [netmapmanager.spaced]. now rewrite app_empty_r.
  - intros rules.
    rewrite mangleStep_listing; [|reflexivity| |].
    + cbn [netmapmanager.spaced]. now rewrite app_empty_r.
    + pose proof (Itoa_field mss Hm).
      repeat (constructor; [assumption || reflexivity|]). constructor.
    + replace ("-A " +:+ "FORWARD"
                 +:+ netmapmanager.spaced
                       ["-o"; interfaceName; "-p"; "tcp"; "--tcp-flags"; "SYN,RST"; "SYN";
                        "-j"; "TCPMSS"; "--set-mss"; Itoa mss])
        with (("-A FORWARD -o " +:+ interfaceName +:+ " -p tcp --tcp-flags SYN,RST SYN -j ")
                +:+ "TCPMSS" +:+ (" --set-mss " +:+ Itoa mss +:+ ""))
        by (rewrite !app_assoc'; reflexivity).
      apply Contains_intro.
Qed.

(** X9: with an interface name and origins that are ASCII and free of white
    space, every rule that [generateNat44Rules] and [generateNat66Rules]
    produce is read back unchanged by the scanner of the listings: the text
    after the command and the table is a line that the loop for that table
    turns into the very same rule text. *)
Theorem generated_nat_rules_scan_back
    (interfaceName : string) (n44 : link.nat44.Nat44) (n66 : link.nat66.Nat66) :
  isASCII interfaceName = true ->
  Forall (fun origin => isASCII origin = true) (link.nat44.Origins n44) ->
  Forall (fun origin => isASCII origin = true) (link.nat66.Origins n66) ->
  isField interfaceName = true ->
  Forall (fun origin => noSpace origin = true) (link.nat44.Origins n44) ->
  Forall (fun origin => noSpace origin = true) (link.nat66.Origins n66) ->
  Forall (natmanager.scansBack "iptables")
         (natmanager.generateNat44Rules interfaceName (Some n44))
  /\ Forall (natmanager.scansBack "ip6tables")
            (natmanager.generateNat66Rules interfaceName (Some n66)).
Proof.
  intros _ _ _ Hi H44 H66.
  assert (Hne : isEmpty interfaceName = false).
  { apply isField_noSpace in Hi as [_ Hi]. now apply isEmpty_false. }
  split.
  - unfold natmanager.generateNat44Rules.
    destruct (link.nat44.Enabled n44); cbn [negb]; [|constructor].
    rewrite Hne.
    apply (foldl_origins_Forall (natmanager.scansBack "iptables")
             (fun origin => "iptables -t nat -A POSTROUTING -s " +:+ origin +:+ " -o "
                              +:+ interfaceName +:+ " -j MASQUERADE")).
    + destruct (link.nat44.MssClamping n44 && (0 <? link.nat44.Mss n44)%Z) eqn:E.
      * apply andb_prop in E as [_ E%Z.ltb_lt].
        constructor; [exact (masquerade_scans_back "iptables" _ Hi)|].
        constructor; [exact (clamp_scans_back "iptables" _ _ Hi E)|constructor].
      * constructor; [exact (masquerade_scans_back "iptables" _ Hi)|constructor].
    + eapply Forall_impl; [exact H44|]. intros origin Hn He.
      apply (origin_scans_back "iptables" _ _ Hi).
      unfold isField. now rewrite He, Hn.
  - unfold natmanager.generateNat66Rules.
    destruct (link.nat66.Enabled n66); cbn [negb]; [|constructor].
    rewrite Hne.
    apply (foldl_origins_Forall (natmanager.scansBack "ip6tables")
             (fun origin => "ip6tables -t nat -A POSTROUTING -s " +:+ origin +:+ " -o "
                              +:+ interfaceName +:+ " -j MASQUERADE")).
    + destruct (link.nat66.MssClamping n66 && (0 <? link.nat66.Mss n66)%Z) eqn:E.
      * apply andb_prop in E as [_ E%Z.ltb_lt].
        constructor; [exact (masquerade_scans_back "ip6tables" _ Hi)|].
        constructor; [exact (clamp_scans_back "ip6tables" _ _ Hi E)|constructor].
      * constructor; [exact (masquerade_scans_back "ip6tables" _ Hi)|constructor].
    + eapply Forall_impl; [exact H66|]. intros origin Hn He.
      apply (origin_scans_back "ip6tables" _ _ Hi).
      unfold isField. now rewrite He, Hn.
Qed.

Lemma generated_nat_rules_scan_back_witness :
  Forall (natmanager.scansBack "iptables")
         (natmanager.generateNat44Rules "eth0" (Some samples.clamped44))
  /\ Forall (natmanager.scansBack "ip6tables")
            (natmanager.generateNat66Rules "eth0" (Some samples.clamped66)).
Proof.
  apply (generated_nat_rules_scan_back "eth0" samples.clamped44 samples.clamped66).
  - reflexivity.
  - repeat constructor.
  - repeat constructor.
  - reflexivity.
  - repeat constructor.
  - repeat constructor.
Defined.

(** X10: when the listing of the IPv4 nat table fails, [ApplyNatRules]
    returns that error behind "failed to apply NAT44 rules: "; the listing
    is the only command it has run, nothing is printed, and ip6tables is
    never invoked. *)
Theorem ApplyNatRules_listing_failure {World : Type}
    (Output CombinedOutput : CombinedOutputFn World) (QuietMode : bool)
    (links : list (string * link.Link)) (st : state World)
    (w : World) (output e : string) :
  Output ["iptables"; "-t"; "nat"; "-S"] (world st) = (w, output, Some e) ->
  natmanager.ApplyNatRules Output CombinedOutput QuietMode links st
  = ({| world := w;
        trace := trace st ++ [Run ["iptables"; "-t"; "nat"; "-S"] output (Some e)] |},
     Some ("failed to apply NAT44 rules: " +:+ e)).
Proof.
  intros H.
  unfold natmanager.ApplyNatRules, natmanager.applyNat44Rules,
    natmanager.getCurrentNat44Rules, natmanager.getCurrentNatRules, invoke.
  now rewrite H.
Qed.

Lemma ApplyNatRules_listing_failure_witness :
  natmanager.ApplyNatRules samples.alwaysFails samples.alwaysOk false
    [("eth0", {| link.Name := "eth0"; link.Netmap6 := []; link.Nat66 := None;
                 link.Nat44 := Some samples.clamped44; link.Radv := None |})]
    samples.start
  = ({| world := tt;
        trace := [Run ["iptables"; "-t"; "nat"; "-S"] "" (Some "exit status 1")] |},
     Some "failed to apply NAT44 rules: exit status 1").
Proof.
  apply (ApplyNatRules_listing_failure samples.alwaysFails samples.alwaysOk false _
           samples.start tt "" "exit status 1").
  reflexivity.
Defined.

Lemma natStep_prefix (iptablesCmd : string) (rules : list string) (line : string) :
  Forall (fun rule => HasPrefix rule (iptablesCmd +:+ " -t nat -A ") = true) rules ->
  Forall (fun rule => HasPrefix rule (iptablesCmd +:+ " -t nat -A ") = true)
         (natmanager.natStep iptablesCmd rules line).
Proof.
  intros Hr. unfold natmanager.natStep.
  destruct (_ && _); [|exact Hr].
  destruct (2 <=? _)%nat; [|exact Hr].
  apply Forall_app. split; [exact Hr|]. constructor; [|constructor].
  unfold natmanager.appendParts. rewrite appendParts_spaced.
  rewrite <- (app_assoc' iptablesCmd), app_assoc'. apply HasPrefix_app.
Qed.

(** X11: when the nat table can be listed and the listing of the mangle
    table fails, [getCurrentNatRules] reports no error: it returns the rules
    of the nat table alone, each of which begins with the command and
    " -t nat -A ", so that no MSS clamping rule is among the current rules. *)
Theorem getCurrentNatRules_mangle_failure {World : Type}
    (Output : CombinedOutputFn World) (iptablesCmd : string) (st : state World)
    (w1 w2 : World) (output1 output2 e : string) :
  Output [iptablesCmd; "-t"; "nat"; "-S"] (world st) = (w1, output1, None) ->
  Output [iptablesCmd; "-t"; "mangle"; "-S"] w1 = (w2, output2, Some e) ->
  exists rules,
    natmanager.getCurrentNatRules Output iptablesCmd st
    = ({| world := w2;
          trace := trace st
                     ++ [Run [iptablesCmd; "-t"; "nat"; "-S"] output1 None]
                     ++ [Run [iptablesCmd; "-t"; "mangle"; "-S"] output2 (Some e)] |},
       rules, None)
    /\ rules = foldl (natmanager.natStep iptablesCmd) [] (Split output1 newline)
    /\ Forall (fun rule => HasPrefix rule (iptablesCmd +:+ " -t nat -A ") = true) rules.
Proof.
  intros H1 H2. eexists. split; [|split; [reflexivity|]].
  - unfold natmanager.getCurrentNatRules, invoke.
    rewrite H1. cbn [world trace]. rewrite H2. now rewrite <- app_assoc.
  - generalize (Split output1 newline). intros lines.
    assert (G : forall rules,
               Forall (fun rule => HasPrefix rule (iptablesCmd +:+ " -t nat -A ") = true) rules ->
               Forall (fun rule => HasPrefix rule (iptablesCmd +:+ " -t nat -A ") = true)
                      (foldl (natmanager.natStep iptablesCmd) rules lines)).
    { induction lines as [|line lines IH]; intros rules Hr; [exact Hr|].
      cbn [foldl]. apply IH. now apply natStep_prefix. }
    apply G. constructor.
Qed.

Lemma getCurrentNatRules_mangle_failure_witness :
  exists rules,
    natmanager.getCurrentNatRules samples.mangleDown "iptables" samples.start
    = ({| world := tt;
          trace := []
                     ++ [Run ["iptables"; "-t"; "nat"; "-S"]
                           ("-A POSTROUTING -o eth0 -j MASQUERADE" +:+ newline) None]
                     ++ [Run ["iptables"; "-t"; "mangle"; "-S"] "" (Some "exit status 3")] |},
       rules, None)
    /\ rules = foldl (natmanager.natStep "iptables") []
                 (Split ("-A POSTROUTING -o eth0 -j MASQUERADE" +:+ newline) newline)
    /\ Forall (fun rule => HasPrefix rule ("iptables" +:+ " -t nat -A ") = true) rules.
Proof.
  apply (getCurrentNatRules_mangle_failure samples.mangleDown "iptables" samples.start
           tt tt ("-A POSTROUTING -o eth0 -j MASQUERADE" +:+ newline) "" "exit status 3");
    reflexivity.
Defined.

Lemma groupStep_lookup (rulesByInterface : gmap string (list string))
    (rules : list string) (iface : string) :
  foldl natmanager.groupStep rulesByInterface rules !! iface
  = if isEmpty iface then rulesByInterface !! iface
    else match natmanager.rulesFor iface rules with
         | [] => rulesByInterface !! iface
         | found => Some (default [] (rulesByInterface !! iface) ++ found)
         end.
Proof.
  revert rulesByInterface.
  induction rules as [|rule rules IH]; intros m.
  - cbn [foldl natmanager.rulesFor List.filter]. now destruct (isEmpty iface).
  - cbn [foldl]. rewrite IH. unfold natmanager.rulesFor. cbn [List.filter].
    fold (natmanager.rulesFor iface rules).
    destruct (isEmpty iface) eqn:Ei.
    + unfold natmanager.groupStep.
      destruct (isEmpty (natmanager.outInterface rule)) eqn:Eo; cbn [negb]; [reflexivity|].
      apply lookup_insert_ne. intros Heq. rewrite Heq in Eo. congruence.
    + unfold natmanager.groupStep.
      destruct (String.eqb_spec (natmanager.outInterface rule) iface) as [Heq|Hne].
      * rewrite Heq, Ei. cbn [negb]. rewrite lookup_insert_eq. cbn [from_option id].
        destruct (natmanager.rulesFor iface rules) as [|r found].
        -- reflexivity.
        -- now rewrite <- app_assoc.
      * destruct (isEmpty (natmanager.outInterface rule)); cbn [negb]; [reflexivity|].
        now rewrite lookup_insert_ne.
Qed.

(** X12: [groupNatRulesByInterface] files every rule under the field that
    follows its first "-o" and under nothing else: the entry of an interface
    is the list of the rules with that outgoing interface, in input order;
    an interface without such a rule has no entry, and rules without an
    outgoing interface are left out. *)
Theorem groupNatRulesByInterface_partitions (rules : list string) (iface : string) :
  natmanager.groupNatRulesByInterface rules !! iface
  = if isEmpty iface then None
    else match natmanager.rulesFor iface rules with
         | [] => None
         | found => Some found
         end.
Proof.
  unfold natmanager.groupNatRulesByInterface. rewrite groupStep_lookup.
  rewrite lookup_empty. cbn [from_option]. reflexivity.
Qed.

Lemma flushTables_ok {World : Type} (RunCmd : CombinedOutputFn World) (QuietMode : bool)
    (iptablesCmd ipVersion : string) (st : state World) :
  (forall cmd w, snd (RunCmd [cmd; "-t"; "nat"; "-F"] w) = None) ->
  exists st',
    natmanager.flushTables RunCmd QuietMode iptablesCmd ipVersion st = (st', None)
    /\ invocations (trace st')
       = invocations (trace st)
           ++ [[iptablesCmd; "-t"; "nat"; "-F"];
               [iptablesCmd; "-t"; "mangle"; "-F"; "FORWARD"]].
Proof.
  intros H. unfold natmanager.flushTables, invoke.
  pose proof (H iptablesCmd (world st)) as H1.
  destruct (RunCmd [iptablesCmd; "-t"; "nat"; "-F"] (world st)) as [[w1 o1] e1].
  cbn [snd] in H1. subst e1. cbn [world trace].
  destruct (RunCmd [iptablesCmd; "-t"; "mangle"; "-F"; "FORWARD"] w1) as [[w2 o2] e2].
  eexists. split; [reflexivity|].
  destruct e2, QuietMode; cbn [negb]; unfold Printf; cbn [trace world];
    rewrite !invocations_app; cbn; rewrite ?app_nil_r, <- app_assoc; reflexivity.
Qed.

(** X13: if flushing a nat table never fails, [FlushNatRules "both"]
    returns no error whatever the flushes of the mangle table do, and it
    runs four commands: for iptables and then for ip6tables, the flush of
    the nat table and the flush of the FORWARD chain of the mangle table. *)
Theorem FlushNatRules_ignores_mangle_failures {World : Type}
    (RunCmd : CombinedOutputFn World) (QuietMode : bool) (st : state World) :
  (forall cmd w, snd (RunCmd [cmd; "-t"; "nat"; "-F"] w) = None) ->
  snd (natmanager.FlushNatRules RunCmd QuietMode "both" st) = None
  /\ invocations (trace (fst (natmanager.FlushNatRules RunCmd QuietMode "both" st)))
     = invocations (trace st)
         ++ [["iptables"; "-t"; "nat"; "-F"];
             ["iptables"; "-t"; "mangle"; "-F"; "FORWARD"];
             ["ip6tables"; "-t"; "nat"; "-F"];
             ["ip6tables"; "-t"; "mangle"; "-F"; "FORWARD"]].
Proof.
  intros H. unfold natmanager.FlushNatRules.
  replace (String.eqb "both" "ipv4") with false by reflexivity.
  replace (String.eqb "both" "ipv6") with false by reflexivity.
  replace (String.eqb "both" "both") with true by reflexivity.
  destruct (flushTables_ok RunCmd QuietMode "iptables" "ipv4" st H) as (st1 & E1 & T1).
  rewrite E1.
  destruct (flushTables_ok RunCmd QuietMode "ip6tables" "ipv6" st1 H) as (st2 & E2 & T2).
  rewrite E2. cbn [fst snd]. split; [reflexivity|].
  rewrite T2, T1, <- app_assoc. reflexivity.
Qed.

Lemma FlushNatRules_ignores_mangle_failures_witness :
  snd (natmanager.FlushNatRules samples.mangleDown false "both" samples.start) = None
  /\ invocations
       (trace (fst (natmanager.FlushNatRules samples.mangleDown false "both" samples.start)))
     = invocations (trace samples.start)
         ++ [["iptables"; "-t"; "nat"; "-F"];
             ["iptables"; "-t"; "mangle"; "-F"; "FORWARD"];
             ["ip6tables"; "-t"; "nat"; "-F"];
             ["ip6tables"; "-t"; "mangle"; "-F"; "FORWARD"]].
Proof.
  apply (FlushNatRules_ignores_mangle_failures samples.mangleDown false samples.start).
  intros cmd w. reflexivity.
Defined.

End NatScanFacts.

(** ** Routes announced for the mapping sets of a link (link) *)

Section AutoRouteFacts.

Lemma foldl_snoc_map {A B : Type} (f : A -> B) (l : list A) (acc : list B) :
  foldl (fun acc x => acc ++ [f x]) acc l = acc ++ map f l.
Proof.
  revert acc. induction l as [|x l IH]; intros acc; cbn [foldl map].
  - now rewrite app_nil_r.
  - rewrite IH, <- app_assoc. reflexivity.
Qed.

Lemma foldl_collectStep (entries : list (string * netmap6.Netmap6))
    (autoRoutes : list radv.RouteConfig) :
  foldl link.collectStep autoRoutes entries
  = autoRoutes
      ++ flat_map (fun entry => map link.toRouteConfig (netmap6.GetRadvRoutes (snd entry)))
           entries.
Proof.
  revert autoRoutes. induction entries as [|entry entries IH]; intros acc; cbn [foldl flat_map].
  - now rewrite app_nil_r.
  - rewrite IH. unfold link.collectStep. rewrite foldl_snoc_map.
    unfold netmap6.GetRadvRoutes.
    destruct (negb (netmap6.Enabled (snd entry))); cbn [map].
    + now rewrite app_nil_l.
    + now rewrite <- app_assoc.
Qed.

Lemma foldl_filterStep (manualRoutes autoRoutes filtered : list radv.RouteConfig) :
  foldl (link.filterStep manualRoutes) filtered autoRoutes
  = filtered
      ++ List.filter (fun autoRoute =>
                        negb (link.isDuplicate (radv.Prefix autoRoute) manualRoutes))
           autoRoutes.
Proof.
  revert filtered. induction autoRoutes as [|a autoRoutes IH]; intros acc;
    cbn [foldl List.filter].
  - now rewrite app_nil_r.
  - rewrite IH. unfold link.filterStep.
    destruct (negb (link.isDuplicate (radv.Prefix a) manualRoutes)); [|reflexivity].
    now rewrite <- app_assoc.
Qed.

Lemma isDuplicate_false (prefix : string) (manualRoutes : list radv.RouteConfig) :
  link.isDuplicate prefix manualRoutes = false
  <-> Forall (fun manualRoute => radv.Prefix manualRoute <> prefix) manualRoutes.
Proof.
  induction manualRoutes as [|m manualRoutes IH]; cbn [link.isDuplicate].
  - split; [constructor|reflexivity].
  - destruct (String.eqb_spec prefix (radv.Prefix m)) as [Heq|Hne].
    + split; [discriminate|]. intros H. inversion H; subst. congruence.
    + rewrite IH. split.
      * intros H. constructor; [congruence|exact H].
      * intros H. now inversion H.
Qed.

(** X14: on a link with a radv configuration, [generateAutoRoutes] leaves
    the manual routes as they are and stores as automatic routes exactly
    the routes of the link's mapping sets whose prefix no manual route has:
    each automatic route has a valid prefix that differs from the prefix of
    every manual route, and every route of a mapping set whose prefix no
    manual route has is among them. *)
Theorem generateAutoRoutes_avoids_manual_routes (l : link.Link) (r : radv.RadvConfig) :
  link.Radv l = Some r ->
  exists r',
    link.Radv (link.generateAutoRoutes l) = Some r'
    /\ radv.Routes r' = radv.Routes r
    /\ Forall (fun autoRoute =>
                 netmap6.isValidIPv6Address (radv.Prefix autoRoute) = true
                 /\ Forall (fun manualRoute =>
                              radv.Prefix manualRoute <> radv.Prefix autoRoute)
                           (radv.Routes r))
              (radv.AutoRoutes r')
    /\ (forall entry route,
          In entry (link.Netmap6 l) ->
          In route (netmap6.GetRadvRoutes (snd entry)) ->
          Forall (fun manualRoute => radv.Prefix manualRoute <> netmap6.Prefix route)
                 (radv.Routes r) ->
          In (link.toRouteConfig route) (radv.AutoRoutes r')).
Proof.
  intros Hr. unfold link.generateAutoRoutes. rewrite Hr.
  eexists. split; [reflexivity|]. cbn [radv.Routes radv.AutoRoutes link.Radv].
  split; [reflexivity|].
  rewrite foldl_filterStep, foldl_collectStep. cbn [app].
  split.
  - apply List.Forall_forall. intros a [Hin Hd]%List.filter_In.
    apply negb_true_iff, isDuplicate_false in Hd. split; [|exact Hd].
    apply in_flat_map in Hin as (entry & _ & Hin).
    apply in_map_iff in Hin as (route & <- & Hin).
    cbn [link.toRouteConfig radv.Prefix].
    unfold netmap6.GetRadvRoutes in Hin.
    destruct (negb (netmap6.Enabled (snd entry))); [contradiction|].
    pose proof (foldl_radvStep_valid (snd entry) (netmap6.Maps (snd entry)) []
                  (List.Forall_nil _)) as Hall.
    rewrite List.Forall_forall in Hall. now apply Hall.
  - intros entry route He Hroute Hm.
    apply List.filter_In. split.
    + apply in_flat_map. exists entry. split; [exact He|].
      apply in_map_iff. now exists route.
    + apply negb_true_iff, isDuplicate_false. exact Hm.
Qed.

Lemma generateAutoRoutes_avoids_manual_routes_witness :
  exists r',
    link.Radv (link.generateAutoRoutes samples.announcingLink) = Some r'
    /\ radv.Routes r' = radv.Routes samples.manualRoutes
    /\ Forall (fun autoRoute =>
                 netmap6.isValidIPv6Address (radv.Prefix autoRoute) = true
                 /\ Forall (fun manualRoute =>
                              radv.Prefix manualRoute <> radv.Prefix autoRoute)
                           (radv.Routes samples.manualRoutes))
              (radv.AutoRoutes r')
    /\ (forall entry route,
          In entry (link.Netmap6 samples.announcingLink) ->
          In route (netmap6.GetRadvRoutes (snd entry)) ->
          Forall (fun manualRoute => radv.Prefix manualRoute <> netmap6.Prefix route)
                 (radv.Routes samples.manualRoutes) ->
          In (link.toRouteConfig route) (radv.AutoRoutes r'))
    /\ radv.AutoRoutes r'
       = [ {| radv.Prefix := "2001:db8:1::25:0:0/96"; radv.Preference := "high";
              radv.Metric := 0; radv.Lifetime := 3600 |} ].
Proof.
  destruct (generateAutoRoutes_avoids_manual_routes samples.announcingLink
              samples.manualRoutes eq_refl) as (r' & Hr & Hroutes & Hall & Hin).
  exists r'. split; [exact Hr|]. split; [exact Hroutes|]. split; [exact Hall|].
  split; [exact Hin|].
  vm_compute in Hr. injection Hr as Hr. rewrite <- Hr. reflexivity.
Defined.

End AutoRouteFacts.

(** ** From the configuration of a mapping set to its rules (netmap6) *)

Section NewNetmap6Facts.
Context {Float64 : Type} (toInt : Float64 -> Z).

Lemma fillMaps_map (cfgMaps : list (config.MapPair Float64)) (done : list netmap6.MapPair) :
  netmap6.fillMaps toInt (length done) cfgMaps
    (done ++ replicate (length cfgMaps) netmap6.noPair)
  = done
      ++ map (fun mapPair =>
                if (length (config.Pair mapPair) <? 2)%nat then netmap6.noPair
                else netmap6.newPair toInt (config.Pair mapPair))
           cfgMaps.
Proof.
  revert done. induction cfgMaps as [|mapPair rest IH]; intros done; [reflexivity|].
  cbn [netmap6.fillMaps length replicate map].
  assert (Hlen : S (length done) = length (done ++ [netmap6.noPair])).
  { rewrite length_app. cbn [length]. lia. }
  destruct (length (config.Pair mapPair) <? 2)%nat.
  - replace (done ++ netmap6.noPair :: replicate (length rest) netmap6.noPair)
      with ((done ++ [netmap6.noPair]) ++ replicate (length rest) netmap6.noPair)
      by now rewrite <- app_assoc.
    rewrite Hlen, IH. now rewrite <- app_assoc.
  - replace (<[length done := netmap6.newPair toInt (config.Pair mapPair)]>
               (done ++ netmap6.noPair :: replicate (length rest) netmap6.noPair))
      with ((done ++ [netmap6.newPair toInt (config.Pair mapPair)])
              ++ replicate (length rest) netmap6.noPair).
    + replace (S (length done))
        with (length (done ++ [netmap6.newPair toInt (config.Pair mapPair)]))
        by (rewrite length_app; cbn [length]; lia).
      rewrite IH. now rewrite <- app_assoc.
    + rewrite <- app_assoc. cbn [app].
      rewrite <- (Nat.add_0_r (length done)).
      now rewrite insert_app_r.
Qed.

Lemma NewNetmap6_Maps (name : string) (cfg : config.Netmap6Config Float64) :
  netmap6.Maps (netmap6.NewNetmap6 toInt name cfg)
  = map (fun mapPair =>
           if (length (config.Pair mapPair) <? 2)%nat then netmap6.noPair
           else netmap6.newPair toInt (config.Pair mapPair))
        (config.Maps cfg).
Proof.
  unfold netmap6.NewNetmap6. cbn [netmap6.Maps].
  exact (fillMaps_map (config.Maps cfg) []).
Qed.

(** X15: [NewNetmap6] keeps one pair per entry of the configuration, in
    order.  The rules compiled from the result are those of the entries
    whose first two elements are non-empty strings, two for each: an entry
    of fewer than two elements, or with an address that is not a string,
    yields no rule.  A pair carries route settings exactly when its entry
    has at least four elements. *)
Theorem NewNetmap6_rules (name : string) (cfg : config.Netmap6Config Float64)
    (interfaceName : string) :
  length (netmap6.Maps (netmap6.NewNetmap6 toInt name cfg)) = length (config.Maps cfg)
  /\ netmap6.GenerateIp6tablesRules (netmap6.NewNetmap6 toInt name cfg) interfaceName
     = (if config.Enabled cfg && negb (isEmpty interfaceName)
        then flat_map (netmap6.entryRules cfg interfaceName) (config.Maps cfg)
        else [])
  /\ Forall2 (fun mapPair pair =>
                match netmap6.Radv pair with
                | Some _ => netmap6.entryAnnounced mapPair = true
                | None => netmap6.entryAnnounced mapPair = false
                end)
             (config.Maps cfg) (netmap6.Maps (netmap6.NewNetmap6 toInt name cfg)).
Proof.
  rewrite NewNetmap6_Maps. split; [now rewrite length_map|]. split.
  - rewrite GenerateIp6tablesRules_flat_map, NewNetmap6_Maps.
    cbn [netmap6.NewNetmap6 netmap6.Enabled].
    destruct (config.Enabled cfg && negb (isEmpty interfaceName)); [|reflexivity].
    induction (config.Maps cfg) as [|mapPair rest IH]; [reflexivity|].
    cbn [map flat_map]. rewrite IH. f_equal.
    unfold netmap6.pairRules, netmap6.entryRules, netmap6.newPair.
    cbn [netmap6.PfxPub netmap6.PfxPriv].
    destruct (config.Pair mapPair) as [|v0 [|v1 elements]];
      [reflexivity|now destruct v0|].
    replace (length (v0 :: v1 :: elements) <? 2)%nat with false by reflexivity.
    cbn [nth].
    destruct (4 <=? length (v0 :: v1 :: elements))%nat;
      cbn [netmap6.Public netmap6.Private];
      destruct v0 as [public| | |]; cbn [netmap6.stringOr isEmpty orb]; try reflexivity;
      destruct v1 as [private| | |]; cbn [netmap6.stringOr isEmpty orb];
      try reflexivity; now destruct (isEmpty public).
  - induction (config.Maps cfg) as [|mapPair rest IH]; [constructor|].
    cbn [map]. constructor; [|exact IH].
    unfold netmap6.entryAnnounced, netmap6.newPair.
    destruct (config.Pair mapPair) as [|v0 [|v1 [|v2 [|v3 elements]]]]; reflexivity.
Qed.

End NewNetmap6Facts.

(** ** Mappings and the routes announced for them (configmaker) *)

Section CorrelationFacts.

Lemma matchRoute_find (mappingWithRadv : configmaker.withRadv.NetmapMappingWithRadv)
    (public : string) (routes : list configmaker.radvd.RadvdRoute) :
  configmaker.matchRoute mappingWithRadv public routes
  = match List.find (fun route => String.eqb (configmaker.radvd.Prefix route) public) routes with
    | Some route =>
        {| configmaker.withRadv.Public := configmaker.withRadv.Public mappingWithRadv;
           configmaker.withRadv.Private := configmaker.withRadv.Private mappingWithRadv;
           configmaker.withRadv.HasRadv := true;
           configmaker.withRadv.RadvPreference := configmaker.radvd.Preference route;
           configmaker.withRadv.RadvLifetime := configmaker.radvd.Lifetime route |}
    | None => mappingWithRadv
    end.
Proof.
  induction routes as [|route routes IH]; [reflexivity|].
  cbn [configmaker.matchRoute List.find].
  now destruct (String.eqb (configmaker.radvd.Prefix route) public).
Qed.

(** X16: [correlateNetmapWithRadvRoutes] returns one entry per mapping, in
    order, with the mapping's two addresses.  The entry takes preference and
    lifetime from the first route whose prefix is, byte for byte, the public
    address of the mapping; without such a route it is marked as not
    announced, with an empty preference and lifetime 0. *)
Theorem correlateNetmapWithRadvRoutes_first_match
    (mappings : list configmaker.NetmapMapping)
    (routes : list configmaker.radvd.RadvdRoute) :
  Forall2
    (fun mapping found =>
       configmaker.withRadv.Public found = configmaker.Public mapping
       /\ configmaker.withRadv.Private found = configmaker.Private mapping
       /\ match List.find (fun route => String.eqb (configmaker.radvd.Prefix route)
                                          (configmaker.Public mapping)) routes with
          | Some route =>
              configmaker.withRadv.HasRadv found = true
              /\ configmaker.withRadv.RadvPreference found = configmaker.radvd.Preference route
              /\ configmaker.withRadv.RadvLifetime found = configmaker.radvd.Lifetime route
          | None =>
              configmaker.withRadv.HasRadv found = false
              /\ configmaker.withRadv.RadvPreference found = ""
              /\ configmaker.withRadv.RadvLifetime found = 0%Z
          end)
    mappings (configmaker.correlateNetmapWithRadvRoutes mappings routes).
Proof.
  unfold configmaker.correlateNetmapWithRadvRoutes.
  rewrite (foldl_snoc_map
             (fun mapping =>
                configmaker.matchRoute
                  {| configmaker.withRadv.Public := configmaker.Public mapping;
                     configmaker.withRadv.Private := configmaker.Private mapping;
                     configmaker.withRadv.HasRadv := false;
                     configmaker.withRadv.RadvPreference := "";
                     configmaker.withRadv.RadvLifetime := 0 |}
                  (configmaker.Public mapping) routes)).
  cbn [app]. induction mappings as [|mapping mappings IH]; [constructor|].
  cbn [map]. constructor; [|exact IH].
  rewrite matchRoute_find.
  destruct (List.find _ routes); cbn; auto.
Qed.

End CorrelationFacts.

(** ** The scan and the generation of the netmap applier (netmapmanager) *)

Section LinksFacts.
Context {World : Type} (Output CombinedOutput : CombinedOutputFn World).

Lemma Fields_ip6tables (s : string) :
  Fields ("ip6tables " +:+ s) = "ip6tables" :: Fields s.
Proof.
  change ("ip6tables " +:+ s) with ("ip6tables" +:+ String " " s).
  now apply Fields_cons.
Qed.

Lemma tryDirectRule_invocations (s : string) (st : state World) :
  invocations (trace (netmapmanager.tryDirectRule CombinedOutput ("ip6tables " +:+ s) st))
  = invocations (trace st) ++ [Fields ("ip6tables " +:+ s)].
Proof.
  unfold netmapmanager.tryDirectRule, netmapmanager.executeIp6tablesRule.
  rewrite Fields_ip6tables. unfold Printf. cbn [world trace].
  destruct (CombinedOutput ("ip6tables" :: Fields s) (world st)) as [[w output] [e|]];
    cbn [trace]; rewrite !invocations_app; cbn; now rewrite !app_nil_r.
Qed.

Lemma foldl_fallbackStep_invocations (netmap : netmap6.Netmap6) (linkName : string)
    (maps : list netmap6.MapPair) (st : state World) :
  invocations (trace (foldl (netmapmanager.fallbackStep CombinedOutput netmap linkName)
                        st maps))
  = invocations (trace st)
      ++ map Fields
           (flat_map
              (fun mapping =>
                 [ netmap6.postroutingRule linkName
                     (netmap6.SimpleConcatAddress (netmap6.Private mapping)
                        (netmap6.PfxPriv netmap))
                     (netmap6.SimpleConcatAddress (netmap6.Public mapping)
                        (netmap6.PfxPub netmap));
                   netmap6.preroutingRule linkName
                     (netmap6.SimpleConcatAddress (netmap6.Public mapping)
                        (netmap6.PfxPub netmap))
                     (netmap6.SimpleConcatAddress (netmap6.Private mapping)
                        (netmap6.PfxPriv netmap)) ])
              maps).
Proof.
  revert st. induction maps as [|mapping maps IH]; intros st.
  - cbn [foldl flat_map map]. now rewrite app_nil_r.
  - cbn [foldl flat_map app map]. rewrite IH.
    unfold netmapmanager.fallbackStep, netmap6.postroutingRule, netmap6.preroutingRule.
    change ("ip6tables -t nat -A PREROUTING -i " +:+ ?x)
      with ("ip6tables " +:+ "-t nat -A PREROUTING -i " +:+ x).
    change ("ip6tables -t nat -A POSTROUTING -o " +:+ ?x)
      with ("ip6tables " +:+ "-t nat -A POSTROUTING -o " +:+ x).
    rewrite !tryDirectRule_invocations. rewrite <- !app_assoc. reflexivity.
Qed.

(** X17: for an enabled mapping set with at least one pair for which the
    rule compiler yields no rule, the generation step of [ApplyNetmapRules]
    adds nothing to the desired rules and yet runs two ip6tables commands
    for every pair of the set: the POSTROUTING and PREROUTING rules built
    from the pair, including those the compiler skipped. *)
Theorem generateStep_runs_skipped_pairs
    (linkName netmapName : string) (netmap : netmap6.Netmap6)
    (newRules : list string) (st : state World) :
  netmap6.Enabled netmap = true ->
  netmap6.Maps netmap <> [] ->
  netmap6.GenerateIp6tablesRules netmap linkName = [] ->
  snd (netmapmanager.generateStep CombinedOutput linkName (st, newRules)
         (netmapName, netmap)) = newRules
  /\ invocations
       (trace (fst (netmapmanager.generateStep CombinedOutput linkName (st, newRules)
                      (netmapName, netmap))))
     = invocations (trace st)
         ++ map Fields
              (flat_map
                 (fun mapping =>
                    [ netmap6.postroutingRule linkName
                        (netmap6.SimpleConcatAddress (netmap6.Private mapping)
                           (netmap6.PfxPriv netmap))
                        (netmap6.SimpleConcatAddress (netmap6.Public mapping)
                           (netmap6.PfxPub netmap));
                      netmap6.preroutingRule linkName
                        (netmap6.SimpleConcatAddress (netmap6.Public mapping)
                           (netmap6.PfxPub netmap))
                        (netmap6.SimpleConcatAddress (netmap6.Private mapping)
                           (netmap6.PfxPriv netmap)) ])
                 (netmap6.Maps netmap)).
Proof.
  intros He Hm Hg. unfold netmapmanager.generateStep. cbn [fst snd].
  rewrite Hg, He. cbn [length Nat.eqb andb].
  destruct (netmap6.Maps netmap) as [|m maps] eqn:E; [congruence|].
  replace (0 <? length (m :: maps))%nat with true by reflexivity.
  split; [now rewrite app_nil_r|].
  rewrite foldl_fallbackStep_invocations. unfold Printf. cbn [trace].
  rewrite invocations_app. cbn [invocations List.filter isRun map]. now rewrite app_nil_r.
Qed.

End LinksFacts.

Lemma generateStep_runs_skipped_pairs_witness :
  snd (netmapmanager.generateStep samples.alwaysOk "pub1a" (samples.start, [])
         ("c1", samples.shippedSet [samples.emptyPair])) = []
  /\ invocations
       (trace (fst (netmapmanager.generateStep samples.alwaysOk "pub1a" (samples.start, [])
                      ("c1", samples.shippedSet [samples.emptyPair]))))
     = invocations (trace samples.start)
         ++ map Fields
              (flat_map
                 (fun mapping =>
                    [ netmap6.postroutingRule "pub1a"
                        (netmap6.SimpleConcatAddress (netmap6.Private mapping)
                           (netmap6.PfxPriv (samples.shippedSet [samples.emptyPair])))
                        (netmap6.SimpleConcatAddress (netmap6.Public mapping)
                           (netmap6.PfxPub (samples.shippedSet [samples.emptyPair])));
                      netmap6.preroutingRule "pub1a"
                        (netmap6.SimpleConcatAddress (netmap6.Public mapping)
                           (netmap6.PfxPub (samples.shippedSet [samples.emptyPair])))
                        (netmap6.SimpleConcatAddress (netmap6.Private mapping)
                           (netmap6.PfxPriv (samples.shippedSet [samples.emptyPair]))) ])
                 (netmap6.Maps (samples.shippedSet [samples.emptyPair]))).
Proof.
  apply (generateStep_runs_skipped_pairs samples.alwaysOk "pub1a" "c1"
           (samples.shippedSet [samples.emptyPair]) [] samples.start).
  - reflexivity.
  - discriminate.
  - reflexivity.
Defined.

(** ** A host that already has the compiled rules (netmapmanager) *)

Section SettledFacts.
Import netmapmanager.

Lemma afterFirst_noSpace (s : string) :
  noSpace s = true -> netmap6.afterFirst (ascii_of_nat 10) s = None.
Proof.
  induction s as [|d s IH]; [reflexivity|].
  cbn [noSpace netmap6.afterFirst]. intros [Hd Hs]%andb_prop.
  destruct (Ascii.eqb_spec d (ascii_of_nat 10)) as [->|_]; [discriminate|].
  now apply IH.
Qed.

Lemma afterFirst_app_none (c : ascii) (s t : string) :
  netmap6.afterFirst c s = None -> netmap6.afterFirst c t = None ->
  netmap6.afterFirst c (s +:+ t) = None.
Proof.
  intros Hs Ht. induction s as [|d s IH]; [now rewrite app_empty_l|].
  rewrite app_cons. cbn [netmap6.afterFirst] in *.
  destruct (Ascii.eqb d c); [discriminate|]. now apply IH.
Qed.

Lemma afterFirst_spaced (toks : list string) :
  Forall (fun t => isField t = true) toks ->
  netmap6.afterFirst (ascii_of_nat 10) (spaced toks) = None.
Proof.
  induction 1 as [|t toks Ht Hall IH]; [reflexivity|].
  cbn [spaced]. change (" " +:+ t +:+ spaced toks) with (String " " (t +:+ spaced toks)).
  cbn [netmap6.afterFirst].
  replace (Ascii.eqb " " (ascii_of_nat 10)) with false by reflexivity.
  apply afterFirst_app_none; [|exact IH].
  apply afterFirst_noSpace. now apply isField_noSpace in Ht.
Qed.

Lemma Split_line (line rest : string) :
  netmap6.afterFirst (ascii_of_nat 10) line = None ->
  Split (line +:+ newline +:+ rest) newline = line :: Split rest newline.
Proof.
  intros H. unfold newline. rewrite Split_byte.
  change (String (ascii_of_nat 10) "" +:+ rest) with (String (ascii_of_nat 10) rest).
  assert (G : netmap6.afterFirst (ascii_of_nat 10) (line +:+ String (ascii_of_nat 10) rest)
              = Some rest
              /\ netmap6.upTo (ascii_of_nat 10) (line +:+ String (ascii_of_nat 10) rest)
                 = line).
  { induction line as [|d line IH].
    - rewrite app_empty_l. cbn [netmap6.afterFirst netmap6.upTo].
      now rewrite Ascii.eqb_refl.
    - rewrite app_cons. cbn [netmap6.afterFirst netmap6.upTo] in *.
      destruct (Ascii.eqb d (ascii_of_nat 10)); [discriminate|].
      destruct (IH H) as [-> ->]. now split. }
  destruct G as [-> ->]. reflexivity.
Qed.

Lemma Split_listing (lines : list string) :
  Forall (fun line => netmap6.afterFirst (ascii_of_nat 10) line = None) lines ->
  Split (listing lines) newline = lines ++ [""].
Proof.
  induction 1 as [|line lines Hl Hall IH].
  - cbn [listing app]. unfold newline. now rewrite Split_byte.
  - cbn [listing app]. rewrite Split_line by exact Hl. now rewrite IH.
Qed.

Lemma savesStep_listing (chain : string) (toks rules : list string) :
  isField chain = true -> Forall (fun t => isField t = true) toks ->
  Contains ("-A " +:+ chain +:+ spaced toks) "NETMAP" = true ->
  savesStep rules ("-A " +:+ chain +:+ spaced toks)
  = if negb (isEmpty (normalizeRuleFormat ("-A " +:+ chain +:+ spaced toks)))
    then rules ++ [normalizeRuleFormat ("-A " +:+ chain +:+ spaced toks)]
    else rules.
Proof.
  intros Hc Hall Hn. unfold savesStep.
  rewrite (TrimSpace_listing _ _ Hc Hall), Hn, HasPrefix_app. reflexivity.
Qed.

Lemma savedLines_spaced (iface privateAddr publicAddr : string) :
  savedLines (iface, privateAddr, publicAddr)
  = [ "-A " +:+ "POSTROUTING"
        +:+ spaced ["-s"; privateAddr; "-o"; iface; "-j"; "NETMAP"; "--to"; publicAddr];
      "-A " +:+ "PREROUTING"
        +:+ spaced ["-d"; publicAddr; "-i"; iface; "-j"; "NETMAP"; "--to"; privateAddr] ].
Proof. cbn [savedLines spaced]. now rewrite !app_empty_r. Qed.

Lemma savedLines_one_line (pair : string * string * string) :
  fieldsOnly pair ->
  Forall (fun line => netmap6.afterFirst (ascii_of_nat 10) line = None) (savedLines pair).
Proof.
  destruct pair as [[iface privateAddr] publicAddr]. intros (_ & Hi & Hpriv & Hpub).
  rewrite savedLines_spaced.
  constructor; [|constructor; [|constructor]].
  - apply (afterFirst_app_none _ "-A "); [reflexivity|].
    apply (afterFirst_app_none _ "POSTROUTING"); [reflexivity|].
    apply afterFirst_spaced. repeat (constructor; [assumption || reflexivity|]). constructor.
  - apply (afterFirst_app_none _ "-A "); [reflexivity|].
    apply (afterFirst_app_none _ "PREROUTING"); [reflexivity|].
    apply afterFirst_spaced. repeat (constructor; [assumption || reflexivity|]). constructor.
Qed.

Lemma isEmpty_compiled (iface a b : string) :
  isEmpty (netmap6.postroutingRule iface a b) = false
  /\ isEmpty (netmap6.preroutingRule iface a b) = false.
Proof. split; reflexivity. Qed.

Lemma savesStep_postrouting (iface privateAddr publicAddr : string) (rules : list string) :
  isField iface = true -> isField privateAddr = true -> isField publicAddr = true ->
  savesStep rules
    ("-A " +:+ "POSTROUTING"
       +:+ spaced ["-s"; privateAddr; "-o"; iface; "-j"; "NETMAP"; "--to"; publicAddr])
  = rules ++ [netmap6.postroutingRule iface privateAddr publicAddr].
Proof.
  intros Hi Hpriv Hpub. rewrite savesStep_listing.
  - replace ("-A " +:+ "POSTROUTING"
               +:+ spaced ["-s"; privateAddr; "-o"; iface; "-j"; "NETMAP"; "--to"; publicAddr])
      with ("-A POSTROUTING -s " +:+ privateAddr +:+ " -o " +:+ iface
              +:+ " -j NETMAP --to " +:+ publicAddr)
      by (cbn [spaced]; now rewrite app_empty_r).
    rewrite (normalizeRuleFormat_postrouting _ _ _ Hi Hpriv Hpub).
    now destruct (isEmpty_compiled iface privateAddr publicAddr) as [-> _].
  - reflexivity.
  - repeat (constructor; [assumption || reflexivity|]). constructor.
  - replace ("-A " +:+ "POSTROUTING"
               +:+ spaced ["-s"; privateAddr; "-o"; iface; "-j"; "NETMAP"; "--to"; publicAddr])
      with (("-A POSTROUTING -s " +:+ privateAddr +:+ " -o " +:+ iface +:+ " -j ")
              +:+ "NETMAP" +:+ (" --to " +:+ publicAddr +:+ ""))
      by (rewrite !app_assoc'; reflexivity).
    apply Contains_intro.
Qed.

Lemma savesStep_prerouting (iface privateAddr publicAddr : string) (rules : list string) :
  isField iface = true -> isField privateAddr = true -> isField publicAddr = true ->
  savesStep rules
    ("-A " +:+ "PREROUTING"
       +:+ spaced ["-d"; publicAddr; "-i"; iface; "-j"; "NETMAP"; "--to"; privateAddr])
  = rules ++ [netmap6.preroutingRule iface publicAddr privateAddr].
Proof.
  intros Hi Hpriv Hpub. rewrite savesStep_listing.
  - replace ("-A " +:+ "PREROUTING"
               +:+ spaced ["-d"; publicAddr; "-i"; iface; "-j"; "NETMAP"; "--to"; privateAddr])
      with ("-A PREROUTING -d " +:+ publicAddr +:+ " -i " +:+ iface
              +:+ " -j NETMAP --to " +:+ privateAddr)
      by (cbn [spaced]; now rewrite app_empty_r).
    rewrite (normalizeRuleFormat_prerouting _ _ _ Hi Hpriv Hpub).
    now destruct (isEmpty_compiled iface publicAddr privateAddr) as [_ ->].
  - reflexivity.
  - repeat (constructor; [assumption || reflexivity|]). constructor.
  - replace ("-A " +:+ "PREROUTING"
               +:+ spaced ["-d"; publicAddr; "-i"; iface; "-j"; "NETMAP"; "--to"; privateAddr])
      with (("-A PREROUTING -d " +:+ publicAddr +:+ " -i " +:+ iface +:+ " -j ")
              +:+ "NETMAP" +:+ (" --to " +:+ privateAddr +:+ ""))
      by (rewrite !app_assoc'; reflexivity).
    apply Contains_intro.
Qed.

Lemma foldl_savesStep_savedLines (pair : string * string * string) (rules : list string) :
  fieldsOnly pair ->
  foldl savesStep rules (savedLines pair) = rules ++ compiledRules pair.
Proof.
  destruct pair as [[iface privateAddr] publicAddr]. intros (_ & Hi & Hpriv & Hpub).
  rewrite savedLines_spaced. cbn [foldl].
  rewrite (savesStep_postrouting _ _ _ _ Hi Hpriv Hpub).
  rewrite (savesStep_prerouting _ _ _ _ Hi Hpriv Hpub).
  cbn [compiledRules]. now rewrite <- app_assoc.
Qed.

Lemma parseNetmapRulesFromSaves_listing (pairs : list (string * string * string)) :
  Forall fieldsOnly pairs ->
  parseNetmapRulesFromSaves (listing (flat_map savedLines pairs))
  = flat_map compiledRules pairs.
Proof.
  intros Hall. unfold parseNetmapRulesFromSaves.
  rewrite Split_listing.
  - rewrite foldl_app.
    assert (G : forall rules,
               foldl savesStep rules (flat_map savedLines pairs)
               = rules ++ flat_map compiledRules pairs).
    { induction Hall as [|pair pairs Hp Hall IH]; intros rules.
      - cbn [flat_map foldl]. now rewrite app_nil_r.
      - cbn [flat_map]. rewrite foldl_app, (foldl_savesStep_savedLines _ _ Hp), IH.
        now rewrite <- app_assoc. }
    rewrite G. reflexivity.
  - induction Hall as [|pair pairs Hp Hall IH]; [constructor|].
    cbn [flat_map]. apply Forall_app. split; [now apply savedLines_one_line|exact IH].
Qed.

Lemma GenerateIp6tablesRules_compiledPairs (linkName : string) (netmap : netmap6.Netmap6) :
  netmap6.GenerateIp6tablesRules netmap linkName
  = flat_map compiledRules (compiledPairs linkName netmap).
Proof.
  rewrite GenerateIp6tablesRules_flat_map. unfold compiledPairs.
  destruct (netmap6.Enabled netmap && negb (isEmpty linkName)); [|reflexivity].
  induction (netmap6.Maps netmap) as [|m maps IH]; [reflexivity|].
  cbn [flat_map]. rewrite flat_map_app, IH, pairRules_complete.
  destruct (netmap6.complete m); reflexivity.
Qed.

Section Generation.
Context {World : Type} (Output CombinedOutput : CombinedOutputFn World).

Lemma generateRules_quiet (links : list (string * link.Link)) (st : state World) :
  Forall (fun entry =>
            Forall (fun set => fallsBack (fst entry) (snd set) = false)
                   (link.Netmap6 (snd entry)))
         links ->
  generateRules CombinedOutput links st = (st, flat_map compiledRules (compiledOf links)).
Proof.
  intros Hall. unfold generateRules, compiledOf.
  assert (G : forall newRules,
             foldl (fun acc entry =>
                      foldl (generateStep CombinedOutput (fst entry)) acc
                            (link.Netmap6 (snd entry)))
                   (st, newRules) links
             = (st, newRules
                      ++ flat_map compiledRules
                           (flat_map (fun entry =>
                                        flat_map (fun set => compiledPairs (fst entry) (snd set))
                                                 (link.Netmap6 (snd entry)))
                                     links))).
  { induction Hall as [|entry links He Hall IH]; intros newRules.
    - cbn [foldl flat_map]. now rewrite app_nil_r.
    - cbn [foldl flat_map].
      assert (I : forall acc,
                 foldl (generateStep CombinedOutput (fst entry)) (st, acc)
                       (link.Netmap6 (snd entry))
                 = (st, acc
                          ++ flat_map compiledRules
                               (flat_map (fun set => compiledPairs (fst entry) (snd set))
                                         (link.Netmap6 (snd entry))))).
      { induction He as [|set sets Hs He IHs]; intros acc.
        - cbn [foldl flat_map]. now rewrite app_nil_r.
        - cbn [foldl flat_map].
          assert (Hstep : generateStep CombinedOutput (fst entry) (st, acc) set
                          = (st, acc ++ flat_map compiledRules
                                          (compiledPairs (fst entry) (snd set)))).
          { unfold generateStep. unfold fallsBack in Hs. rewrite Hs.
            now rewrite GenerateIp6tablesRules_compiledPairs. }
          rewrite Hstep, IHs, flat_map_app, <- app_assoc. reflexivity. }
      rewrite I, IH, flat_map_app, <- app_assoc. reflexivity. }
  apply (G []).
Qed.

Lemma ApplyNetmapRules_same (rules : list string) (st : state World) :
  rules <> [] ->
  ApplyNetmapRules CombinedOutput rules rules st = (st, Returned None).
Proof.
  intros Hne. unfold ApplyNetmapRules.
  destruct rules as [|r0 rs]; [congruence|]. cbn [length Nat.eqb].
  rewrite !smartDifference_missingFrom.
  rewrite missingFrom_nil by (intros r Hr; now apply in_map).
  reflexivity.
Qed.

(** X18: on a host whose [-S] listing shows, line by line, the two rules of
    every pair that the links' mapping sets compile to, a whole pass of
    [ApplyNetmapRules] runs the listing and no other command, and returns
    no error: no rule is added or removed.  The links compile to at least
    one pair, interfaces and expanded addresses are ASCII and free of white
    space, and no set triggers the fallback.  The statement is about the
    commands and the result, which the lines of debug mode do not touch. *)
Theorem ApplyNetmapRulesOfLinks_settled
    (links : list (string * link.Link)) (st : state World) (w : World) :
  compiledOf links <> [] ->
  Forall fieldsOnly (compiledOf links) ->
  Forall (fun entry =>
            Forall (fun set => fallsBack (fst entry) (snd set) = false)
                   (link.Netmap6 (snd entry)))
         links ->
  Output ["ip6tables"; "-t"; "nat"; "-S"] (world st)
  = (w, listing (flat_map savedLines (compiledOf links)), None) ->
  world (fst (ApplyNetmapRulesOfLinks Output CombinedOutput links st)) = w
  /\ invocations (trace (fst (ApplyNetmapRulesOfLinks Output CombinedOutput links st)))
     = invocations (trace st) ++ [["ip6tables"; "-t"; "nat"; "-S"]]
  /\ snd (ApplyNetmapRulesOfLinks Output CombinedOutput links st) = Returned None.
Proof.
  intros Hne Hf Hq Ho.
  unfold ApplyNetmapRulesOfLinks, getCurrentNetmapRules, invoke.
  rewrite Ho, (parseNetmapRulesFromSaves_listing _ Hf).
  assert (Hrules : flat_map compiledRules (compiledOf links) <> []).
  { destruct (compiledOf links) as [|[[iface a] b] pairs]; [congruence|discriminate]. }
  destruct (flat_map compiledRules (compiledOf links)) as [|r rs] eqn:E; [congruence|].
  cbn [length Nat.ltb Nat.leb].
  rewrite (generateRules_quiet links _ Hq), E.
  rewrite ApplyNetmapRules_same by discriminate. cbn [fst snd world trace].
  rewrite invocations_app. repeat split; reflexivity.
Qed.

End Generation.

Lemma unset_fields (iface privateAddr publicAddr : string) :
  unsetInterface iface = false -> unsetAddress privateAddr = false ->
  unsetAddress publicAddr = false ->
  isEmpty iface = false /\ isEmpty privateAddr = false /\ isEmpty publicAddr = false.
Proof.
  unfold unsetInterface, unsetAddress. intros Hi Hpriv Hpub.
  destruct (isEmpty iface), (isEmpty privateAddr), (isEmpty publicAddr);
    try discriminate; auto.
Qed.

(** X19: the scanner of the [-L] listing reads a line with the nine columns
    it expects back as the compiled text.  With counters [pkts] and [bytes],
    an interface and addresses that are ASCII, set and free of white space,
    [parseNetmapRuleFromListLine] turns the line of the outbound rule in
    chain POSTROUTING into the rule compiler's POSTROUTING text, and the line
    of the inbound rule in chain PREROUTING into its PREROUTING text. *)
Theorem parseNetmapRuleFromListLine_reads_compiled_rules
    (pkts bytes iface privateAddr publicAddr : string) :
  isASCII pkts = true -> isASCII bytes = true -> isASCII iface = true ->
  isASCII privateAddr = true -> isASCII publicAddr = true ->
  isField pkts = true -> isField bytes = true ->
  noSpace iface = true -> noSpace privateAddr = true -> noSpace publicAddr = true ->
  unsetInterface iface = false -> unsetAddress privateAddr = false ->
  unsetAddress publicAddr = false ->
  parseNetmapRuleFromListLine
    (pkts +:+ " " +:+ bytes +:+ " NETMAP all -- * " +:+ iface +:+ " " +:+ privateAddr
       +:+ " ::/0 to:" +:+ publicAddr)
    "POSTROUTING"
  = netmap6.postroutingRule iface privateAddr publicAddr
  /\ parseNetmapRuleFromListLine
       (pkts +:+ " " +:+ bytes +:+ " NETMAP all -- " +:+ iface +:+ " * ::/0 " +:+ publicAddr
          +:+ " to:" +:+ privateAddr)
       "PREROUTING"
     = netmap6.preroutingRule iface publicAddr privateAddr.
Proof.
  intros _ _ _ _ _ Hp Hb Hni Hnpriv Hnpub Hi Hpriv Hpub.
  destruct (unset_fields _ _ _ Hi Hpriv Hpub) as (Hei & Hepriv & Hepub).
  assert (Hfi : isField iface = true) by (unfold isField; now rewrite Hei, Hni).
  assert (Hfpriv : isField privateAddr = true) by (unfold isField; now rewrite Hepriv, Hnpriv).
  assert (Hfpub : isField publicAddr = true) by (unfold isField; now rewrite Hepub, Hnpub).
  assert (Hto : forall a, noSpace a = true -> isField ("to:" +:+ a) = true).
  { intros a Ha. apply isField_intro; [|discriminate].
    rewrite noSpace_app, Ha. reflexivity. }
  assert (Hfind : forall a, findToAddress ["to:" +:+ a] = a).
  { intros a. cbn [findToAddress]. rewrite HasPrefix_app.
    unfold TrimPrefix. rewrite HasPrefix_app. apply drop_bytes_app. }
  split.
  - assert (HF : Fields (pkts +:+ " " +:+ bytes +:+ " NETMAP all -- * " +:+ iface +:+ " "
                           +:+ privateAddr +:+ " ::/0 to:" +:+ publicAddr)
                 = [pkts; bytes; "NETMAP"; "all"; "--"; "*"; iface; privateAddr; "::/0";
                    "to:" +:+ publicAddr]).
    { rewrite <- (Fields_spaced pkts);
        [|exact Hp|repeat (constructor; [auto; reflexivity|]); constructor].
      f_equal. cbn [spaced]. rewrite ?app_assoc', app_empty_r. reflexivity. }
    unfold parseNetmapRuleFromListLine. rewrite HF.
    cbn [length Nat.ltb Nat.leb nth drop]. rewrite Hfind, Hi, Hpriv, Hepub.
    cbn. unfold netmap6.postroutingRule. rewrite ?app_assoc'. reflexivity.
  - assert (HF : Fields (pkts +:+ " " +:+ bytes +:+ " NETMAP all -- " +:+ iface
                           +:+ " * ::/0 " +:+ publicAddr +:+ " to:" +:+ privateAddr)
                 = [pkts; bytes; "NETMAP"; "all"; "--"; iface; "*"; "::/0"; publicAddr;
                    "to:" +:+ privateAddr]).
    { rewrite <- (Fields_spaced pkts);
        [|exact Hp|repeat (constructor; [auto; reflexivity|]); constructor].
      f_equal. cbn [spaced]. rewrite ?app_assoc', app_empty_r. reflexivity. }
    unfold parseNetmapRuleFromListLine. rewrite HF.
    cbn [length Nat.ltb Nat.leb nth drop]. rewrite Hfind, Hi, Hpub, Hepriv.
    cbn. unfold netmap6.preroutingRule. rewrite ?app_assoc'. reflexivity.
Qed.

End SettledFacts.

Lemma ApplyNetmapRulesOfLinks_settled_witness :
  world (fst (netmapmanager.ApplyNetmapRulesOfLinks samples.settledHost samples.alwaysFails
                samples.shippedLinks samples.start)) = tt
  /\ invocations
       (trace (fst (netmapmanager.ApplyNetmapRulesOfLinks samples.settledHost
                      samples.alwaysFails samples.shippedLinks samples.start)))
     = invocations (trace samples.start) ++ [["ip6tables"; "-t"; "nat"; "-S"]]
  /\ snd (netmapmanager.ApplyNetmapRulesOfLinks samples.settledHost samples.alwaysFails
            samples.shippedLinks samples.start) = Returned None.
Proof.
  apply (ApplyNetmapRulesOfLinks_settled samples.settledHost samples.alwaysFails
           samples.shippedLinks samples.start tt).
  - vm_compute. discriminate.
  - vm_compute. repeat constructor.
  - vm_compute. repeat constructor.
  - reflexivity.
Defined.

Lemma parseNetmapRuleFromListLine_reads_compiled_rules_witness :
  netmapmanager.parseNetmapRuleFromListLine
    "0 0 NETMAP all -- * pub1a b30::20:20:0:0/96 ::/0 to:2001:db8:1::25:0:0/96"
    "POSTROUTING"
  = netmap6.postroutingRule "pub1a" "b30::20:20:0:0/96" "2001:db8:1::25:0:0/96"
  /\ netmapmanager.parseNetmapRuleFromListLine
       "0 0 NETMAP all -- pub1a * ::/0 2001:db8:1::25:0:0/96 to:b30::20:20:0:0/96"
       "PREROUTING"
     = netmap6.preroutingRule "pub1a" "2001:db8:1::25:0:0/96" "b30::20:20:0:0/96".
Proof.
  apply (parseNetmapRuleFromListLine_reads_compiled_rules
           "0" "0" "pub1a" "b30::20:20:0:0/96" "2001:db8:1::25:0:0/96"); reflexivity.
Defined.
